(** * FIGARO: prior elicitation, grids, rejection sampling and the
      entropy-convergence pipeline

    A shallow embedding of [figaro/utils.py], of the reconstruction and
    convergence part of [figaro/pipelines/entropy.py], of the redshift
    search, the event names and the unpacking of posterior samples of
    [figaro/load.py], and of the ranges and normalisations of
    [figaro/plot.py].

    Numbers.  The Python code computes with IEEE doubles.  The embedding is
    over exact numbers: rationals [Q] where the code only adds, multiplies,
    divides and compares (grids, rejection sampling, angular coefficients),
    so that these functions evaluate, and the reals [R] for [get_priors],
    which takes square roots.  Rounding, overflow and NaN of the doubles
    are outside the model.  Integers are [Z]; where the code computes with
    NumPy's 64-bit integers (the zero crossings of line 156 and the
    default window of [pipelines/entropy.py]) their wrap-around and their
    division by zero are written out.

    Exceptions.  A Python function that can raise returns a [result]; the
    exceptions that matter are [IndexError], [ValueError],
    [ZeroDivisionError] and [RuntimeError].

    Library and sibling-module functions that are not part of the embedded
    files ([transform_to_probit], [np.cov], the multivariate normal sampler,
    [np.random.uniform], [np.random.shuffle], the mixture object and the
    entropy functional) are parameters of the sections that use them. *)

From Stdlib Require Import Ascii String.
From Stdlib Require Import Bool Arith ZArith QArith Qminmax Reals Psatz List
  Permutation Sorted.
Import ListNotations.

(* ================================================================== *)
(** ** Python values: exceptions, indexing, slices                      *)
(* ================================================================== *)

Module Py.

Inductive exn : Type :=
| IndexError
| ZeroDivisionError
| ValueError (msg : string)
| RuntimeError (msg : string).

Inductive result (A : Type) : Type :=
| Ok (a : A)
| Raise (e : exn).
Arguments Ok {A} a.
Arguments Raise {A} e.

Definition bind {A B} (r : result A) (k : A -> result B) : result B :=
  match r with
  | Ok a => k a
  | Raise e => Raise e
  end.

(** [l[i]] for a Python int [i]: a negative index counts from the end. *)
Definition index {A} (l : list A) (i : Z) : result A :=
  let n := Z.of_nat (length l) in
  let j := if (i <? 0)%Z then (i + n)%Z else i in
  if ((0 <=? j)%Z && (j <? n)%Z)%bool
  then match nth_error l (Z.to_nat j) with
       | Some a => Ok a
       | None => Raise IndexError
       end
  else Raise IndexError.

(** [l[1:-1]]. *)
Definition slice_1_m1 {A} (l : list A) : list A := removelast (tl l).

(** [l[k] = v] on an array of fixed size. *)
Definition setitem {A} (l : list A) (k : nat) (v : A) : result (list A) :=
  if (k <? length l)%nat
  then Ok (firstn k l ++ v :: skipn (S k) l)
  else Raise IndexError.

(** [l[k] = v] for a Python int [k]: a negative index counts from the
    end. *)
Definition setitem_int {A} (l : list A) (k : Z) (v : A) : result (list A) :=
  let n := Z.of_nat (length l) in
  let j := if (k <? 0)%Z then (k + n)%Z else k in
  if ((0 <=? j)%Z && (j <? n)%Z)%bool
  then setitem l (Z.to_nat j) v
  else Raise IndexError.

End Py.

Import Py.

Declare Scope py_scope.
Delimit Scope py_scope with py.
Notation "x <- r ;; k" := (Py.bind r (fun x => k))
  (at level 61, r at next level, right associativity) : py_scope.
Notation "' p <- r ;; k" := (Py.bind r (fun p => k))
  (at level 61, p pattern, r at next level, right associativity) : py_scope.

(* ================================================================== *)
(** ** figaro/pipelines/entropy.py: zero crossings and endpoints        *)
(* ================================================================== *)

Module Entropy.

Local Open Scope Z_scope.

(** [np.sign] on an exact number: -1, 0 or 1. *)
Definition np_sign (x : Q) : Z := Z.sgn (Qnum x).

(** [np.diff]: consecutive differences, one element shorter. *)
Fixpoint np_diff (l : list Z) : list Z :=
  match l with
  | a :: (b :: _) as t => (b - a) :: np_diff t
  | _ => []
  end.

(** [np.where(v)[0]]: the positions, in increasing order, of the nonzero
    entries of [v]; [i] is the position of the head. *)
Fixpoint np_where_from (i : Z) (v : list Z) : list Z :=
  match v with
  | [] => []
  | x :: t => if x =? 0 then np_where_from (i + 1) t
              else i :: np_where_from (i + 1) t
  end.

Definition np_where (v : list Z) : list Z := np_where_from 0 v.

(** [np.where(np.diff(np.sign(ac)))[0]]. *)
Definition crossing_offsets (ac : list Q) : list Z :=
  np_where (np_diff (map np_sign ac)).

(** A result of NumPy's arithmetic on 64-bit integers: it wraps around
    without a word. *)
Definition wrap64 (z : Z) : Z := (z + 2 ^ 63) mod 2 ^ 64 - 2 ^ 63.

(** Line 156: [(options.window + offsets)*entropy_interval] for one run.
    The offsets are an array of 64-bit integers, and so are the sum and
    the product; [window] and [entropy_interval] are taken to fit in 64
    bits themselves (what NumPy does with a larger Python int depends on
    its version). *)
Definition zero_crossings_run (window entropy_interval : Z) (ac : list Q)
  : list Z :=
  map (fun o => wrap64 (wrap64 (window + o) * entropy_interval))
      (crossing_offsets ac).

Definition zero_crossings (window entropy_interval : Z)
  (ang_coeff : list (list Q)) : list (list Z) :=
  map (zero_crossings_run window entropy_interval) ang_coeff.

(** Lines 157-163: the loop over the runs.  The state is the pair of
    [endpoints] and [conv_not_reached_flag]; the only exception that
    [zc[options.zero_crossings]] raises is the [IndexError] that the
    [except] clause catches. *)
Fixpoint endpoints_loop (n_zero_crossings : Z) (zcs : list (list Z))
  (endpoints : list Z) (flag : bool) : list Z * bool :=
  match zcs with
  | [] => (endpoints, flag)
  | zc :: rest =>
      match Py.index zc n_zero_crossings with
      | Ok e => endpoints_loop n_zero_crossings rest (endpoints ++ [e]) flag
      | Raise _ => endpoints_loop n_zero_crossings rest endpoints true
      end
  end.

Definition collect_endpoints (n_zero_crossings : Z) (zcs : list (list Z))
  : list Z * bool :=
  endpoints_loop n_zero_crossings zcs [] false.

(** Lines 164-175: [EP = int(np.mean(endpoints))], or [None]. *)
Definition EP_of (endpoints : list Z) : option Z :=
  match endpoints with
  | [] => None
  | _ => Some (Z.quot (fold_right Z.add 0 endpoints)
                      (Z.of_nat (length endpoints)))
  end.

(** *** Lines 104-118: the reconstruction loop

    [samples] is one NumPy array, bound once before the loop;
    [np.random.shuffle] permutes it in place, so the array is part of the
    state that one run hands to the next.  The mixture object [mix] is
    mutated by [initialise] and [add_new_point]. *)

Section Reconstruction.

Context {sample mix_t draw_t rng_t : Type}.

(** The [DPGMM] object of [figaro.mixture] and the entropy functional of
    [figaro.diagnostic]. *)
Variable initialise : mix_t -> mix_t.
Variable add_new_point : mix_t -> sample -> mix_t.
Variable build_mixture : mix_t -> draw_t.
Variable compute_entropy_single_draw : mix_t -> Q.

(** [np.random.shuffle(a)]: the new content of [a] and the new state of the
    global random source. *)
Variable shuffle : rng_t -> list sample -> list sample * rng_t.

Record state : Type := mkState {
  samples : list sample;
  mix : mix_t;
  rng : rng_t;
  draws : list draw_t;
  entropy : list (list Q);
  n_eval_S : list Q
}.

(** Lines 112-116, [for i, s in enumerate(samples)], from position [i].
    [entropy_interval] is the Python int of the option, of either sign;
    it is not 0 here, line 108 having raised otherwise.  [%] and [//] are
    Python's, which round towards minus infinity as [mod] and [/] on [Z]
    do. *)
Fixpoint ingest (entropy_interval : Z) (i : nat) (todo : list sample)
  (m : mix_t) (S_ n_eval : list Q) : result (mix_t * list Q * list Q) :=
  match todo with
  | [] => Ok (m, S_, n_eval)
  | s :: rest =>
      let m := add_new_point m s in
      if (Z.of_nat i mod entropy_interval =? 0)%Z then
        (S_ <- Py.setitem_int S_ (Z.of_nat i / entropy_interval)%Z
                 (compute_entropy_single_draw m) ;;
         n_eval <- Py.setitem_int n_eval (Z.of_nat i / entropy_interval)%Z
                 (inject_Z (Z.of_nat i)) ;;
         ingest entropy_interval (S i) rest m S_ n_eval)%py
      else ingest entropy_interval (S i) rest m S_ n_eval
  end.

Definition negative_dimensions_msg : string :=
  "negative dimensions are not allowed".

(** Lines 108-118, the body of [for j in range(options.n_draws)].
    [len(samples)//options.entropy_interval] raises for an interval of 0,
    and [np.zeros] raises for a negative size. *)
Definition run (entropy_interval : Z) (st : state) : result state :=
  if (entropy_interval =? 0)%Z then Raise ZeroDivisionError else
  let size := (Z.of_nat (length (samples st)) / entropy_interval)%Z in
  if (size <? 0)%Z then Raise (ValueError negative_dimensions_msg) else
  let S0 := repeat 0%Q (Z.to_nat size) in
  let n0 := repeat 0%Q (Z.to_nat size) in
  let m0 := initialise (mix st) in
  let '(shuffled, g) := shuffle (rng st) (samples st) in
  ('(m, S_, n_eval) <- ingest entropy_interval 0 shuffled m0 S0 n0 ;;
   Ok {| samples := shuffled;
         mix := m;
         rng := g;
         draws := draws st ++ [build_mixture m];
         entropy := entropy st ++ [S_];
         n_eval_S := n_eval |})%py.

(** Lines 107-118; [range] of a negative [options.n_draws] is empty, as
    that of 0. *)
Fixpoint runs (n_draws : nat) (entropy_interval : Z) (st : state)
  : result state :=
  match n_draws with
  | O => Ok st
  | S n => (st <- run entropy_interval st ;;
            runs n entropy_interval st)%py
  end.

End Reconstruction.

End Entropy.

(* ================================================================== *)
(** ** figaro/utils.py: grids and rejection sampling (over [Q])         *)
(* ================================================================== *)

Module Utils.

Section Grid.

Local Open Scope Q_scope.

(** [np.linspace(start, stop, num)] with the default [endpoint=True]:
    [start + i*step] for [i < num-1], with [step = (stop-start)/(num-1)],
    and [stop] itself in the last place. *)
Definition linspace (start stop : Q) (num : nat) : list Q :=
  match num with
  | O => []
  | S O => [start]
  | S (S _ as div) =>
      let step := (stop - start) / inject_Z (Z.of_nat div) in
      map (fun i => start + inject_Z (Z.of_nat i) * step) (seq 0 div)
      ++ [stop]
  end.

(** [np.linspace(lo, hi, n+2)[1:-1]] (lines 30 and 36). *)
Definition interior (lo hi : Q) (n : nat) : list Q :=
  Py.slice_1_m1 (linspace lo hi (n + 2)).

(** [d[1]-d[0]] (lines 31 and 37). *)
Definition first_gap (d : list Q) : result Q :=
  (d1 <- Py.index d 1 ;;
   d0 <- Py.index d 0 ;;
   Ok (d1 - d0))%py.

(** [recursive_grid(bounds, n_pts)].  [bounds] is the array after
    [np.atleast_2d], one [(min, max)] row per dimension; [n_pts] the array
    after [np.atleast_1d], with non-negative entries.  An empty [bounds]
    becomes an array of shape (1, 0), for which [bounds[0,0]] raises. *)
Fixpoint recursive_grid (bounds : list (Q * Q)) (n_pts : list nat)
  : result (list (list Q) * list Q) :=
  match bounds with
  | [] => Raise IndexError
  | (lo, hi) :: rest =>
      match rest with
      | [] =>
          (n0 <- Py.index n_pts 0 ;;
           let d := interior lo hi n0 in
           dD <- first_gap d ;;
           Ok (map (fun x => [x]) d, [dD]))%py
      | _ :: _ =>
          ('(grid_nm1, diff) <- recursive_grid rest (tl n_pts) ;;
           n0 <- Py.index n_pts 0 ;;
           let d := interior lo hi n0 in
           gap <- first_gap d ;;
           let diff := diff ++ [gap] in
           let grid :=
             flat_map (fun di => map (fun gi => di :: gi) grid_nm1) d in
           Ok (grid, diff))%py
      end
  end.

End Grid.

Section RejectionSampler.

Local Open Scope Q_scope.

Context {rng_t : Type}.

(** [np.random.uniform(low, high, size = n)] on the global random source:
    the [n] draws and the new state of the source. *)
Variable uniform : rng_t -> Q -> Q -> nat -> list Q * rng_t.

Definition Qltb (x y : Q) : bool := negb (Qle_bool y x).

(** [np.max] of a non-empty array. *)
Definition np_max (l : list Q) : Q :=
  match l with
  | [] => 0
  | a :: t => fold_left Qmax t a
  end.

(** [f(x)*selfunc(x)] on an array; [selfunc = None] stands for
    [lambda x: 1]. *)
Definition weighted (f : Q -> Q) (selfunc : option (Q -> Q)) (x : Q) : Q :=
  match selfunc with
  | Some sel => f x * sel x
  | None => f x * 1
  end.

(** [pts[np.where(h < probs)]]. *)
Definition accepted (pts probs h : list Q) : list Q :=
  map fst (filter (fun c => Qltb (snd (snd c)) (fst (snd c)))
                  (combine pts (combine probs h))).

(** Lines 63-67.  The loop has no bound in the source; [fuel] bounds the
    number of iterations, and [None] means that the loop is still running
    when the fuel is spent. *)
Fixpoint sampler_loop (fuel : nat) (n_draws : nat) (f : Q -> Q)
  (bounds : Q * Q) (selfunc : option (Q -> Q)) (top : Q)
  (g : rng_t) (samples : list Q) : option (list Q * rng_t) :=
  if (length samples <? n_draws)%nat then
    match fuel with
    | O => None
    | S fuel =>
        let '(pts, g) := uniform g (fst bounds) (snd bounds) n_draws in
        let probs := map (weighted f selfunc) pts in
        let '(h, g) := uniform g 0 top n_draws in
        sampler_loop fuel n_draws f bounds selfunc top g
                     (samples ++ accepted pts probs h)
    end
  else Some (samples, g).

Definition envelope (f : Q -> Q) (bounds : Q * Q)
  (selfunc : option (Q -> Q)) : Q :=
  np_max (map (weighted f selfunc)
              (linspace (fst bounds) (snd bounds) 1000)).

(** [rejection_sampler(n_draws, f, bounds, selfunc)], with the state of
    the random source made explicit. *)
Definition rejection_sampler (fuel : nat) (g : rng_t) (n_draws : nat)
  (f : Q -> Q) (bounds : Q * Q) (selfunc : option (Q -> Q))
  : option (list Q * rng_t) :=
  let top := envelope f bounds selfunc in
  match sampler_loop fuel n_draws f bounds selfunc top g [] with
  | Some (samples, g) => Some (firstn n_draws samples, g)
  | None => None
  end.

End RejectionSampler.

(* ------------------------------------------------------------------ *)
(** *** [get_priors] (over [R])                                          *)
(* ------------------------------------------------------------------ *)

Section Priors.

Local Open Scope R_scope.

Definition matrix : Type := list (list R).

(** The four prior parameters, in the order [(k, L, df, mu)]. *)
Definition prior_pars : Type := (R * matrix * R * list R)%type.

Definition Rltb (x y : R) : bool := if Rlt_dec x y then true else false.

Definition mean_outside_msg : string := "Mean is outside of the given bounds".
Definition broadcast_msg : string := "operands could not be broadcast together".

(** NumPy broadcasting of a binary operation on two 1-D arrays. *)
Definition broadcast2 {A B C} (op : A -> B -> C) (xs : list A) (ys : list B)
  : result (list C) :=
  if (length xs =? length ys)%nat
  then Ok (map (fun p => op (fst p) (snd p)) (combine xs ys))
  else match xs, ys with
       | _, [y] => Ok (map (fun x => op x y) xs)
       | [x], _ => Ok (map (fun y => op x y) ys)
       | _, _ => Raise (ValueError broadcast_msg)
       end.

(** [np.prod] of a boolean array: 1 exactly when all entries are true. *)
Definition np_prod (bs : list bool) : bool := forallb (fun b => b) bs.

(** [M*v] and [M/c] and the element-wise operations on matrices. *)
Definition mat_map (op : R -> R) (M : matrix) : matrix := map (map op) M.

Definition mat_map2 (op : R -> R -> R) (A B : matrix) : matrix :=
  map (fun rs => map (fun p => op (fst p) (snd p)) (combine (fst rs) (snd rs)))
      (combine A B).

Definition np_identity (dim : nat) : matrix :=
  map (fun i => map (fun j => if (i =? j)%nat then 1 else 0) (seq 0 dim))
      (seq 0 dim).

Definition np_diag (M : matrix) : list R :=
  map (fun i => nth i (nth i M []) 0) (seq 0 (length M)).

Definition np_outer (u v : list R) : matrix :=
  map (fun a => map (fun b => a * b) v) u.

(** [np.mean(X, axis = 0)] of an (N, D) array given by its rows. *)
Definition np_mean_axis0 (X : list (list R)) : list R :=
  match X with
  | [] => []
  | r :: _ =>
      map (fun j => fold_right Rplus 0 (map (fun x => nth j x 0) X)
                    / INR (length X))
          (seq 0 (length r))
  end.

(** The [samples] argument: a 1-D array is turned into one column
    (lines 100-101). *)
Inductive samples_t : Type :=
| Samples1D (xs : list R)
| Samples2D (rows : list (list R)).

Definition as_rows (s : samples_t) : list (list R) :=
  match s with
  | Samples1D xs => map (fun x => [x]) xs
  | Samples2D rows => rows
  end.

(** [figaro.transform.transform_to_probit], on one point; on an (N, D)
    array it acts on each row. *)
Variable transform_to_probit : list R -> list (R * R) -> list R.

(** [np.atleast_2d(np.cov(X.T))] for an (N, D) array [X] given by its
    rows. *)
Variable np_cov : list (list R) -> matrix.

(** [scipy.stats.multivariate_normal(mean, cov).rvs(n)] as [n] rows of
    length D (what line 144 makes of it when D = 1); SciPy raises on a
    covariance that it does not accept. *)
Variable mvn_rvs : list R -> matrix -> nat -> result (list (list R)).

Definition transform_rows (X : list (list R)) (bounds : list (R * R))
  : list (list R) :=
  map (fun x => transform_to_probit x bounds) X.

(** Lines 104-107. *)
Definition df_out (dim : nat) (df : option R) : R :=
  match df with
  | Some d => if Rltb (INR dim + 2) d then d else INR dim + 2
  | None => INR dim + 2
  end.

(** The test of line 113, [np.prod(bounds[:,0] < mean) & np.prod(mean <
    bounds[:,1])]. *)
Definition mean_in_bounds (bounds : list (R * R)) (mean : list R)
  : result bool :=
  (above <- broadcast2 Rltb (map fst bounds) mean ;;
   below <- broadcast2 Rltb mean (map snd bounds) ;;
   Ok (np_prod above && np_prod below))%py.

(** Lines 111-119. *)
Definition mu_out (bounds : list (R * R)) (probit_samples : option (list (list R)))
  (mean : option (list R)) : result (list R) :=
  match mean with
  | Some mean =>
      (inside <- mean_in_bounds bounds mean ;;
       if negb inside
       then Raise (ValueError mean_outside_msg)
       else Ok (transform_to_probit mean bounds))%py
  | None =>
      match probit_samples with
      | Some ps => Ok (np_mean_axis0 ps)
      | None => Ok (repeat 0 (length bounds))
      end
  end.

(** Lines 129-132, the covariance derived from the samples. *)
Definition L_from_samples (probit_samples : list (list R)) : matrix :=
  let L_out := mat_map (fun x => x / 9) (np_cov probit_samples) in
  let diag := map sqrt (np_diag L_out) in
  let stds := map (fun d => Rmin d 0.2) diag in
  mat_map2 Rdiv (mat_map2 Rmult L_out (np_outer stds stds))
           (np_outer diag diag).

(** Line 125, [np.identity(dim)*std**2]: [std**2] is broadcast along the
    rows of the identity. *)
Definition L_from_std (dim : nat) (std : list R) : result matrix :=
  let sq := map (fun s => s ^ 2) std in
  let fix rows (M : matrix) : result matrix :=
    match M with
    | [] => Ok []
    | r :: M => (r <- broadcast2 Rmult r sq ;;
                 M <- rows M ;;
                 Ok (r :: M))%py
    end in
  rows (np_identity dim).

(** Lines 121-134: [L_out] and [draw_flag]. *)
Definition L_out (dim : nat) (probit_samples : option (list (list R)))
  (std : option (list R)) (cov : option matrix) : result (matrix * bool) :=
  match cov, std, probit_samples with
  | Some cov, _, _ => Ok (cov, true)
  | None, Some std, _ => (L <- L_from_std dim std ;; Ok (L, true))%py
  | None, None, Some ps => Ok (L_from_samples ps, false)
  | None, None, None => Ok (mat_map (fun x => x * 0.2 ^ 2) (np_identity dim), false)
  end.

(** Line 146: the rows strictly inside the bounds. *)
Definition within_bounds (bounds : list (R * R)) (x : list R) : bool :=
  np_prod (map (fun p => Rltb (fst (fst p)) (snd p)) (combine bounds x))
  && np_prod (map (fun p => Rltb (snd p) (snd (fst p))) (combine bounds x)).

(** The number of simulated draws of line 142. *)
Definition n_mc_draws : nat := 100 * 100.

(** Lines 141-148, the Monte-Carlo estimate. *)
Definition redraw (bounds : list (R * R)) (L : matrix) : result matrix :=
  (ss <- mvn_rvs (map (fun b => (fst b + snd b) / 2) bounds) L n_mc_draws ;;
   let ss := filter (within_bounds bounds) ss in
   let probit_samples := transform_rows ss bounds in
   Ok (np_cov probit_samples))%py.

(** [get_priors(bounds, samples, mean, std, cov, df, k)]; [bounds] is the
    array after [np.atleast_2d], [mean] after [np.atleast_1d], and a scalar
    [std] is an array of length one. *)
Definition get_priors (bounds : list (R * R)) (samples : option samples_t)
  (mean std : option (list R)) (cov : option matrix) (df k : option R)
  : result prior_pars :=
  let dim := length bounds in
  let probit_samples :=
    option_map (fun s => transform_rows (as_rows s) bounds) samples in
  let df_out := df_out dim df in
  (mu_out <- mu_out bounds probit_samples mean ;;
   '(L, draw_flag) <- L_out dim probit_samples std cov ;;
   let k_out := match k with Some k => k | None => 1 / 100 end in
   L <- (if draw_flag : bool then redraw bounds L else Ok L) ;;
   Ok (k_out, L, df_out, mu_out))%py.

End Priors.

End Utils.

(* ================================================================== *)
(** ** figaro/load.py: redshift from luminosity distance                *)
(* ================================================================== *)

Module Load.

Section Redshift.

Local Open Scope R_scope.

Context {cosmology : Type}.

(** [omega.LuminosityDistance_double(z)] of [figaro.cosmology]. *)
Variable LuminosityDistance_double : cosmology -> R -> R.

(** [scipy.optimize.newton(func, x0)].  No derivative is passed, so SciPy
    runs its secant iteration from [x0]; it raises [RuntimeError] when the
    iteration does not converge. *)
Variable newton : (R -> R) -> R -> result R.

Definition objective (z : R) (omega : cosmology) (dl : R) : R :=
  dl - LuminosityDistance_double omega z.

Definition _find_redshift (omega : cosmology) (dl : R) : result R :=
  newton (fun z => objective z omega dl) 1.

End Redshift.

End Load.

(* ================================================================== *)
(** ** figaro/pipelines/entropy.py: the stages of [main] around the loop *)
(* ================================================================== *)

Module EntropyMain.

Local Open Scope Z_scope.

(** [int(x)] of a number: truncation towards zero. *)
Definition py_int (x : Q) : Z := Z.quot (Qnum x) (Z.pos (Qden x)).

(** *** Lines 76-86: the samples against the bounds *)

(** The sample array as it comes from the loader: one-dimensional, or
    two-dimensional with its number of columns ([np.shape(samples)[-1]]),
    which an array has even when it has no rows. *)
Inductive ndarray : Type :=
| Arr1 (xs : list Q)
| Arr2 (ncols : nat) (rows : list (list Q)).

Definition dim_of (samples : ndarray) : nat :=
  match samples with
  | Arr1 xs => length xs
  | Arr2 ncols _ => ncols
  end.

Definition outside_msg : string :=
  "One or more samples are outside the given bounds.".
Definition axis_msg : string :=
  "axis 1 is out of bounds for array of dimension 1".

(** Two trailing dimensions that NumPy can broadcast against each
    other. *)
Definition broadcastable (a b : nat) : bool :=
  ((a =? b) || (a =? 1) || (b =? 1))%nat.

(** [np.prod(bounds[:,0] < x) & np.prod(x < bounds[:,1])] for one row [x]
    of a two-dimensional array, bounds and row broadcast against each
    other. *)
Definition row_inside (bounds : list (Q * Q)) (x : list Q) : bool :=
  match Utils.broadcast2 Utils.Qltb (map fst bounds) x,
        Utils.broadcast2 Utils.Qltb x (map snd bounds) with
  | Ok above, Ok below => Utils.np_prod above && Utils.np_prod below
  | _, _ => false
  end.

(** Line 82, [--exclude_points]. *)
Definition exclude_outside (bounds : list (Q * Q)) (samples : ndarray)
  : result ndarray :=
  if broadcastable (length bounds) (dim_of samples) then
    match samples with
    | Arr1 _ => Raise (ValueError axis_msg)
    | Arr2 ncols rows => Ok (Arr2 ncols (filter (row_inside bounds) rows))
    end
  else Raise (ValueError Utils.broadcast_msg).

(** The list built at line 85, from column [i] on: [samples[:,i]] against
    [bounds[i]]. *)
Fixpoint columns_inside (bounds : list (Q * Q)) (rows : list (list Q))
  (i n : nat) : result (list bool) :=
  match n with
  | O => Ok []
  | S n =>
      let col := map (fun x => nth i x 0%Q) rows in
      (b <- Py.index bounds (Z.of_nat i) ;;
       let ok := forallb (fun v => Utils.Qltb (fst b) v) col
                 && forallb (fun v => Utils.Qltb v (snd b)) col in
       oks <- columns_inside bounds rows (S i) n ;;
       Ok (ok :: oks))%py
  end.

(** Lines 85-86. *)
Definition check_inside (bounds : list (Q * Q)) (samples : ndarray)
  : result ndarray :=
  match samples with
  | Arr1 [] => Ok samples
  | Arr1 (_ :: _) => Raise IndexError
  | Arr2 ncols rows =>
      (oks <- columns_inside bounds rows 0 ncols ;;
       if Utils.np_prod oks then Ok samples
       else Raise (ValueError outside_msg))%py
  end.

(** Lines 80-86. *)
Definition bounds_stage (exclude_points : bool) (bounds : list (Q * Q))
  (samples : ndarray) : result ndarray :=
  if exclude_points then exclude_outside bounds samples
  else check_inside bounds samples.

(** *** Lines 90-98: the window of the entropy derivative *)

Definition min_window : Z := 200.

(** The warnings of these lines: the one of line 97, and NumPy's own for
    a division of a 64-bit integer by zero. *)
Inductive warning : Type :=
| SmallWindow
| DivideByZero.

(** The window in units of entropy evaluations, and the warnings issued;
    [n_samples] is [len(samples)].  A window given by the option is a
    Python int, and so is [len(samples)//5]; [np.max] returns a 64-bit
    integer, whose floor division by 0 is 0 with a warning, where the
    division of a Python int raises.  The entropy interval is taken to
    fit in 64 bits. *)
Definition entropy_window (window : option Z) (n_samples entropy_interval : Z)
  : result (Z * list warning) :=
  let '(window, is_int64) :=
    match window with
    | Some w => (w, false)
    | None => if n_samples >? min_window
              then (Z.max (n_samples / 5) min_window, true)
              else (n_samples / 5, false)
    end in
  let warned := if window <? min_window then [SmallWindow] else [] in
  if entropy_interval =? 0 then
    if is_int64 then Ok (0, warned ++ [DivideByZero])
    else Raise ZeroDivisionError
  else Ok (window / entropy_interval, warned).

(** *** Lines 120 and 149-151: the entropy table and the interval read
    back from it *)

Definition entropy_table (n_eval_S : list Q) (entropy : list (list Q))
  : list (list Q) :=
  n_eval_S :: entropy.

Definition read_entropy_interval (table : list (list Q)) : result Z :=
  (n_samps_S <- Py.index table 0 ;;
   a1 <- Py.index n_samps_S 1 ;;
   a0 <- Py.index n_samps_S 0 ;;
   Ok (py_int (a1 - a0)))%py.

End EntropyMain.

(* ================================================================== *)
(** ** figaro/plot.py: the abscissae and the normalisation of the plots *)
(* ================================================================== *)

Module Plot.

Local Open Scope Q_scope.


(** The two warnings of [plot_median_cr], with the value used instead. *)
Inductive warning : Type :=
| InvalidLowerBound (used : Q)
| InvalidUpperBound (used : Q).



(** Lines 161-163 of [plot_median_cr] and line 440 of [plot_multidim]:
    a curve divided by the sum of the median times the size of a cell
    ([dx], or [np.prod(dgrid)]). *)
Definition np_sum (l : list Q) : Q := fold_right Qplus 0 l.

Definition np_prod (l : list Q) : Q := fold_right Qmult 1 l.

Definition normalise (median : list Q) (cell : Q) (p : list Q) : list Q :=
  map (fun v => v / (np_sum median * cell)) p.

End Plot.

(* ================================================================== *)
(** ** figaro/load.py: names of the event files                         *)
(* ================================================================== *)

Module EventNames.

Local Open Scope string_scope.

(** [s.split(sep)] for a separator of one character. *)
Fixpoint split (sep : Ascii.ascii) (s : string) : list string :=
  match s with
  | EmptyString => [EmptyString]
  | String c rest =>
      if Ascii.eqb c sep then EmptyString :: split sep rest
      else match split sep rest with
           | [] => [String c EmptyString]
           | piece :: pieces => String c piece :: pieces
           end
  end.

(** [str(event).split('/')[-1]]. *)
Definition basename (event : string) : string :=
  last (split "/"%char event) EmptyString.

Definition too_few_msg : string :=
  "not enough values to unpack (expected 2, got 1)".
Definition too_many_msg : string :=
  "too many values to unpack (expected 2)".

(** [name, ext = str(event).split('/')[-1].split('.')] (lines 50 and 95). *)
Definition name_and_ext (event : string) : result (string * string) :=
  match split "."%char (basename event) with
  | [name; ext] => Ok (name, ext)
  | [] | [_] => Raise (ValueError too_few_msg)
  | _ => Raise (ValueError too_many_msg)
  end.

(** The files that [load_data] reads (line 84): those whose name starts
    neither with a dot nor with [empty_files]. *)
Definition is_event_file (f : string) : bool :=
  negb (prefix "." f || prefix "empty_files" f).

End EventNames.

(* ================================================================== *)
(** ** figaro/load.py: unpacking the posterior samples of an event      *)
(* ================================================================== *)

Module GWPosterior.

(** The exceptions of this part: the [KeyError] of a name that an HDF5
    file does not have and the [TypeError] of a loop over an array without
    dimensions, besides the ones above. *)
Inductive exc : Type :=
| KeyError (key : string)
| TypeError (msg : string)
| Std (e : Py.exn).

Inductive outcome (A : Type) : Type :=
| Return (a : A)
| Throw (e : exc).
Arguments Return {A} a.
Arguments Throw {A} e.

Definition bind {A B} (r : outcome A) (k : A -> outcome B) : outcome B :=
  match r with
  | Return a => k a
  | Throw e => Throw e
  end.

Declare Scope gw_scope.
Delimit Scope gw_scope with gw.
Notation "x <- r ;; k" := (bind r (fun x => k))
  (at level 61, r at next level, right associativity) : gw_scope.

(** A table with named columns, as [np.genfromtxt(..., names = True)] and
    the compound datasets of the HDF5 files give them: every record has a
    value for every field. *)
Record table : Type := mkTable {
  fields : list string;
  records : list (string -> R)
}.

Definition has_field (data : table) (name : string) : bool :=
  existsb (String.eqb name) (fields data).

Definition column (data : table) (name : string) : list R :=
  map (fun r => r name) (records data).

(** [data[name]] on a NumPy structured array. *)
Definition np_field (data : table) (name : string) : outcome (list R) :=
  if has_field data name then Return (column data name)
  else Throw (Std (ValueError ("no field of name " ++ name))).

(** [data[name]] on an HDF5 dataset. *)
Definition h5_field (data : table) (name : string) : outcome (list R) :=
  if has_field data name then Return (column data name)
  else Throw (Std (ValueError
                     ("Field " ++ name ++ " does not appear in this type."))).

(** What the code reads of an HDF5 file:
    [f['PublicationSamples']['posterior_samples']] and
    [f['Overall_posterior']], each of which may be missing. *)
Record h5file : Type := mkH5 {
  posterior_samples : option table;
  Overall_posterior : option table
}.

(** ['name' in par] for a list of parameter names. *)
Definition requested (par : list string) (name : string) : bool :=
  existsb (String.eqb name) par.

Section Unpack.

Local Open Scope R_scope.

Context {cosmology rng_t : Type}.

Variable LuminosityDistance_double : cosmology -> R -> R.
Variable newton : (R -> R) -> R -> result R.
Variable CosmologicalParameters : R -> R -> R -> R -> R -> cosmology.

(** [rdstate.choice(np.arange(n), size = s, replace = False)]: positions
    of [np.arange(n)], so numbers below [n]. *)
Variable choice :
  rng_t -> forall n : nat, nat -> list {i : nat | (i < n)%nat} * rng_t.

(** [h5py.File(event)] and [np.genfromtxt(event, names = True)]. *)
Variable h5py_File : string -> h5file.
Variable genfromtxt_names : string -> table.

Definition find_redshift (omega : cosmology) (dl : R) : outcome R :=
  match Load._find_redshift LuminosityDistance_double newton omega dl with
  | Ok z => Return z
  | Raise e => Throw (Std e)
  end.

(** [np.array([_find_redshift(omega, l) for l in LD])]. *)
Fixpoint find_redshifts (omega : cosmology) (LD : list R)
  : outcome (list R) :=
  match LD with
  | [] => Return []
  | l :: LD => (z <- find_redshift omega l ;;
               zs <- find_redshifts omega LD ;;
               Return (z :: zs))%gw
  end.

(** Element-wise operations on columns of the same table. *)
Definition zip_with (op : R -> R -> R) (a b : list R) : list R :=
  map (fun p => op (fst p) (snd p)) (combine a b).

Definition source_frame (m_detect z : R) : R := m_detect / (1 + z).

(** [(m1*m2)**(3./5.)/(m1+m2)**(1./5.)]; [Rpower] is the power of a
    positive base. *)
Definition chirp_mass (m1 m2 : R) : R :=
  Rpower (m1 * m2) (3 / 5) / Rpower (m1 + m2) (1 / 5).

(** [(s1*cos1 + q*s2*cos2)/(1+q)] with [q = m2/m1]. *)
Definition chi_eff (m1 m2 s1 cos1 s2 cos2 : R) : R :=
  let q := m2 / m1 in (s1 * cos1 + q * s2 * cos2) / (1 + q).

(** The statements [if 'name' in par: samples.append(data[...])] in a
    row.  The list [samples] is the one object that these statements
    mutate: when one of them raises, what the earlier ones appended stays
    in it. *)
Fixpoint append_requested (par : list string)
  (steps : list (string * outcome (list R))) (samples : list (list R))
  : option exc * list (list R) :=
  match steps with
  | [] => (None, samples)
  | (name, col) :: steps =>
      if requested par name then
        match col with
        | Return c => append_requested par steps (samples ++ [c])
        | Throw e => (Some e, samples)
        end
      else append_requested par steps samples
  end.

(** Lines 138-154, the body of the [try] up to the last [append]. *)
Definition publication_columns (f : h5file) (par : list string)
  (samples : list (list R)) : option exc * list (list R) :=
  match posterior_samples f with
  | None => (Some (KeyError "PublicationSamples"), samples)
  | Some data =>
      append_requested par
        [("m1", h5_field data "mass_1_source");
         ("m2", h5_field data "mass_2_source");
         ("mc", h5_field data "chirp_mass");
         ("z", h5_field data "redshift");
         ("chi_eff", h5_field data "chi_eff");
         ("ra", h5_field data "ra");
         ("dec", h5_field data "dec");
         ("luminosity_distance", h5_field data "luminosity_distance")]%string
        samples
  end.

(** Lines 168-198, the body of the [except] up to the last [append]; here
    an exception leaves the function. *)
Definition overall_columns (f : h5file) (par : list string)
  (omega : cosmology) (samples : list (list R)) : outcome (list (list R)) :=
  match Overall_posterior f with
  | None => Throw (KeyError "Overall_posterior")
  | Some data =>
      (ra <- h5_field data "right_ascension" ;;
       dec <- h5_field data "declination" ;;
       LD <- h5_field data "luminosity_distance_Mpc" ;;
       z <- find_redshifts omega LD ;;
       m1_detect <- h5_field data "m1_detector_frame_Msun" ;;
       m2_detect <- h5_field data "m2_detector_frame_Msun" ;;
       let m1 := zip_with source_frame m1_detect z in
       let m2 := zip_with source_frame m2_detect z in
       let chi :=
         (s1 <- h5_field data "spin1" ;;
          s2 <- h5_field data "spin2" ;;
          cos1 <- h5_field data "costilt1" ;;
          cos2 <- h5_field data "costilt2" ;;
          Return (map (fun r => chi_eff (fst (fst (fst (fst (fst r)))))
                                        (snd (fst (fst (fst (fst r)))))
                                        (snd (fst (fst (fst r))))
                                        (snd (fst (fst r)))
                                        (snd (fst r)) (snd r))
                      (combine (combine (combine (combine (combine
                         m1 m2) s1) cos1) s2) cos2)))%gw in
       match append_requested par
               [("z", Return z);
                ("m1", Return m1);
                ("m2", Return m2);
                ("mc", Return (zip_with chirp_mass m1 m2));
                ("chi_eff", chi);
                ("ra", Return ra);
                ("dec", Return dec);
                ("luminosity_distance", Return LD)]%string
               samples with
       | (None, samples) => Return samples
       | (Some e, _) => Throw e
       end)%gw
  end.

(** [for l in LD] on a column of [np.genfromtxt]: the array of a file with
    one record is squeezed to no dimension, and cannot be iterated. *)
Definition iterable (data : table) : outcome unit :=
  if (length (records data) =? 1)%nat
  then Throw (TypeError "iteration over a 0-d array")
  else Return tt.

(** Lines 212-238, for a file that is not HDF5. *)
Definition table_columns (data : table) (par : list string)
  (omega : cosmology) : outcome (list (list R)) :=
  (ra <- np_field data "ra" ;;
   dec <- np_field data "dec" ;;
   LD <- np_field data "luminosity_distance" ;;
   _ <- iterable data ;;
   z <- find_redshifts omega LD ;;
   m1_detect <- np_field data "mass_1" ;;
   m2_detect <- np_field data "mass_2" ;;
   let m1 := zip_with source_frame m1_detect z in
   let m2 := zip_with source_frame m2_detect z in
   match append_requested par
           [("z", Return z);
            ("m1", Return m1);
            ("m2", Return m2);
            ("mc", Return (zip_with chirp_mass m1 m2));
            ("ra", Return ra);
            ("dec", Return dec);
            ("luminosity_distance", Return LD)]%string
           [] with
   | (None, samples) => Return samples
   | (Some e, _) => Throw e
   end)%gw.

Definition ragged_msg : string :=
  "setting an array element with a sequence. The requested array has an inhomogeneous shape".

(** [np.array(samples).T] for columns of one length. *)
Definition transpose (cols : list (list R)) : list (list R) :=
  match cols with
  | [] => []
  | c :: _ => map (fun i => map (fun col => nth i col 0) cols)
                  (seq 0 (length c))
  end.

(** The lines [if len(par) == 1: ... else: ...]: one flat array, or one
    row per sample.  Columns of different lengths do not make an array
    ([ValueError] since NumPy 1.24). *)
Definition shape_samples (par : list string) (cols : list (list R))
  : outcome Utils.samples_t :=
  match cols with
  | [] => Return (Utils.Samples1D [])
  | c :: rest =>
      if forallb (fun col => (length col =? length c)%nat) rest then
        if (length par =? 1)%nat then Return (Utils.Samples1D (concat cols))
        else Return (Utils.Samples2D (transpose cols))
      else Throw (Std (ValueError ragged_msg))
  end.

Definition len (samples : Utils.samples_t) : nat :=
  match samples with
  | Utils.Samples1D xs => length xs
  | Utils.Samples2D rows => length rows
  end.

(** [a[idx]] for an array of positions of [a]; [d] fills no place, the
    positions being below [length a]. *)
Definition take {A} (d : A) (a : list A)
  (idx : list {i : nat | (i < length a)%nat}) : list A :=
  map (fun i => nth (proj1_sig i) a d) idx.

(** The lines [if n_samples > -1: ... else: return samples]. *)
Definition downsample (n_samples : Z) (g : rng_t) (samples : Utils.samples_t)
  : Utils.samples_t * rng_t :=
  if (n_samples >? -1)%Z then
    match samples with
    | Utils.Samples1D xs =>
        let s := Z.to_nat (Z.min n_samples (Z.of_nat (length xs))) in
        let '(idx, g) := choice g (length xs) s in
        (Utils.Samples1D (take 0 xs idx), g)
    | Utils.Samples2D rows =>
        let s := Z.to_nat (Z.min n_samples (Z.of_nat (length rows))) in
        let '(idx, g) := choice g (length rows) s in
        (Utils.Samples2D (take [] rows idx), g)
    end
  else (samples, g).

(** From [if len(par) == 1:] to the [return]. *)
Definition finish (par : list string) (n_samples : Z) (g : rng_t)
  (cols : list (list R)) : outcome (Utils.samples_t * rng_t) :=
  (samples <- shape_samples par cols ;;
   Return (downsample n_samples g samples))%gw.

(** [_unpack_gw_posterior]; [cosmo] is the triple [(h, om, ol)].  In an
    HDF5 file the [try] holds the reading of [PublicationSamples] up to
    the [return], and whatever it raises leads to the [except], with the
    list [samples] as the [try] left it. *)
Definition _unpack_gw_posterior (event : string) (par : list string)
  (cosmo : R * R * R) (g : rng_t) (ext : string) (n_samples : Z)
  : outcome (Utils.samples_t * rng_t) :=
  let '(h, om, ol) := cosmo in
  let omega := CosmologicalParameters h om ol (-1) 0 in
  if (String.eqb ext "h5" || String.eqb ext "hdf5")%string then
    let f := h5py_File event in
    let except samples :=
      (samples <- overall_columns f par omega samples ;;
       finish par n_samples g samples)%gw in
    match publication_columns f par [] with
    | (None, samples) =>
        match finish par n_samples g samples with
        | Return out => Return out
        | Throw _ => except samples
        end
    | (Some _, samples) => except samples
    end
  else
    (samples <- table_columns (genfromtxt_names event) par omega ;;
     finish par n_samples g samples)%gw.

End Unpack.

End GWPosterior.

(* ================================================================== *)
(** ** figaro/utils.py: samples from the median of a set of draws       *)
(* ================================================================== *)

Module Median.

Section RvsMedian.

Local Open Scope nat_scope.

Context {mixture_t rng_t : Type}.

(** [m.dim] and [m.rvs(n)] of a mixture; [rvs] draws from NumPy's global
    generator. *)
Variable dim : mixture_t -> nat.
Variable rvs : mixture_t -> nat -> rng_t -> list (list Q) * rng_t.

(** [np.random.choice(np.arange(n), size = s)]: [s] positions of
    [np.arange(n)], a position possibly more than once. *)
Variable np_random_choice :
  rng_t -> forall n : nat, nat -> list {i : nat | i < n} * rng_t.

(** The row of [np.empty(shape = (1, d))]: whatever the memory holds. *)
Variable np_empty : nat -> list Q.

Definition empty_population_msg : string :=
  "'a' cannot be empty unless no samples are taken".

Definition concatenate_msg : string :=
  "all the input array dimensions except for the concatenation axis must match exactly".

(** [Counter(idx)]: the number of occurrences of each value, the values
    in the order of their first occurrence. *)
Fixpoint count_up (i : nat) (ctr : list (nat * nat)) : list (nat * nat) :=
  match ctr with
  | [] => [(i, 1)]
  | (j, n) :: ctr =>
      if i =? j then (j, S n) :: ctr else (j, n) :: count_up i ctr
  end.

Definition Counter (idx : list nat) : list (nat * nat) :=
  fold_left (fun ctr i => count_up i ctr) idx [].

(** [np.concatenate((samples, batch))] for an array [samples] of rows of
    width [d]. *)
Definition np_concatenate (d : nat) (samples batch : list (list Q))
  : result (list (list Q)) :=
  if forallb (fun r => length r =? d) batch then Ok (samples ++ batch)
  else Raise (ValueError concatenate_msg).

(** The loop over [zip(ctr.keys(), ctr.values())]. *)
Fixpoint draw_batches (draws : list mixture_t) (ctr : list (nat * nat))
  (d : nat) (samples : list (list Q)) (g : rng_t)
  : result (list (list Q) * rng_t) :=
  match ctr with
  | [] => Ok (samples, g)
  | (i, n) :: ctr =>
      match nth_error draws i with
      | None => Raise IndexError
      | Some m =>
          let '(batch, g) := rvs m n g in
          (samples <- np_concatenate d samples batch ;;
           draw_batches draws ctr d samples g)%py
      end
  end.

Definition rvs_median (draws : list mixture_t) (n_draws : nat) (g : rng_t)
  : result (list (list Q) * rng_t) :=
  match draws with
  | [] => if n_draws =? 0 then Raise IndexError
          else Raise (ValueError empty_population_msg)
  | m0 :: _ =>
      let '(idx, g) := np_random_choice g (length draws) n_draws in
      let ctr := Counter (map (fun i => proj1_sig i) idx) in
      let d := dim m0 in
      ('(samples, g) <- draw_batches draws ctr d [np_empty d] g ;;
       Ok (tl samples, g))%py
  end.

End RvsMedian.

End Median.

(* ================================================================== *)
(** ** Stand-ins for the collaborators, for running the embedding       *)
(* ================================================================== *)

Module Fixtures.

(** A mixture that only records the points in the order it is fed, with
    the number of points as its entropy, and a random source whose
    shuffle reverses the array. *)
Definition recorder_initialise (m : list nat) : list nat := [].
Definition recorder_add (m : list nat) (s : nat) : list nat := m ++ [s].
Definition recorder_build (m : list nat) : list nat := m.
Definition recorder_entropy (m : list nat) : Q :=
  inject_Z (Z.of_nat (length m)).
Definition reversing_shuffle (g : nat) (l : list nat) : list nat * nat :=
  (rev l, S g).

Definition three_samples : Entropy.state (sample := nat) :=
  Entropy.mkState [1; 2; 3]%nat ([] : list nat) 0%nat
                  ([] : list (list nat)) [] [].

Definition recorder_runs (n_draws : nat) (interval : Z) :=
  Entropy.runs recorder_initialise recorder_add recorder_build
               recorder_entropy reversing_shuffle n_draws interval.

(** A random source for [np.random.uniform]: draw [i] of a call in state
    [g] is [low + (high-low)*((i+g) mod 4)/4], and a call advances the
    state by one. *)
Definition cycling_uniform (g : nat) (low high : Q) (n : nat)
  : list Q * nat :=
  (map (fun i => low + (high - low)
                       * (inject_Z (Z.of_nat ((i + g) mod 4)) / 4))%Q
       (seq 0 n),
   S g).

(** A density on [[0, 1]], up to normalisation. *)
Definition parabola (x : Q) : Q := (1 + x * x)%Q.

(** A coordinate change with the contract of [transform_to_probit]: the
    logit of the position in the box is a monotonic bijection from the open
    box to the whole space and sends the centre to the origin. *)
Definition logit_transform (x : list R) (bounds : list (R * R)) : list R :=
  map (fun p => ln ((fst p - fst (snd p)) / (snd (snd p) - fst p)))%R
      (combine x bounds).

(** The unbiased empirical covariance of the rows of [X]. *)
Definition empirical_cov (X : list (list R)) : Utils.matrix :=
  let dim := match X with [] => O | r :: _ => length r end in
  let col j := map (fun x => nth j x 0%R) X in
  let avg l := (fold_right Rplus 0 l / INR (length l))%R in
  map (fun i =>
         map (fun j =>
                (fold_right Rplus 0
                   (map (fun x => (nth i x 0 - avg (col i))
                                  * (nth j x 0 - avg (col j))) X)
                 / (INR (length X) - 1))%R)
             (seq 0 dim))
      (seq 0 dim).

(** A sampler all of whose draws are the mean moved by [shift] on every
    axis. *)
Definition shifted_rvs (shift : R) (mean : list R) (cov : Utils.matrix)
  (n : nat) : result (list (list R)) :=
  Ok (repeat (map (fun m => m + shift)%R mean) n).

End Fixtures.

(* ================================================================== *)
(** ** Vocabulary of the properties                                     *)
(* ================================================================== *)

Module Spec.

Import Utils.

Section GridSpec.

Local Open Scope Q_scope.

(** The [k]-th interior point of an axis with [n] points. *)
Definition axis_point (lo hi : Q) (n k : nat) : Q :=
  lo + inject_Z (Z.of_nat k) * ((hi - lo) / inject_Z (Z.of_nat (S n))).

(** A point strictly inside the box, coordinate by coordinate. *)
Definition strictly_inside (bounds : list (Q * Q)) (p : list Q) : Prop :=
  Forall2 (fun x b => fst b < x /\ x < snd b) p bounds.

(** The spacing that belongs to an axis and its number of points. *)
Definition axis_spacing (s : Q) (bn : (Q * Q) * nat) : Prop :=
  s == (snd (fst bn) - fst (fst bn)) / (inject_Z (Z.of_nat (snd bn)) + 1).

End GridSpec.

Section SamplerSpec.

Local Open Scope Q_scope.

Context {rng_t : Type}.
Variable uniform : rng_t -> Q -> Q -> nat -> list Q * rng_t.
Variable n_draws : nat.
Variable f : Q -> Q.
Variable bounds : Q * Q.
Variable selfunc : option (Q -> Q).

Local Abbreviation top := (envelope f bounds selfunc).
Local Abbreviation w := (weighted f selfunc).

(** One pass through the body of the [while] loop. *)
Definition sampler_step (st : list Q * rng_t) : list Q * rng_t :=
  let '(samples, g) := st in
  let '(pts, g) := uniform g (fst bounds) (snd bounds) n_draws in
  let probs := map w pts in
  let '(h, g) := uniform g 0 top n_draws in
  (samples ++ accepted pts probs h, g).

(** The accumulated samples and the random source after [k] passes. *)
Definition after_iterations (k : nat) (g : rng_t) : list Q * rng_t :=
  Nat.iter k sampler_step ([], g).

(** The selection at a point; without a selection function it is 1
    everywhere. *)
Definition selection (x : Q) : Q :=
  match selfunc with
  | Some sel => sel x
  | None => 1
  end.

(** What one pass draws: [n_draws] candidates within the bounds, then
    [n_draws] heights in [[0, top]], candidate [i] having height [i]. *)
Definition pass_draws (g : rng_t) : list Q * list Q * rng_t :=
  let '(pts, g) := uniform g (fst bounds) (snd bounds) n_draws in
  let '(h, g) := uniform g 0 top n_draws in
  (pts, h, g).

(** The candidates and the heights of the first [k] passes. *)
Fixpoint drawn (k : nat) (g : rng_t) : list (list Q * list Q) :=
  match k with
  | O => []
  | S k => let '(pts, h, g) := pass_draws g in (pts, h) :: drawn k g
  end.

(** The candidates of a pass whose own height is below the density times
    the selection, in the order of the pass. *)
Fixpoint below_density (pts h : list Q) : list Q :=
  match pts, h with
  | x :: pts, hx :: h =>
      if Qlt_le_dec hx (f x * selection x) then x :: below_density pts h
      else below_density pts h
  | _, _ => []
  end.

(** The candidates accepted in the first [k] passes, pass after pass. *)
Definition collected (k : nat) (g : rng_t) : list Q :=
  flat_map (fun d => below_density (fst d) (snd d)) (drawn k g).

(** The bound of the heights: the largest value of the density times the
    selection on the 1000 points between the bounds. *)
Definition highest_on_grid (t : Q) : Prop :=
  In t (map (fun x => f x * selection x)
            (linspace (fst bounds) (snd bounds) 1000))
  /\ Forall (fun x => f x * selection x <= t)
            (linspace (fst bounds) (snd bounds) 1000).

(** What it means for a returned sample to have been accepted in the
    first [k] passes: it lies within the bounds, it is candidate [i] of
    one of these passes, and height [i] of the same pass, drawn in
    [[0, top]], is below the density times the selection at the sample. *)
Definition accepted_sample (k : nat) (g : rng_t) (x : Q) : Prop :=
  fst bounds <= x /\ x <= snd bounds
  /\ exists j pts hs i hx,
       nth_error (drawn k g) j = Some (pts, hs)
       /\ nth_error pts i = Some x /\ nth_error hs i = Some hx
       /\ 0 <= hx /\ hx <= top /\ hx < f x * selection x.

End SamplerSpec.

Section PriorsSpec.

Local Open Scope R_scope.

(** The explicit mean lies strictly inside the box, component by
    component. *)
Definition strictly_within (bounds : list (R * R)) (mean : list R) : Prop :=
  Forall2 (fun b x => fst b < x /\ x < snd b) bounds mean.

(** [M[i][j]]. *)
Definition entry (M : matrix) (i j : nat) : R := nth j (nth i M []) 0.

(** A [D] by [D] array. *)
Definition square (D : nat) (M : matrix) : Prop :=
  length M = D /\ Forall (fun r => length r = D) M.

(** The standard deviation [sqrt(C[i][i]/9)] before clamping, and
    after. *)
Definition scaled_std (C : matrix) (i : nat) : R := sqrt (entry C i i / 9).
Definition clamped_std (C : matrix) (i : nat) : R :=
  Rmin (scaled_std C i) 0.2.

End PriorsSpec.

End Spec.

Import Spec.

(** Vocabulary for strings. *)

Module SpecNames.

(** The number of occurrences of a character in a string. *)
Fixpoint occurs (c : Ascii.ascii) (s : string) : nat :=
  match s with
  | EmptyString => O
  | String a rest => if Ascii.eqb a c then S (occurs c rest) else occurs c rest
  end.

End SpecNames.

Import SpecNames.

(** Stand-ins for the collaborators of the loader. *)

Module GWFixtures.

Import GWPosterior.

Local Open Scope R_scope.

(** A cosmology whose luminosity distance is [1000 z], and a root finder
    that takes one secant step, which is exact for it. *)
Definition linear_distance (omega : unit) (z : R) : R := 1000 * z.
Definition flat_cosmology (h om ol w0 w1 : R) : unit := tt.
Definition one_secant_step (f : R -> R) (x0 : R) : result R :=
  Ok (x0 - f x0 / (f (x0 + 1) - f x0)).
Definition diverging_newton (f : R -> R) (x0 : R) : result R :=
  Raise (RuntimeError "Failed to converge").

(** The positions below [n], the last one first. *)
Fixpoint below (n : nat) : list {i : nat | (i < n)%nat} :=
  match n with
  | O => []
  | S m =>
      exist (fun i => (i < S m)%nat) m (Nat.lt_succ_diag_r m)
      :: map (fun i : {i : nat | (i < m)%nat} =>
                exist (fun i => (i < S m)%nat) (proj1_sig i)
                      (Nat.lt_lt_succ_r _ _ (proj2_sig i)))
             (below m)
  end.

(** A generator whose choice of [s] positions is the last [s] ones. *)
Definition last_positions (g : nat) (n s : nat)
  : list {i : nat | (i < n)%nat} * nat :=
  (firstn s (below n), S g).

(** A record from its fields. *)
Fixpoint record_of (kv : list (string * R)) (name : string) : R :=
  match kv with
  | [] => 0
  | (k, v) :: kv => if String.eqb k name then v else record_of kv name
  end.

Definition simulation_fields : list string :=
  ["mass_1"; "mass_2"; "luminosity_distance"; "ra"; "dec"]%string.

Definition simulation : table :=
  mkTable simulation_fields
    [record_of [("mass_1", 40); ("mass_2", 30);
                ("luminosity_distance", 500); ("ra", 1); ("dec", 2)]%string;
     record_of [("mass_1", 42); ("mass_2", 28);
                ("luminosity_distance", 600); ("ra", 1); ("dec", 2)]%string;
     record_of [("mass_1", 38); ("mass_2", 31);
                ("luminosity_distance", 550); ("ra", 1); ("dec", 2)]%string].

(** An HDF5 file whose [PublicationSamples] have the masses but no
    redshift, beside a full [Overall_posterior]. *)
Definition publication : table :=
  mkTable ["mass_1_source"; "mass_2_source"]%string
    [record_of [("mass_1_source", 35); ("mass_2_source", 29)]%string;
     record_of [("mass_1_source", 36); ("mass_2_source", 27)]%string].

Definition overall : table :=
  mkTable ["right_ascension"; "declination"; "luminosity_distance_Mpc";
           "m1_detector_frame_Msun"; "m2_detector_frame_Msun"]%string
    [record_of [("right_ascension", 1); ("declination", 2);
                ("luminosity_distance_Mpc", 500);
                ("m1_detector_frame_Msun", 45);
                ("m2_detector_frame_Msun", 36)]%string].

Definition gwtc_file : h5file := mkH5 (Some publication) (Some overall).

End GWFixtures.

(** Stand-ins for the collaborators of [rvs_median]. *)

Module MedianFixtures.

(** A generator whose choice goes round the positions. *)
Definition round_positions (g n s : nat)
  : list {i : nat | (i < n)%nat} * nat :=
  (match n with
   | O => []
   | S m => map (fun k => exist (fun i => (i < S m)%nat) (k mod S m)%nat
                            (Nat.mod_upper_bound k (S m) (Nat.neq_succ_0 m)))
                (seq 0 s)
   end,
   S g).

(** A mixture in two dimensions, given by a number [v], all of whose
    draws are the point [(v, v)]. *)
Definition point_rvs (v : Q) (n : nat) (g : nat) : list (list Q) * nat :=
  (repeat [v; v] n, S g).

End MedianFixtures.

(** Vocabulary for [rvs_median]. *)

Module SpecMedian.

(** The values of [idx] without repetition, in the order of their first
    occurrence. *)
Fixpoint first_occurrences (idx : list nat) : list nat :=
  match idx with
  | [] => []
  | i :: idx => i :: remove Nat.eq_dec i (first_occurrences idx)
  end.

(** Whether [k] is no key of the counter [ctr]. *)
Definition absent (ctr : list (nat * nat)) (k : nat) : bool :=
  negb (existsb (Nat.eqb k) (map fst ctr)).

Section Groups.

Context {mixture_t rng_t : Type}.
Variable rvs : mixture_t -> nat -> rng_t -> list (list Q) * rng_t.

(** One call of [rvs] for each position of [keys], in order, on the
    mixture at that position and for as many samples as the position
    occurs in [idx]; each call starts from the generator that the call
    before left. *)
Fixpoint group_samples (draws : list mixture_t) (idx keys : list nat)
  (g : rng_t) : list (list Q) * rng_t :=
  match keys with
  | [] => ([], g)
  | i :: keys =>
      match nth_error draws i with
      | Some m =>
          let '(batch, g) := rvs m (count_occ Nat.eq_dec idx i) g in
          let '(rest, g) := group_samples draws idx keys g in
          (batch ++ rest, g)
      | None => group_samples draws idx keys g
      end
  end.

End Groups.

End SpecMedian.

Import SpecMedian.

(** Vocabulary for the loader. *)

Module SpecGW.

(** The parameter names that [_unpack_gw_posterior] looks for. *)
Definition known_names : list string :=
  ["m1"; "m2"; "mc"; "z"; "chi_eff"; "ra"; "dec";
   "luminosity_distance"]%string.

(** The names that it looks for in a file that is not HDF5. *)
Definition table_names : list string :=
  ["z"; "m1"; "m2"; "mc"; "ra"; "dec"; "luminosity_distance"]%string.

(** The fields that it reads from such a file. *)
Definition table_fields : list string :=
  ["ra"; "dec"; "luminosity_distance"; "mass_1"; "mass_2"]%string.

(** The number of samples kept of [N] by a request for [n_samples]. *)
Definition kept (n_samples : Z) (N : nat) : nat :=
  if (n_samples >? -1)%Z then Z.to_nat (Z.min n_samples (Z.of_nat N))
  else N.

(** Columns that are at hand before the [append] statements run. *)
Definition returned (steps : list (string * list R))
  : list (string * GWPosterior.outcome (list R)) :=
  map (fun p => (fst p, GWPosterior.Return (snd p))) steps.

(** The columns at hand in a file that is not HDF5, with the names that
    ask for them, for the redshifts [zs]. *)
Definition table_steps (data : GWPosterior.table) (zs : list R)
  : list (string * list R) :=
  let m1 := GWPosterior.zip_with GWPosterior.source_frame
              (GWPosterior.column data "mass_1") zs in
  let m2 := GWPosterior.zip_with GWPosterior.source_frame
              (GWPosterior.column data "mass_2") zs in
  [("z", zs); ("m1", m1); ("m2", m2);
   ("mc", GWPosterior.zip_with GWPosterior.chirp_mass m1 m2);
   ("ra", GWPosterior.column data "ra");
   ("dec", GWPosterior.column data "dec");
   ("luminosity_distance",
    GWPosterior.column data "luminosity_distance")]%string.

End SpecGW.

Import SpecGW.

(** Further vocabulary. *)

Module SpecMore.

Import Utils Spec.

Section GridLattice.

Local Open Scope Q_scope.

(** A point each of whose coordinates is one of the interior points of its
    axis. *)
Definition on_lattice (bounds : list (Q * Q)) (n_pts : list nat)
  (p : list Q) : Prop :=
  Forall2 (fun x bn =>
             exists k, (1 <= k <= snd bn)%nat
                       /\ x = axis_point (fst (fst bn)) (snd (fst bn))
                                         (snd bn) k)
          p (combine bounds n_pts).

(** The volume of a cell of the grid. *)
Definition cell_volume (bounds : list (Q * Q)) (n_pts : list nat) : Q :=
  Plot.np_prod
    (map (fun bn => (snd (fst bn) - fst (fst bn))
                    / (inject_Z (Z.of_nat (snd bn)) + 1))
         (combine bounds n_pts)).

End GridLattice.

(** [kept] holds the elements of [l] that satisfy [P], and no other, in
    the order of [l]. *)
Inductive kept_in_order {A : Type} (P : A -> Prop)
  : list A -> list A -> Prop :=
| kept_nil : kept_in_order P [] []
| kept_keep (x : A) (l kept : list A) :
    P x -> kept_in_order P l kept -> kept_in_order P (x :: l) (x :: kept)
| kept_drop (x : A) (l kept : list A) :
    ~ P x -> kept_in_order P l kept -> kept_in_order P (x :: l) kept.

End SpecMore.

Import SpecMore.

(* ================================================================== *)
(** * Properties                                                        *)
(* ================================================================== *)

(** ** Zero crossings ([pipelines/entropy.py], lines 156-163) *)

Section ZeroCrossings.

Import Entropy.
Local Open Scope Z_scope.










(** For a non-negative index, [zc[k]] exists exactly when [k < len(zc)]. *)
Lemma index_nonneg {A} (l : list A) (k : Z) (d : A) :
  0 <= k ->
  Py.index l k = if k <? Z.of_nat (length l)
                 then Ok (nth (Z.to_nat k) l d) else Raise IndexError.
Proof.
  intros Hk. unfold Py.index.
  destruct (Z.ltb_spec k 0) as [?|_]; [lia|].
  destruct (Z.leb_spec 0 k) as [_|?]; [|lia]. simpl.
  destruct (Z.ltb_spec k (Z.of_nat (length l))) as [Hlt|Hge]; [|reflexivity].
  destruct (nth_error l (Z.to_nat k)) as [a|] eqn:E.
  - now rewrite (nth_error_nth _ _ d E).
  - apply nth_error_None in E. lia.
Qed.

(** What lines 159-163 do with one run, for a non-negative
    [options.zero_crossings]: the run contributes an endpoint exactly when
    it has MORE than that many crossings, and the endpoint is the entry at
    0-based position [options.zero_crossings]. *)
Lemma collect_endpoints_one_run (k : Z) (zc : list Z) :
  0 <= k ->
  collect_endpoints k [zc] =
  if k <? Z.of_nat (length zc)
  then ([nth (Z.to_nat k) zc 0], false) else ([], true).
Proof.
  intros Hk. unfold collect_endpoints. simpl.
  rewrite (index_nonneg zc k 0 Hk).
  now destruct (k <? Z.of_nat (length zc)).
Qed.

(** C1, evaluated: with [zero_crossings = 5], window 200 and entropy
    interval 1, a run whose angular coefficients change sign exactly five
    times contributes no endpoint and is flagged as not converged, and a run
    with six sign changes gets as endpoint the sample index 205 of its sixth
    crossing, not the index 204 of its fifth. *)
Theorem five_crossings_do_not_reach_convergence :
  let ac5 := [1; -1; 1; -1; 1; -1]%Q in
  let ac6 := [1; -1; 1; -1; 1; -1; 1]%Q in
  zero_crossings_run 200 1 ac5 = [200; 201; 202; 203; 204]
  /\ collect_endpoints 5 (zero_crossings 200 1 [ac5]) = ([], true)
  /\ EP_of (fst (collect_endpoints 5 (zero_crossings 200 1 [ac5]))) = None
  /\ zero_crossings_run 200 1 ac6 = [200; 201; 202; 203; 204; 205]
  /\ collect_endpoints 5 (zero_crossings 200 1 [ac6]) = ([205], false).
Proof. repeat split; vm_compute; reflexivity. Qed.

End ZeroCrossings.

(** ** The reconstruction loop ([pipelines/entropy.py], lines 104-118) *)

Section ReconstructionProps.

Import Entropy.

Context {sample mix_t draw_t rng_t : Type}.
Variable initialise : mix_t -> mix_t.
Variable add_new_point : mix_t -> sample -> mix_t.
Variable build_mixture : mix_t -> draw_t.
Variable compute_entropy_single_draw : mix_t -> Q.
Variable shuffle : rng_t -> list sample -> list sample * rng_t.

Local Abbreviation ingest := (ingest add_new_point compute_entropy_single_draw).
Local Abbreviation run :=
  (run initialise add_new_point build_mixture compute_entropy_single_draw
       shuffle).
Local Abbreviation runs :=
  (runs initialise add_new_point build_mixture compute_entropy_single_draw
        shuffle).

(** The mixture has seen the points in the order of the list. *)
Lemma ingest_mix (interval : Z) :
  forall todo i m S_ n_eval m' S' n',
    ingest interval i todo m S_ n_eval = Ok (m', S', n') ->
    m' = fold_left add_new_point todo m.
Proof.
  induction todo as [|s rest IH]; intros i m S_ n_eval m' S' n' H.
  - simpl in H. now injection H as <- _ _.
  - cbn [Entropy.ingest] in H. simpl fold_left.
    destruct (Z.of_nat i mod interval =? 0)%Z.
    + destruct (Py.setitem_int S_ _ _) as [S1|]; cbn [Py.bind] in H;
        [|discriminate].
      destruct (Py.setitem_int n_eval _ _) as [n1|]; cbn [Py.bind] in H;
        [|discriminate].
      eapply IH; eassumption.
    + eapply IH; eassumption.
Qed.

(** One run: the array is left as [shuffle] made it, and the mixture was
    fed that order from a fresh start. *)
Lemma run_effect (interval : Z) (st st' : state) :
  run interval st = Ok st' ->
  samples st' = fst (shuffle (rng st) (samples st))
  /\ mix st' = fold_left add_new_point (samples st') (initialise (mix st)).
Proof.
  unfold Entropy.run. destruct (interval =? 0)%Z; [discriminate|].
  destruct (_ / _ <? 0)%Z; [discriminate|].
  destruct (shuffle (rng st) (samples st)) as [shuffled g] eqn:Es.
  destruct (ingest interval 0 shuffled _ _ _) as [[[m S_] n_eval]|] eqn:Ei;
    simpl; [|discriminate].
  intros [= <-]. simpl. split; [reflexivity|].
  eapply ingest_mix; eassumption.
Qed.

Hypothesis shuffle_permutes :
  forall g l, Permutation l (fst (shuffle g l)).

(** C4, as the code has it: [np.random.shuffle] reorders the sample array
    itself, and no run copies it.  After any number of completed runs the
    array holds a permutation of what it held before, that is the same
    elements with the same multiplicities; its order is the one left by the
    last shuffle, and each run has fed the mixture the array in the order
    its own shuffle produced from the order the previous run left. *)
Theorem runs_leave_samples_permuted (interval : Z) :
  forall n_draws st st',
    runs n_draws interval st = Ok st' ->
    Permutation (samples st) (samples st')
    /\ (forall st1, run interval st = Ok st1 ->
          samples st1 = fst (shuffle (rng st) (samples st))
          /\ mix st1 = fold_left add_new_point (samples st1)
                                 (initialise (mix st))).
Proof.
  intros n_draws st st' H. split; [|apply run_effect].
  revert st st' H.
  induction n_draws as [|n IH]; intros st st' H; simpl in H.
  - injection H as <-. apply Permutation_refl.
  - destruct (run interval st) as [st1|] eqn:E1; simpl in H; [|discriminate].
    apply run_effect in E1. destruct E1 as [E1 _].
    eapply Permutation_trans; [|eapply IH; eassumption].
    rewrite E1. apply shuffle_permutes.
Qed.

End ReconstructionProps.

(** C4 fails as stated: one run over the array [1, 2, 3], with a shuffle
    that reverses, leaves the array as [3, 2, 1]. *)
Lemma one_run_reorders_the_sample_array :
  exists st',
    Fixtures.recorder_runs 1 1 Fixtures.three_samples = Ok st'
    /\ Entropy.samples st' = [3; 2; 1]%nat
    /\ Entropy.samples st' <> Entropy.samples Fixtures.three_samples.
Proof.
  eexists. split; [reflexivity|]. split; [reflexivity|]. discriminate.
Qed.

Lemma runs_leave_samples_permuted_witness :
  Permutation [1; 2; 3]%nat [1; 2; 3]%nat
  /\ Permutation [1; 2; 3]%nat [3; 2; 1]%nat.
Proof.
  pose (perm := fun g l => Permutation_rev l
                 : Permutation l (fst (Fixtures.reversing_shuffle g l))).
  split.
  - exact (proj1 (runs_leave_samples_permuted
                    Fixtures.recorder_initialise Fixtures.recorder_add
                    Fixtures.recorder_build Fixtures.recorder_entropy
                    Fixtures.reversing_shuffle perm 1 2
                    Fixtures.three_samples _ eq_refl)).
  - exact (proj1 (runs_leave_samples_permuted
                    Fixtures.recorder_initialise Fixtures.recorder_add
                    Fixtures.recorder_build Fixtures.recorder_entropy
                    Fixtures.reversing_shuffle perm 1 1
                    Fixtures.three_samples _ eq_refl)).
Defined.

(** ** Grids ([utils.py], [recursive_grid]) *)

Section GridProps.

Import Utils.
Local Open Scope Q_scope.

Lemma index_0_cons {A} (a : A) (l : list A) : Py.index (a :: l) 0 = Ok a.
Proof.
  rewrite (index_nonneg _ _ a) by lia.
  destruct (Z.ltb_spec 0 (Z.of_nat (length (a :: l)))) as [_|H];
    [reflexivity | simpl length in H; lia].
Qed.

Lemma index_1_cons {A} (a b : A) (l : list A) :
  Py.index (a :: b :: l) 1 = Ok b.
Proof.
  rewrite (index_nonneg _ _ a) by lia.
  destruct (Z.ltb_spec 1 (Z.of_nat (length (a :: b :: l)))) as [_|H];
    [reflexivity | simpl length in H; lia].
Qed.

Lemma index_1_short {A} (l : list A) :
  (length l < 2)%nat -> Py.index l 1 = Raise IndexError.
Proof.
  intros H. destruct l as [|a [|b l]]; try reflexivity.
  simpl in H. lia.
Qed.

Lemma interior_eq (lo hi : Q) (n : nat) :
  interior lo hi n = map (axis_point lo hi n) (seq 1 n).
Proof.
  unfold interior, Py.slice_1_m1. replace (n + 2)%nat with (S (S n)) by lia.
  unfold linspace. cbn [seq map app tl].
  apply removelast_last.
Qed.

Lemma interior_length (lo hi : Q) (n : nat) : length (interior lo hi n) = n.
Proof. now rewrite interior_eq, length_map, length_seq. Qed.

Lemma inject_nat_pos (n : nat) : 0 < inject_Z (Z.of_nat (S n)).
Proof. change 0 with (inject_Z 0). rewrite <- Zlt_Qlt. lia. Qed.

Lemma axis_point_inside (lo hi : Q) (n k : nat) :
  lo < hi -> (1 <= k <= n)%nat ->
  lo < axis_point lo hi n k /\ axis_point lo hi n k < hi.
Proof.
  intros Hb [Hk1 Hk2]. unfold axis_point.
  pose proof (inject_nat_pos n) as HN.
  set (N := inject_Z (Z.of_nat (S n))) in *.
  set (t := (hi - lo) / N).
  assert (Ht : t * N == hi - lo).
  { unfold t. rewrite Qmult_comm. apply Qmult_div_r.
    intros E. apply (Qlt_not_eq _ _ HN). now symmetry. }
  assert (Htpos : 0 < t).
  { unfold t. apply Qlt_shift_div_l; [exact HN|]. lra. }
  assert (Hk : 0 < inject_Z (Z.of_nat k)).
  { change 0 with (inject_Z 0). rewrite <- Zlt_Qlt. lia. }
  assert (HkN : inject_Z (Z.of_nat k) < N).
  { unfold N. rewrite <- Zlt_Qlt. lia. }
  set (q := inject_Z (Z.of_nat k)) in *.
  split; nra.
Qed.

(** For at least two points, [d[1]-d[0]] is the step of the axis. *)
Lemma first_gap_interior (lo hi : Q) (n : nat) :
  (2 <= n)%nat ->
  exists s, first_gap (interior lo hi n) = Ok s
            /\ s == (hi - lo) / (inject_Z (Z.of_nat n) + 1).
Proof.
  intros Hn. rewrite interior_eq.
  destruct n as [|[|m]]; try lia.
  cbn [seq map]. unfold first_gap.
  rewrite index_1_cons, index_0_cons. cbn [Py.bind].
  eexists. split; [reflexivity|].
  unfold axis_point.
  assert (E : inject_Z (Z.of_nat (S (S (S m))))
              == inject_Z (Z.of_nat (S (S m))) + 1).
  { rewrite (Nat2Z.inj_succ (S (S m))). unfold Z.succ.
    rewrite inject_Z_plus. reflexivity. }
  rewrite E.
  change (inject_Z (Z.of_nat 2)) with 2.
  change (inject_Z (Z.of_nat 1)) with 1.
  field. rewrite <- E. intros E0.
  apply (Qlt_not_eq _ _ (inject_nat_pos (S (S m)))). now symmetry.
Qed.

(** With fewer than two points there is no [d[1]]. *)
Lemma first_gap_short (lo hi : Q) (n : nat) :
  (n < 2)%nat -> first_gap (interior lo hi n) = Raise IndexError.
Proof.
  intros Hn. unfold first_gap.
  rewrite index_1_short; [reflexivity|]. now rewrite interior_length.
Qed.

Lemma flat_map_cons_length {A} (d : list A) (g : list (list A)) :
  length (flat_map (fun di => map (fun gi => di :: gi) g) d)
  = (length d * length g)%nat.
Proof.
  induction d as [|a d IH]; [reflexivity|].
  cbn [flat_map]. rewrite length_app, length_map, IH. reflexivity.
Qed.

Lemma recursive_grid_one (lo hi : Q) (n_pts : list nat) :
  recursive_grid [(lo, hi)] n_pts =
  (n0 <- Py.index n_pts 0 ;;
   let d := interior lo hi n0 in
   dD <- first_gap d ;;
   Ok (map (fun x => [x]) d, [dD]))%py.
Proof. reflexivity. Qed.

Lemma recursive_grid_more (lo hi : Q) (b : Q * Q) (rest : list (Q * Q))
  (n_pts : list nat) :
  recursive_grid ((lo, hi) :: b :: rest) n_pts =
  ('(grid_nm1, diff) <- recursive_grid (b :: rest) (tl n_pts) ;;
   n0 <- Py.index n_pts 0 ;;
   let d := interior lo hi n0 in
   gap <- first_gap d ;;
   Ok (flat_map (fun di => map (fun gi => di :: gi) grid_nm1) d,
       diff ++ [gap]))%py.
Proof. reflexivity. Qed.



Lemma interior_inside (lo hi : Q) (n : nat) (x : Q) :
  lo < hi -> In x (interior lo hi n) -> lo < x /\ x < hi.
Proof.
  intros Hb Hx. rewrite interior_eq in Hx.
  apply in_map_iff in Hx. destruct Hx as (k & <- & Hk).
  apply in_seq in Hk. apply axis_point_inside; [assumption|lia].
Qed.

Lemma recursive_grid_shape :
  forall bounds n_pts,
    bounds <> [] ->
    length n_pts = length bounds ->
    Forall (fun n => (2 <= n)%nat) n_pts ->
    exists grid diff,
      recursive_grid bounds n_pts = Ok (grid, diff)
      /\ length grid = fold_right Nat.mul 1%nat n_pts
      /\ (Forall (fun b => fst b < snd b) bounds ->
          Forall (strictly_inside bounds) grid)
      /\ Forall2 axis_spacing (rev diff) (combine bounds n_pts).
Proof.
  induction bounds as [|[lo hi] rest IH]; intros n_pts Hne Hlen Hn;
    [congruence|].
  destruct n_pts as [|n0 ns]; [discriminate|].
  injection Hlen as Hlen. inversion Hn as [|? ? Hn0 Hns]; subst.
  destruct (first_gap_interior lo hi n0 Hn0) as (s & Hs & Es).
  destruct rest as [|b rest].
  - destruct ns; [|discriminate].
    rewrite recursive_grid_one, index_0_cons. cbn [Py.bind].
    rewrite Hs. cbn [Py.bind].
    eexists _, _. split; [reflexivity|]. split; [|split].
    + rewrite length_map, interior_length. simpl. lia.
    + intros Hb. inversion Hb as [|? ? Hlohi _]; subst. simpl in Hlohi.
      apply Forall_forall. intros p Hp. apply in_map_iff in Hp.
      destruct Hp as (x & <- & Hx).
      constructor; [|constructor].
      exact (interior_inside lo hi n0 x Hlohi Hx).
    + simpl. constructor; [exact Es|constructor].
  - destruct (IH ns ltac:(discriminate) Hlen Hns)
      as (g & diff & Hg & Hcount & Hin & Hdiff).
    rewrite recursive_grid_more. cbn [tl]. rewrite Hg. cbn [Py.bind].
    rewrite index_0_cons. cbn [Py.bind]. rewrite Hs. cbn [Py.bind].
    eexists _, _. split; [reflexivity|]. split; [|split].
    + rewrite flat_map_cons_length, interior_length, Hcount. reflexivity.
    + intros Hb. inversion Hb as [|? ? Hlohi Hrest]; subst. simpl in Hlohi.
      specialize (Hin Hrest). rewrite Forall_forall in Hin.
      apply Forall_forall. intros p Hp. apply in_flat_map in Hp.
      destruct Hp as (di & Hdi & Hp). apply in_map_iff in Hp.
      destruct Hp as (gi & <- & Hgi).
      constructor; [|exact (Hin gi Hgi)].
      exact (interior_inside lo hi n0 di Hlohi Hdi).
    + rewrite rev_app_distr. cbn [rev app combine].
      constructor; [exact Es|exact Hdiff].
Qed.

Lemma Forall2_nth_error {A B} (P : A -> B -> Prop) (l : list A) (l' : list B) :
  Forall2 P l l' ->
  forall i b, nth_error l' i = Some b ->
              exists a, nth_error l i = Some a /\ P a b.
Proof.
  induction 1 as [|a b0 l l' Hab _ IH]; intros i b Hi.
  - destruct i; discriminate.
  - destruct i as [|i]; simpl in Hi.
    + injection Hi as <-. exists a. now split.
    + exact (IH i b Hi).
Qed.

(** C3, as the code has it.  For a box of [D >= 1] dimensions with
    [min < max] on every axis and one count per axis, every count at least
    2, [recursive_grid] returns exactly the product of the counts points;
    every point has [D] coordinates, each strictly between the bounds of its
    axis; and the list of spacings has length [D] and is in REVERSE axis
    order: the spacing [(max_i - min_i)/(counts[i]+1)] of axis [i] is at
    position [D-1-i]. *)
Theorem recursive_grid_spec :
  forall bounds n_pts,
    bounds <> [] ->
    length n_pts = length bounds ->
    Forall (fun b => fst b < snd b) bounds ->
    Forall (fun n => (2 <= n)%nat) n_pts ->
    exists grid diff,
      recursive_grid bounds n_pts = Ok (grid, diff)
      /\ length grid = fold_right Nat.mul 1%nat n_pts
      /\ (forall p, In p grid ->
            length p = length bounds
            /\ forall i lo hi, nth_error bounds i = Some (lo, hi) ->
                 exists x, nth_error p i = Some x /\ lo < x /\ x < hi)
      /\ length diff = length bounds
      /\ (forall i lo hi n,
            nth_error bounds i = Some (lo, hi) ->
            nth_error n_pts i = Some n ->
            exists s,
              nth_error diff (length bounds - 1 - i) = Some s
              /\ s == (hi - lo) / (inject_Z (Z.of_nat n) + 1)).
Proof.
  intros bounds n_pts Hne Hlen Hb Hn.
  destruct (recursive_grid_shape bounds n_pts Hne Hlen Hn)
    as (grid & diff & Hg & Hcount & Hin & Hdiff).
  specialize (Hin Hb). rewrite Forall_forall in Hin.
  assert (Hld : length diff = length bounds).
  { apply Forall2_length in Hdiff.
    rewrite length_rev, length_combine, Hlen, Nat.min_id in Hdiff.
    exact Hdiff. }
  exists grid, diff. split; [exact Hg|]. split; [exact Hcount|].
  split; [|split; [exact Hld|]].
  - intros p Hp. specialize (Hin p Hp). split.
    + exact (Forall2_length Hin).
    + intros i lo hi Hi.
      destruct (Forall2_nth_error _ _ _ Hin i (lo, hi) Hi) as (x & Hx & H).
      exists x. simpl in H. tauto.
  - intros i lo hi n Hi Hni.
    assert (Hc : nth_error (combine bounds n_pts) i = Some ((lo, hi), n)).
    { clear - Hi Hni. revert n_pts i Hi Hni.
      induction bounds as [|b bs IH]; intros [|m ms] [|i] Hi Hni;
        simpl in *; try discriminate.
      - congruence.
      - now apply IH. }
    destruct (Forall2_nth_error _ _ _ Hdiff i _ Hc) as (s & Hs & Hax).
    exists s. split; [|exact Hax].
    assert (Hil : (i < length diff)%nat).
    { rewrite Hld. apply nth_error_Some. congruence. }
    rewrite nth_error_rev in Hs. 
    rewrite <- Hld.
    destruct (Nat.ltb_spec i (length diff)); [|lia].
    replace (length diff - 1 - i)%nat with (length diff - S i)%nat by lia.
    exact Hs.
Qed.

End GridProps.

(** C3 fails as stated, in two ways.  With one point on an axis the
    function raises, because [d[1]] does not exist; and on the box
    [[0,3] x [0,8]] with counts (2, 3) the first spacing returned is 2, the
    spacing of the second axis, not (3-0)/(2+1) = 1. *)
Lemma recursive_grid_counterexample :
  Utils.recursive_grid [(0, 1)]%Q [1%nat] = Raise IndexError
  /\ (exists grid s0 s1,
        Utils.recursive_grid [(0, 3); (0, 8)]%Q [2; 3]%nat
        = Ok (grid, [s0; s1])
        /\ length grid = 6%nat
        /\ (s0 == (8 - 0) / (3 + 1))%Q
        /\ ~ (s0 == (3 - 0) / (2 + 1))%Q).
Proof.
  split; [reflexivity|].
  eexists _, _, _. split; [vm_compute; reflexivity|].
  split; [reflexivity|]. split; [vm_compute; reflexivity|].
  intros H. vm_compute in H. discriminate.
Qed.

Lemma recursive_grid_spec_witness :
  exists grid diff,
    Utils.recursive_grid [(0, 3); (0, 8)]%Q [2; 3]%nat = Ok (grid, diff)
    /\ length grid = 6%nat
    /\ length diff = 2%nat.
Proof.
  destruct (recursive_grid_spec [(0, 3); (0, 8)]%Q [2; 3]%nat)
    as (grid & diff & Hg & Hc & _ & Hd & _).
  - discriminate.
  - reflexivity.
  - repeat constructor.
  - repeat constructor.
  - exists grid, diff. repeat split; assumption.
Defined.

(** ** Rejection sampling ([utils.py], [rejection_sampler]) *)

Section SamplerProps.

Import Utils.
Local Open Scope Q_scope.

Context {rng_t : Type}.
Variable uniform : rng_t -> Q -> Q -> nat -> list Q * rng_t.

Variable n_draws : nat.
Variable f : Q -> Q.
Variable bounds : Q * Q.
Variable selfunc : option (Q -> Q).

Local Abbreviation top := (envelope f bounds selfunc).
Local Abbreviation w := (weighted f selfunc).
Local Abbreviation sampler_step :=
  (Spec.sampler_step uniform n_draws f bounds selfunc).
Local Abbreviation after_iterations :=
  (Spec.after_iterations uniform n_draws f bounds selfunc).
Local Abbreviation selection := (Spec.selection selfunc).
Local Abbreviation pass_draws :=
  (Spec.pass_draws uniform n_draws f bounds selfunc).
Local Abbreviation drawn := (Spec.drawn uniform n_draws f bounds selfunc).
Local Abbreviation below_density := (Spec.below_density f selfunc).
Local Abbreviation collected :=
  (Spec.collected uniform n_draws f bounds selfunc).
Local Abbreviation accepted_sample :=
  (Spec.accepted_sample uniform n_draws f bounds selfunc).

Lemma sampler_loop_step (fuel : nat) (g : rng_t) (samples : list Q) :
  (length samples < n_draws)%nat ->
  sampler_loop uniform (S fuel) n_draws f bounds selfunc top g samples
  = (let '(s, g) := sampler_step (samples, g) in
     sampler_loop uniform fuel n_draws f bounds selfunc top g s).
Proof.
  intros H. cbn [sampler_loop].
  destruct (Nat.ltb_spec (length samples) n_draws) as [_|]; [|lia].
  unfold Spec.sampler_step.
  destruct (uniform g (fst bounds) (snd bounds) n_draws) as [pts g1].
  destruct (uniform g1 0 top n_draws) as [h g2]. reflexivity.
Qed.

Lemma sampler_loop_done (fuel : nat) (g : rng_t) (samples : list Q) :
  (n_draws <= length samples)%nat ->
  sampler_loop uniform fuel n_draws f bounds selfunc top g samples
  = Some (samples, g).
Proof.
  intros H. destruct fuel; cbn [sampler_loop];
    destruct (Nat.ltb_spec (length samples) n_draws); (lia || reflexivity).
Qed.

(** The loop stops after the first pass that brings the number of
    accumulated samples to [n_draws]. *)
Lemma sampler_loop_exact :
  forall k st fuel,
    (forall j, (j < k)%nat ->
       (length (fst (Nat.iter j sampler_step st)) < n_draws)%nat) ->
    (n_draws <= length (fst (Nat.iter k sampler_step st)))%nat ->
    (k <= fuel)%nat ->
    sampler_loop uniform fuel n_draws f bounds selfunc top (snd st) (fst st)
    = Some (Nat.iter k sampler_step st).
Proof.
  induction k as [|k IH]; intros [samples g] fuel Hbefore Hreach Hfuel.
  - simpl in *. now apply sampler_loop_done.
  - destruct fuel as [|fuel]; [lia|].
    pose proof (Hbefore O ltac:(lia)) as H0. simpl in H0.
    cbn [fst snd]. rewrite sampler_loop_step by exact H0.
    rewrite Nat.iter_succ_r.
    destruct (sampler_step (samples, g)) as [s1 g1] eqn:E1.
    apply (IH (s1, g1) fuel).
    + intros j Hj. specialize (Hbefore (S j) ltac:(lia)).
      now rewrite Nat.iter_succ_r, E1 in Hbefore.
    + now rewrite Nat.iter_succ_r, E1 in Hreach.
    + lia.
Qed.

Lemma sampler_step_extends (st : list Q * rng_t) :
  exists extra, fst (sampler_step st) = fst st ++ extra.
Proof.
  destruct st as [samples g]. unfold Spec.sampler_step.
  destruct (uniform g (fst bounds) (snd bounds) n_draws) as [pts g1].
  destruct (uniform g1 0 top n_draws) as [h g2].
  cbn [fst]. eauto.
Qed.

Lemma sampler_step_grows (st : list Q * rng_t) :
  (length (fst st) <= length (fst (sampler_step st)))%nat.
Proof.
  destruct (sampler_step_extends st) as [extra ->].
  rewrite length_app. lia.
Qed.

Lemma iterations_grow (st : list Q * rng_t) (j k : nat) :
  (j <= k)%nat ->
  (length (fst (Nat.iter j sampler_step st))
   <= length (fst (Nat.iter k sampler_step st)))%nat.
Proof.
  induction 1 as [|k _ IH]; [lia|].
  etransitivity; [exact IH|]. rewrite Nat.iter_succ.
  apply sampler_step_grows.
Qed.

(** If some number of passes is enough, there is a first such number. *)
Lemma first_sufficient_pass (st : list Q * rng_t) :
  forall k,
    (n_draws <= length (fst (Nat.iter k sampler_step st)))%nat ->
    exists k', (k' <= k)%nat
      /\ (forall j, (j < k')%nat ->
            (length (fst (Nat.iter j sampler_step st)) < n_draws)%nat)
      /\ (n_draws <= length (fst (Nat.iter k' sampler_step st)))%nat.
Proof.
  induction k as [|k IH]; intros Hk.
  - exists O. split; [lia|]. split; [intros; lia|exact Hk].
  - destruct (le_lt_dec n_draws (length (fst (Nat.iter k sampler_step st))))
      as [Hle|Hlt].
    + destruct (IH Hle) as (k' & ? & ? & ?). exists k'. auto with arith.
    + exists (S k). split; [lia|]. split; [|exact Hk].
      intros j Hj. pose proof (iterations_grow st j k ltac:(lia)). lia.
Qed.

Lemma Qltb_lt (x y : Q) : Qltb x y = true -> x < y.
Proof.
  unfold Qltb. intros H. apply negb_true_iff in H.
  apply Qnot_le_lt. intros Hle. apply Qle_bool_iff in Hle. congruence.
Qed.

Lemma accepted_In (pts h : list Q) (x : Q) :
  In x (accepted pts (map w pts) h) ->
  In x pts /\ exists hx, In hx h /\ hx < w x.
Proof.
  unfold accepted. intros H. apply in_map_iff in H.
  destruct H as ([x' [p hx]] & Hx & H). simpl in Hx. subst x'.
  apply filter_In in H. destruct H as [H Hlt]. simpl in Hlt.
  apply Qltb_lt in Hlt.
  revert h H. induction pts as [|a pts IH]; intros h H; [destruct H|].
  destruct h as [|b h]; [destruct H|].
  simpl in H. destruct H as [H|H].
  - inversion H; subst. split; [now left|].
    eexists. split; [left; reflexivity|exact Hlt].
  - destruct (IH h H) as (Hin & hx' & Hh & Hlt').
    split; [now right|]. exists hx'. split; [now right|exact Hlt'].
Qed.

Lemma np_max_ge_head (a : Q) (t : list Q) : a <= np_max (a :: t).
Proof.
  unfold np_max. revert a. induction t as [|b t IH]; intros a; simpl.
  - apply Qle_refl.
  - eapply Qle_trans; [apply (Q.le_max_l a b)|apply IH].
Qed.

Lemma linspace_nonempty (lo hi : Q) (num : nat) :
  (2 <= num)%nat -> exists x rest, linspace lo hi num = x :: rest.
Proof.
  intros H. destruct num as [|[|m]]; try lia.
  unfold linspace. cbn [seq map app]. eauto.
Qed.

Hypothesis uniform_range :
  forall g lo hi n, lo <= hi ->
    Forall (fun x => lo <= x /\ x <= hi) (fst (uniform g lo hi n)).
Hypothesis bounds_ordered : fst bounds <= snd bounds.
Hypothesis density_positive : forall x, 0 < f x.
Hypothesis selection_nonneg :
  forall sel, selfunc = Some sel -> forall x, 0 <= sel x.

Lemma weighted_nonneg (x : Q) : 0 <= w x.
Proof.
  unfold weighted. pose proof (density_positive x) as Hf.
  destruct selfunc as [sel|] eqn:E.
  - pose proof (selection_nonneg sel eq_refl x). nra.
  - lra.
Qed.

Lemma envelope_nonneg : 0 <= top.
Proof.
  unfold envelope.
  destruct (linspace_nonempty (fst bounds) (snd bounds) 1000)
    as (x & rest & ->); [lia|].
  cbn [map]. eapply Qle_trans; [apply (weighted_nonneg x)|].
  apply np_max_ge_head.
Qed.

Lemma weighted_selection (x : Q) : w x = f x * selection x.
Proof. unfold weighted, Spec.selection. destruct selfunc; reflexivity. Qed.

Lemma accepted_below_density (pts h : list Q) :
  accepted pts (map w pts) h = below_density pts h.
Proof.
  unfold accepted. revert h.
  induction pts as [|x pts IH]; intros h; [reflexivity|].
  destruct h as [|hx h]; [reflexivity|].
  cbn [map combine filter fst snd Spec.below_density].
  rewrite <- weighted_selection. unfold Qltb at 1.
  destruct (Qlt_le_dec hx (w x)) as [Hlt|Hle].
  - replace (Qle_bool (w x) hx) with false.
    + cbn [negb map fst]. f_equal. apply IH.
    + symmetry. apply not_true_is_false. intros H.
      apply Qle_bool_iff in H. lra.
  - replace (Qle_bool (w x) hx) with true.
    + cbn [negb]. apply IH.
    + symmetry. apply Qle_bool_iff. exact Hle.
Qed.

Lemma sampler_step_pass (samples : list Q) (g : rng_t) :
  sampler_step (samples, g)
  = (samples ++ below_density (fst (fst (pass_draws g)))
                              (snd (fst (pass_draws g))),
     snd (pass_draws g)).
Proof.
  unfold Spec.sampler_step, Spec.pass_draws.
  destruct (uniform g (fst bounds) (snd bounds) n_draws) as [pts g1].
  destruct (uniform g1 0 top n_draws) as [h g2]. cbn [fst snd].
  rewrite accepted_below_density. reflexivity.
Qed.

(** The accumulation of the loop is the list of the candidates below
    their heights' bound, pass after pass. *)
Lemma iterations_collected (k : nat) :
  forall samples g,
    fst (Nat.iter k sampler_step (samples, g)) = samples ++ collected k g.
Proof.
  unfold Spec.collected.
  induction k as [|k IH]; intros samples g.
  - cbn. now rewrite app_nil_r.
  - rewrite Nat.iter_succ_r, sampler_step_pass, IH.
    cbn [Spec.drawn]. destruct (pass_draws g) as [[pts h] g1].
    cbn [fst snd flat_map]. now rewrite app_assoc.
Qed.

Lemma below_density_In (pts h : list Q) (x : Q) :
  In x (below_density pts h) ->
  exists i hx, nth_error pts i = Some x /\ nth_error h i = Some hx
               /\ hx < f x * selection x.
Proof.
  revert h. induction pts as [|a pts IH]; intros h; [intros []|].
  destruct h as [|b h]; [intros []|].
  cbn [Spec.below_density].
  destruct (Qlt_le_dec b (f a * selection a)) as [Hlt|_].
  - intros [<-|H].
    + exists O, b. auto.
    + destruct (IH h H) as (i & hx & ? & ? & ?). exists (S i), hx. auto.
  - intros H. destruct (IH h H) as (i & hx & ? & ? & ?).
    exists (S i), hx. auto.
Qed.

Lemma drawn_in_range (k : nat) :
  forall g j pts hs,
    nth_error (drawn k g) j = Some (pts, hs) ->
    Forall (fun x => fst bounds <= x /\ x <= snd bounds) pts
    /\ Forall (fun h => 0 <= h /\ h <= top) hs.
Proof.
  induction k as [|k IH]; intros g j pts hs H.
  - destruct j; discriminate.
  - cbn [Spec.drawn] in H. unfold Spec.pass_draws in H.
    pose proof (uniform_range g _ _ n_draws bounds_ordered) as Hpts.
    destruct (uniform g (fst bounds) (snd bounds) n_draws) as [pts0 g1].
    pose proof (uniform_range g1 0 top n_draws envelope_nonneg) as Hh.
    destruct (uniform g1 0 top n_draws) as [h0 g2].
    destruct j as [|j].
    + injection H as <- <-. auto.
    + exact (IH g2 j pts hs H).
Qed.

Lemma collected_accepted (g : rng_t) (k : nat) :
  Forall (accepted_sample k g) (collected k g).
Proof.
  apply Forall_forall. intros x Hx. unfold Spec.collected in Hx.
  apply in_flat_map in Hx as ([pts hs] & Hd & Hx). cbn [fst snd] in Hx.
  apply In_nth_error in Hd as [j Hj].
  apply below_density_In in Hx as (i & hx & Hi & Hhx & Hlt).
  destruct (drawn_in_range k g j pts hs Hj) as [Hpts Hhs].
  rewrite Forall_forall in Hpts, Hhs.
  destruct (Hpts x (nth_error_In _ _ Hi)) as [? ?].
  destruct (Hhs hx (nth_error_In _ _ Hhx)) as [? ?].
  unfold Spec.accepted_sample. split; [assumption|]. split; [assumption|].
  exists j, pts, hs, i, hx. auto 7.
Qed.

Lemma fold_max_In (t : list Q) :
  forall a, In (fold_left Qmax t a) (a :: t)
            /\ Forall (fun x => x <= fold_left Qmax t a) (a :: t).
Proof.
  induction t as [|b t IH]; intros a; cbn [fold_left].
  - split; [now left|]. constructor; [apply Qle_refl|constructor].
  - destruct (IH (Qmax a b)) as [Hin Hall]. split.
    + destruct Hin as [E|Hin]; [|now right; right].
      assert (Hab : Qmax a b = a \/ Qmax a b = b)
        by (unfold Qmax, GenericMinMax.gmax; destruct (a ?= b); auto).
      destruct Hab as [Hab|Hab]; rewrite Hab in E at 1.
      * left; exact E.
      * right; left; exact E.
    + inversion Hall as [|? ? Hm Ht]; subst.
      constructor; [|constructor; [|exact Ht]].
      * eapply Qle_trans; [apply (Q.le_max_l a b)|exact Hm].
      * eapply Qle_trans; [apply (Q.le_max_r a b)|exact Hm].
Qed.

Lemma envelope_highest : Spec.highest_on_grid f bounds selfunc top.
Proof.
  unfold Spec.highest_on_grid, envelope.
  rewrite (map_ext _ _ weighted_selection).
  fold selection.
  destruct (linspace_nonempty (fst bounds) (snd bounds) 1000)
    as (x & rest & E); [lia|].
  rewrite E. cbn [map np_max].
  destruct (fold_max_In (map (fun x => f x * selection x) rest)
              (f x * selection x)) as [Hin Hall].
  split; [exact Hin|].
  change (f x * selection x :: map (fun x => f x * selection x) rest)
    with (map (fun x => f x * selection x) (x :: rest)) in Hall.
  rewrite Forall_map in Hall. exact Hall.
Qed.

(** C8.  Let the density be strictly positive, the selection function (if
    any) non-negative, the bounds ordered, and let [np.random.uniform]
    return values inside the interval it is given.  If the draws are such
    that [k] passes of the loop collect at least [n_draws] accepted
    candidates, then the sampler returns (with enough fuel for [k] passes,
    whatever the rest of the fuel): it stops after the FIRST pass [k'] that
    brings the accumulated count to [n_draws], and returns exactly the first
    [n_draws] of the accumulated candidates.  The accumulation is, pass
    after pass and in the order of the draws, the list of the candidates
    whose own height is below [f(x)*selfunc(x)]; the heights are drawn in
    [[0, top]], [top] being the largest value of [f*selfunc] on the 1000
    points between the bounds; so each returned sample lies within the
    bounds and is a candidate of one of these passes whose height, drawn
    with it, is below [f(x)*selfunc(x)]. *)
Theorem rejection_sampler_spec (g : rng_t) (k fuel : nat) :
  (n_draws <= length (fst (after_iterations k g)))%nat ->
  (k <= fuel)%nat ->
  exists k',
    (k' <= k)%nat
    /\ (forall j, (j < k')%nat ->
          (length (fst (after_iterations j g)) < n_draws)%nat)
    /\ (n_draws <= length (fst (after_iterations k' g)))%nat
    /\ rejection_sampler uniform fuel g n_draws f bounds selfunc
       = Some (firstn n_draws (fst (after_iterations k' g)),
               snd (after_iterations k' g))
    /\ firstn n_draws (fst (after_iterations k' g))
       = firstn n_draws (fst (after_iterations k g))
    /\ length (firstn n_draws (fst (after_iterations k' g))) = n_draws
    /\ fst (after_iterations k' g) = collected k' g
    /\ Spec.highest_on_grid f bounds selfunc top
    /\ Forall (accepted_sample k' g)
              (firstn n_draws (fst (after_iterations k' g))).
Proof.
  intros Hreach Hfuel. unfold Spec.after_iterations in *.
  destruct (first_sufficient_pass ([], g) k Hreach) as (k' & Hk' & Hmin & Hk).
  exists k'. split; [exact Hk'|]. split; [exact Hmin|]. split; [exact Hk|].
  split; [|split; [|split; [|split; [|split]]]].
  - unfold rejection_sampler.
    pose proof (sampler_loop_exact k' ([], g) fuel Hmin Hk ltac:(lia)) as E.
    cbn [fst snd] in E. rewrite E.
    now destruct (Nat.iter k' sampler_step ([], g)).
  - clear - Hk Hk'. induction Hk' as [|m Hm IH]; [reflexivity|].
    rewrite IH, Nat.iter_succ.
    pose proof (iterations_grow ([], g) k' m Hm) as Hgrow.
    destruct (sampler_step_extends (Nat.iter m sampler_step ([], g)))
      as [extra ->].
    rewrite firstn_app.
    replace (n_draws - length (fst (Nat.iter m sampler_step ([], g))))%nat
      with O by lia.
    cbn [firstn]. now rewrite app_nil_r.
  - apply firstn_length_le. exact Hk.
  - apply (iterations_collected k' [] g).
  - exact envelope_highest.
  - pose proof (collected_accepted g k') as Hall.
    pose proof (iterations_collected k' [] g) as Ec. cbn [app] in Ec.
    rewrite <- Ec in Hall.
    rewrite Forall_forall in Hall.
    apply Forall_forall. intros x Hx. apply Hall.
    rewrite <- (firstn_skipn n_draws (fst _)). apply in_or_app. now left.
Qed.

End SamplerProps.

Lemma cycling_uniform_range (g : nat) (lo hi : Q) (n : nat) :
  (lo <= hi)%Q ->
  Forall (fun x => lo <= x /\ x <= hi)%Q
         (fst (Fixtures.cycling_uniform g lo hi n)).
Proof.
  intros H. unfold Fixtures.cycling_uniform. cbn [fst].
  apply Forall_forall. intros x Hx. apply in_map_iff in Hx.
  destruct Hx as (i & <- & _).
  pose proof (Nat.mod_upper_bound (i + g) 4 ltac:(lia)) as Hm.
  set (m := ((i + g) mod 4)%nat) in *.
  assert (H0 : (0 <= inject_Z (Z.of_nat m))%Q).
  { change 0%Q with (inject_Z 0). rewrite <- Zle_Qle. lia. }
  assert (H4 : (inject_Z (Z.of_nat m) <= 4)%Q).
  { change 4%Q with (inject_Z 4). rewrite <- Zle_Qle. lia. }
  set (q := inject_Z (Z.of_nat m)) in *.
  assert (Hr0 : (0 <= q / 4)%Q) by (apply Qle_shift_div_l; lra).
  assert (Hr1 : (q / 4 <= 1)%Q) by (apply Qle_shift_div_r; lra).
  set (r := (q / 4)%Q) in *.
  split; nra.
Qed.

Lemma rejection_sampler_spec_witness :
  exists k' out g',
    Utils.rejection_sampler Fixtures.cycling_uniform 5 0%nat 3
                            Fixtures.parabola (0, 1)%Q None
    = Some (out, g')
    /\ length out = 3%nat
    /\ out = firstn 3 (Spec.collected Fixtures.cycling_uniform 3
                         Fixtures.parabola (0, 1)%Q None k' 0%nat)
    /\ Forall (Spec.accepted_sample Fixtures.cycling_uniform 3
                 Fixtures.parabola (0, 1)%Q None k' 0%nat) out.
Proof.
  destruct (rejection_sampler_spec Fixtures.cycling_uniform 3
              Fixtures.parabola (0, 1)%Q None cycling_uniform_range)
    with (g := 0%nat) (k := 2%nat) (fuel := 5%nat)
    as (k' & _ & _ & _ & Hr & _ & Hlen & Hcol & _ & Hacc).
  - discriminate.
  - intros x. unfold Fixtures.parabola. nra.
  - discriminate.
  - apply Nat.leb_le. vm_compute. reflexivity.
  - lia.
  - exists k'. eexists _, _. split; [exact Hr|]. split; [exact Hlen|].
    split; [rewrite Hcol; reflexivity|exact Hacc].
Defined.

(** ** Prior elicitation ([utils.py], [get_priors]) *)

Section PriorsProps.

Import Utils.
Local Open Scope R_scope.

Variable transform_to_probit : list R -> list (R * R) -> list R.
Variable np_cov : list (list R) -> matrix.
Variable mvn_rvs : list R -> matrix -> nat -> result (list (list R)).

Local Abbreviation get_priors :=
  (get_priors transform_to_probit np_cov mvn_rvs).
Local Abbreviation mu_out := (mu_out transform_to_probit).
Local Abbreviation L_out := (L_out np_cov).
Local Abbreviation redraw := (redraw transform_to_probit np_cov mvn_rvs).
Local Abbreviation probit bounds :=
  (option_map (fun s => transform_rows transform_to_probit (as_rows s) bounds)).

Lemma Rltb_true (x y : R) : Rltb x y = true <-> x < y.
Proof. unfold Rltb. destruct (Rlt_dec x y); split; auto; discriminate. Qed.

Lemma Rltb_false (x y : R) : Rltb x y = false <-> ~ x < y.
Proof.
  unfold Rltb. destruct (Rlt_dec x y); split; auto; try discriminate.
  contradiction.
Qed.

(** [get_priors] returns exactly when its three fallible steps do, and then
    puts their results together. *)
Lemma get_priors_Ok (bounds : list (R * R)) (samples : option samples_t)
  (mean std : option (list R)) (cov : option matrix) (df k : option R)
  (r : prior_pars) :
  get_priors bounds samples mean std cov df k = Ok r <->
  exists mu L0 flag L,
    mu_out bounds (probit bounds samples) mean = Ok mu
    /\ L_out (length bounds) (probit bounds samples) std cov = Ok (L0, flag)
    /\ (if flag then redraw bounds L0 else Ok L0) = Ok L
    /\ r = (match k with Some k => k | None => 1 / 100 end, L,
            df_out (length bounds) df, mu).
Proof.
  unfold Utils.get_priors.
  destruct (mu_out bounds _ mean) as [mu|e]; cbn [Py.bind].
  2:{ split; [discriminate|]. intros (?&?&?&?&H&_). discriminate. }
  destruct (L_out (length bounds) _ std cov) as [[L0 flag]|e]; cbn [Py.bind].
  2:{ split; [discriminate|]. intros (?&?&?&?&_&H&_). discriminate. }
  destruct (if flag then redraw bounds L0 else Ok L0) as [L|e] eqn:E;
    cbn [Py.bind].
  - split.
    + intros [= <-]. exists mu, L0, flag, L. auto.
    + intros (mu'&L0'&flag'&L'&[= <-]&[= <- <-]&H&->).
      rewrite E in H. now injection H as <-.
  - split; [discriminate|].
    intros (mu'&L0'&flag'&L'&_&[= <- <-]&H&_). rewrite E in H. discriminate.
Qed.

Lemma df_out_above (dim : nat) (df : option R) :
  INR dim + 1 < df_out dim df.
Proof.
  unfold df_out. destruct df as [d|]; [|lra].
  destruct (Rltb (INR dim + 2) d) eqn:E; [|lra].
  apply Rltb_true in E. lra.
Qed.

(** C5: whatever [df] the caller passes (none, any real number), a call
    that returns has a number of degrees of freedom above [D+1]: the
    caller's value when it exceeds [D+2], and [D+2] otherwise. *)
Theorem degrees_of_freedom_above_D_plus_1
  (bounds : list (R * R)) (samples : option samples_t)
  (mean std : option (list R)) (cov : option matrix) (df k : option R)
  (k' : R) (L : matrix) (nu : R) (mu : list R) :
  get_priors bounds samples mean std cov df k = Ok (k', L, nu, mu) ->
  INR (length bounds) + 1 < nu
  /\ (forall d, df = Some d -> INR (length bounds) + 2 < d -> nu = d)
  /\ (forall d, df = Some d -> ~ INR (length bounds) + 2 < d ->
        nu = INR (length bounds) + 2)
  /\ (df = None -> nu = INR (length bounds) + 2).
Proof.
  intros H. apply get_priors_Ok in H.
  destruct H as (mu' & L0 & flag & L' & _ & _ & _ & [= -> -> -> ->]).
  split; [apply df_out_above|]. unfold df_out.
  split; [|split].
  - intros d -> Hd. apply Rltb_true in Hd. now rewrite Hd.
  - intros d -> Hd. apply Rltb_false in Hd. now rewrite Hd.
  - now intros ->.
Qed.

Lemma broadcast2_same_length {A B C} (op : A -> B -> C) xs ys :
  length xs = length ys ->
  broadcast2 op xs ys = Ok (map (fun p => op (fst p) (snd p)) (combine xs ys)).
Proof. intros H. unfold broadcast2. now rewrite H, Nat.eqb_refl. Qed.

Lemma mean_in_bounds_spec (bounds : list (R * R)) (mean : list R) :
  length mean = length bounds ->
  exists b, mean_in_bounds bounds mean = Ok b
            /\ (b = true <-> strictly_within bounds mean).
Proof.
  intros Hlen. unfold mean_in_bounds.
  rewrite !broadcast2_same_length by (rewrite length_map; congruence).
  cbn [Py.bind]. eexists. split; [reflexivity|].
  unfold strictly_within, np_prod.
  revert mean Hlen. induction bounds as [|[lo hi] bs IH]; intros [|x m] Hlen;
    try discriminate.
  - simpl. split; [constructor|reflexivity].
  - injection Hlen as Hlen. specialize (IH m Hlen).
    cbn [map combine forallb fst snd].
    rewrite !andb_true_iff in *. rewrite !Rltb_true. split.
    + intros [[H1 H2] [H3 H4]]. constructor; [now split|].
      apply IH. now split.
    + intros H. inversion H as [|? ? ? ? [H1 H3] Hrest]; subst.
      apply IH in Hrest. tauto.
Qed.

(** C6: an explicit mean with one component per dimension.  If some
    component is not strictly inside its bounds, the call raises
    [ValueError("Mean is outside of the given bounds")], whatever the other
    arguments.  If every component is strictly inside, every result of the
    call has the transformed mean as [mu]; and the call does return, when
    neither [std] nor [cov] is given, and when [cov] is given and the
    sampler delivers its draws. *)
Theorem explicit_mean_checked_and_transformed
  (bounds : list (R * R)) (samples : option samples_t) (mean : list R)
  (std : option (list R)) (cov : option matrix) (df k : option R) :
  length mean = length bounds ->
  (~ strictly_within bounds mean ->
     get_priors bounds samples (Some mean) std cov df k
     = Raise (ValueError mean_outside_msg))
  /\ (strictly_within bounds mean ->
        (forall k' L nu mu,
            get_priors bounds samples (Some mean) std cov df k
            = Ok (k', L, nu, mu) ->
            mu = transform_to_probit mean bounds)
        /\ (std = None -> cov = None ->
            exists k' L nu,
              get_priors bounds samples (Some mean) std cov df k
              = Ok (k', L, nu, transform_to_probit mean bounds))
        /\ (forall c draws,
              cov = Some c ->
              mvn_rvs (map (fun b => (fst b + snd b) / 2) bounds) c n_mc_draws
              = Ok draws ->
              exists k' L nu,
                get_priors bounds samples (Some mean) std cov df k
                = Ok (k', L, nu, transform_to_probit mean bounds))).
Proof.
  intros Hlen.
  destruct (mean_in_bounds_spec bounds mean Hlen) as (b & Hb & Hiff).
  assert (Hmu_in : strictly_within bounds mean ->
            mu_out bounds (probit bounds samples) (Some mean)
            = Ok (transform_to_probit mean bounds)).
  { intros Hin. unfold Utils.mu_out. rewrite Hb. cbn [Py.bind].
    apply Hiff in Hin. now rewrite Hin. }
  split.
  - intros Hout. unfold Utils.get_priors, Utils.mu_out.
    rewrite Hb. cbn [Py.bind].
    destruct b; [exfalso; apply Hout; now apply Hiff|reflexivity].
  - intros Hin. specialize (Hmu_in Hin). split; [|split].
    + intros k' L nu mu H. apply get_priors_Ok in H.
      destruct H as (mu' & L0 & flag & L' & Hmu & _ & _ & [= _ _ _ ->]).
      congruence.
    + intros -> ->.
      destruct (probit bounds samples) as [ps|] eqn:Eps;
        eexists _, _, _; apply get_priors_Ok;
        exists (transform_to_probit mean bounds); rewrite Eps;
        eexists _, false, _; (split; [exact Hmu_in|]);
        (split; [reflexivity|]); split; reflexivity.
    + intros c draws -> Hdraws. eexists _, _, _. apply get_priors_Ok.
      exists (transform_to_probit mean bounds), c, true.
      eexists. split; [exact Hmu_in|]. split; [reflexivity|].
      split; [|reflexivity].
      unfold Utils.redraw. rewrite Hdraws. reflexivity.
Qed.

(** C2, as the code has it: nothing looks at the number of draws that the
    bounds filter retains.  With an explicit [cov] or [std], once the mean
    is settled and the sampler has delivered its draws, the call returns,
    and its [L] is [np.cov] of the transformed draws that lie strictly
    inside the bounds, however few these are, none included. *)
Theorem monte_carlo_estimate_has_no_count_guard
  (bounds : list (R * R)) (samples : option samples_t)
  (mean std : option (list R)) (cov : option matrix) (df k : option R)
  (mu : list R) (L0 : matrix) (flag : bool) (draws : list (list R)) :
  cov <> None \/ std <> None ->
  mu_out bounds (probit bounds samples) mean = Ok mu ->
  L_out (length bounds) (probit bounds samples) std cov = Ok (L0, flag) ->
  mvn_rvs (map (fun b => (fst b + snd b) / 2) bounds) L0 n_mc_draws
  = Ok draws ->
  flag = true
  /\ get_priors bounds samples mean std cov df k
     = Ok (match k with Some k => k | None => 1 / 100 end,
           np_cov (transform_rows transform_to_probit
                     (filter (within_bounds bounds) draws) bounds),
           df_out (length bounds) df,
           mu).
Proof.
  intros Hexp Hmu HL Hdraws.
  assert (Hflag : flag = true).
  { unfold Utils.L_out in HL. destruct cov as [c|].
    - now injection HL as _ <-.
    - destruct std as [s|]; [|destruct Hexp; congruence].
      destruct (L_from_std (length bounds) s); cbn [Py.bind] in HL;
        [now injection HL as _ <-|discriminate]. }
  split; [exact Hflag|]. subst flag.
  apply get_priors_Ok. exists mu, L0, true. eexists.
  split; [exact Hmu|]. split; [exact HL|]. split; [|reflexivity].
  unfold Utils.redraw. rewrite Hdraws. reflexivity.
Qed.

(** *** The covariance derived from the samples *)

Lemma nth_map_lt {A B} (g : A -> B) (l : list A) (i : nat) (d : A) (d' : B) :
  (i < length l)%nat -> nth i (map g l) d' = g (nth i l d).
Proof.
  intros H. rewrite (nth_indep _ d' (g d)) by now rewrite length_map.
  apply map_nth.
Qed.

Lemma square_row (D : nat) (M : matrix) (i : nat) :
  square D M -> (i < D)%nat -> length (nth i M []) = D.
Proof.
  intros [Hl Hr] Hi. rewrite Forall_forall in Hr. apply Hr.
  apply nth_In. lia.
Qed.

Lemma entry_mat_map (g : R -> R) (D : nat) (M : matrix) (i j : nat) :
  square D M -> (i < D)%nat -> (j < D)%nat ->
  entry (mat_map g M) i j = g (entry M i j).
Proof.
  intros HM Hi Hj. unfold entry, mat_map.
  rewrite (nth_map_lt (map g) M i []) by (destruct HM; lia).
  apply nth_map_lt. now rewrite (square_row D M i).
Qed.

Lemma square_mat_map (g : R -> R) (D : nat) (M : matrix) :
  square D M -> square D (mat_map g M).
Proof.
  intros [Hl Hr]. unfold mat_map. split; [now rewrite length_map|].
  apply Forall_map. eapply Forall_impl; [|exact Hr].
  intros r Hlen. now rewrite length_map.
Qed.

Lemma entry_mat_map2 (op : R -> R -> R) (D : nat) (A B : matrix) (i j : nat) :
  square D A -> square D B -> (i < D)%nat -> (j < D)%nat ->
  entry (mat_map2 op A B) i j = op (entry A i j) (entry B i j).
Proof.
  intros HA HB Hi Hj. unfold entry, mat_map2.
  pose proof (square_row D A i HA Hi) as Hra.
  pose proof (square_row D B i HB Hi) as Hrb.
  destruct HA as [HlA _], HB as [HlB _].
  rewrite (nth_map_lt _ (combine A B) i ([], []))
    by (rewrite length_combine; lia).
  rewrite combine_nth by lia. cbn [fst snd].
  rewrite (nth_map_lt _ (combine _ _) j (0, 0))
    by (rewrite length_combine; lia).
  rewrite combine_nth by lia. reflexivity.
Qed.

Lemma square_mat_map2 (op : R -> R -> R) (D : nat) (A B : matrix) :
  square D A -> square D B -> square D (mat_map2 op A B).
Proof.
  intros [HlA HrA] [HlB HrB]. unfold mat_map2. split.
  - rewrite length_map, length_combine. lia.
  - apply Forall_map, Forall_forall. intros [ra rb] Hin. cbn [fst snd].
    rewrite Forall_forall in HrA, HrB.
    rewrite length_map, length_combine,
      (HrA ra (in_combine_l _ _ _ _ Hin)), (HrB rb (in_combine_r _ _ _ _ Hin)).
    lia.
Qed.

Lemma entry_outer (u v : list R) (i j : nat) :
  (i < length u)%nat -> (j < length v)%nat ->
  entry (np_outer u v) i j = nth i u 0 * nth j v 0.
Proof.
  intros Hi Hj. unfold entry, np_outer.
  rewrite (nth_map_lt _ u i 0) by assumption.
  now rewrite (nth_map_lt _ v j 0).
Qed.

Lemma square_outer (D : nat) (u v : list R) :
  length u = D -> length v = D -> square D (np_outer u v).
Proof.
  intros Hu Hv. unfold np_outer. split; [now rewrite length_map|].
  apply Forall_map, Forall_forall. intros a _. now rewrite length_map.
Qed.

Lemma np_diag_length (M : matrix) : length (np_diag M) = length M.
Proof. unfold np_diag. now rewrite length_map, length_seq. Qed.

Lemma np_diag_nth (M : matrix) (i : nat) :
  (i < length M)%nat -> nth i (np_diag M) 0 = entry M i i.
Proof.
  intros Hi. unfold np_diag.
  rewrite (nth_map_lt _ (seq 0 (length M)) i O) by now rewrite length_seq.
  now rewrite seq_nth.
Qed.

(** Lines 129-132, entry by entry. *)
Lemma L_from_samples_entry (D : nat) (ps : list (list R)) (i j : nat) :
  square D (np_cov ps) -> (i < D)%nat -> (j < D)%nat ->
  entry (L_from_samples np_cov ps) i j
  = entry (np_cov ps) i j / 9
    * (clamped_std (np_cov ps) i * clamped_std (np_cov ps) j)
    / (scaled_std (np_cov ps) i * scaled_std (np_cov ps) j).
Proof.
  intros HC Hi Hj. unfold L_from_samples.
  set (C := np_cov ps) in *.
  set (L9 := mat_map (fun x => x / 9) C).
  assert (H9 : square D L9) by now apply square_mat_map.
  assert (Hdl : length (map sqrt (np_diag L9)) = D).
  { rewrite length_map, np_diag_length. now destruct H9. }
  assert (Hsl : length (map (fun d => Rmin d 0.2) (map sqrt (np_diag L9))) = D)
    by now rewrite length_map.
  assert (Hd : forall m, (m < D)%nat ->
             nth m (map sqrt (np_diag L9)) 0 = scaled_std C m).
  { intros m Hm. rewrite (nth_map_lt sqrt _ m 0)
      by (rewrite np_diag_length; destruct H9; lia).
    rewrite np_diag_nth by (destruct H9; lia).
    unfold scaled_std, L9. now rewrite (entry_mat_map _ D). }
  assert (Hs : forall m, (m < D)%nat ->
             nth m (map (fun d => Rmin d 0.2) (map sqrt (np_diag L9))) 0
             = clamped_std C m).
  { intros m Hm. rewrite (nth_map_lt _ _ m 0) by lia.
    unfold clamped_std. now rewrite Hd. }
  rewrite (entry_mat_map2 Rdiv D) ; try assumption.
  2:{ apply square_mat_map2; [assumption|now apply square_outer]. }
  2:{ now apply square_outer. }
  rewrite (entry_mat_map2 Rmult D); try assumption.
  2:{ now apply square_outer. }
  rewrite !entry_outer by lia.
  rewrite !Hd, !Hs by assumption.
  unfold L9. now rewrite (entry_mat_map _ D).
Qed.

Lemma scaled_std_pos (C : matrix) (i : nat) :
  0 < entry C i i -> 0 < scaled_std C i.
Proof. intros H. unfold scaled_std. apply sqrt_lt_R0. lra. Qed.

Lemma scaled_std_sqr (C : matrix) (i : nat) :
  0 < entry C i i -> scaled_std C i * scaled_std C i = entry C i i / 9.
Proof. intros H. unfold scaled_std. apply sqrt_sqrt. lra. Qed.

Lemma scaled_std_third (C : matrix) (i : nat) :
  0 < entry C i i -> scaled_std C i = sqrt (entry C i i) / 3.
Proof.
  intros H. unfold scaled_std. rewrite sqrt_div_alt by lra.
  replace (sqrt 9) with 3; [reflexivity|].
  replace 9 with (3 * 3) by lra. symmetry. apply sqrt_square. lra.
Qed.

Lemma clamped_std_pos (C : matrix) (i : nat) :
  0 < entry C i i -> 0 < clamped_std C i.
Proof.
  intros H. unfold clamped_std. apply Rmin_glb_lt; [|lra].
  now apply scaled_std_pos.
Qed.

Lemma clamped_std_le (C : matrix) (i : nat) : clamped_std C i <= 0.2.
Proof. unfold clamped_std. apply Rmin_r. Qed.

(** C7: [L] derived from the samples alone.  [C] is the empirical
    covariance of the transformed samples, a [D] by [D] array with positive
    variances.  The call returns; [L[i][j]] is [C[i][j]/9] multiplied by
    the ratio of the clamped to the unclamped standard deviations of the two
    axes; every marginal standard deviation [sqrt(L[i][i])] is the smaller
    of [sqrt(C[i][i]/9)] and 0.2, hence at most 0.2; the correlation matrix
    of [L] is that of [C]; an axis whose scaled standard deviation reaches
    0.2 gets exactly 0.2; and where no axis is clamped, [L] is [C/9]. *)
Theorem covariance_from_samples_is_scaled_and_clamped
  (bounds : list (R * R)) (s : samples_t) (df k : option R) (D : nat) :
  let ps := transform_rows transform_to_probit (as_rows s) bounds in
  let C := np_cov ps in
  square D C ->
  (forall i, (i < D)%nat -> 0 < entry C i i) ->
  exists L,
    get_priors bounds (Some s) None None None df k
    = Ok (match k with Some k => k | None => 1 / 100 end, L,
          df_out (length bounds) df, np_mean_axis0 ps)
    /\ (forall i j, (i < D)%nat -> (j < D)%nat ->
          entry L i j
          = entry C i j / 9 * (clamped_std C i * clamped_std C j)
            / (scaled_std C i * scaled_std C j))
    /\ (forall i, (i < D)%nat ->
          sqrt (entry L i i) = Rmin (sqrt (entry C i i / 9)) 0.2
          /\ sqrt (entry L i i) <= 0.2)
    /\ (forall i j, (i < D)%nat -> (j < D)%nat ->
          entry L i j / (sqrt (entry L i i) * sqrt (entry L j j))
          = entry C i j / (sqrt (entry C i i) * sqrt (entry C j j)))
    /\ (forall i, (i < D)%nat -> 0.2 <= sqrt (entry C i i / 9) ->
          sqrt (entry L i i) = 0.2)
    /\ (forall i j, (i < D)%nat -> (j < D)%nat ->
          sqrt (entry C i i / 9) <= 0.2 -> sqrt (entry C j j / 9) <= 0.2 ->
          entry L i j = entry C i j / 9).
Proof.
  intros ps C HC Hpos.
  exists (L_from_samples np_cov ps).
  assert (Hentry := fun i j => L_from_samples_entry D ps i j HC).
  fold C in Hentry.
  assert (Hdiag : forall i, (i < D)%nat ->
            sqrt (entry (L_from_samples np_cov ps) i i) = clamped_std C i).
  { intros i Hi. rewrite Hentry by assumption.
    pose proof (scaled_std_pos C i (Hpos i Hi)) as Hd.
    pose proof (clamped_std_pos C i (Hpos i Hi)) as Hs.
    rewrite <- (scaled_std_sqr C i (Hpos i Hi)).
    replace (scaled_std C i * scaled_std C i
             * (clamped_std C i * clamped_std C i)
             / (scaled_std C i * scaled_std C i))
      with (clamped_std C i * clamped_std C i) by (field; lra).
    apply sqrt_square. lra. }
  split; [reflexivity|]. split; [exact Hentry|]. split; [|split; [|split]].
  - intros i Hi. rewrite (Hdiag i Hi). split; [reflexivity|].
    apply clamped_std_le.
  - intros i j Hi Hj. rewrite (Hdiag i Hi), (Hdiag j Hj), Hentry by assumption.
    pose proof (clamped_std_pos C i (Hpos i Hi)).
    pose proof (clamped_std_pos C j (Hpos j Hj)).
    pose proof (scaled_std_pos C i (Hpos i Hi)) as Hdi.
    pose proof (scaled_std_pos C j (Hpos j Hj)) as Hdj.
    rewrite (scaled_std_third C i (Hpos i Hi)) in *.
    rewrite (scaled_std_third C j (Hpos j Hj)) in *.
    assert (0 < sqrt (entry C i i)) by lra.
    assert (0 < sqrt (entry C j j)) by lra.
    field. repeat split; lra.
  - intros i Hi Hbig. rewrite (Hdiag i Hi). unfold clamped_std, scaled_std.
    now apply Rmin_right.
  - intros i j Hi Hj Hsi Hsj. rewrite Hentry by assumption.
    pose proof (scaled_std_pos C i (Hpos i Hi)).
    pose proof (scaled_std_pos C j (Hpos j Hj)).
    unfold clamped_std. rewrite !Rmin_left by assumption.
    field. split; lra.
Qed.

End PriorsProps.

(** *** The properties of [get_priors] at concrete arguments *)

Section PriorsExamples.

Import Utils.
Local Open Scope R_scope.

Local Abbreviation demo_priors shift :=
  (get_priors Fixtures.logit_transform Fixtures.empirical_cov
              (Fixtures.shifted_rvs shift)).

Lemma degrees_of_freedom_above_D_plus_1_witness :
  exists k' L nu mu,
    demo_priors 0 [(-5, 5)] None None None None (Some 1) None
    = Ok (k', L, nu, mu)
    /\ 1 + 1 < nu /\ nu = 1 + 2.
Proof.
  eexists _, _, _, _. split; [reflexivity|].
  destruct (degrees_of_freedom_above_D_plus_1
              Fixtures.logit_transform Fixtures.empirical_cov
              (Fixtures.shifted_rvs 0)
              [(-5, 5)] None None None None (Some 1) None _ _ _ _ eq_refl)
    as (Habove & _ & Hlow & _).
  split; [exact Habove|].
  apply (Hlow 1 eq_refl). simpl. lra.
Defined.

Lemma explicit_mean_checked_and_transformed_witness :
  demo_priors 0 [(-5, 5)] None (Some [10]) None None None None
  = Raise (ValueError mean_outside_msg)
  /\ exists k' L nu,
       demo_priors 0 [(-5, 5)] None (Some [1]) None None None None
       = Ok (k', L, nu, Fixtures.logit_transform [1] [(-5, 5)]).
Proof.
  split.
  - apply (proj1 (explicit_mean_checked_and_transformed
                    Fixtures.logit_transform Fixtures.empirical_cov
                    (Fixtures.shifted_rvs 0)
                    [(-5, 5)] None [10] None None None None eq_refl)).
    intros H. inversion H as [|? ? ? ? [_ Hhi] _]; subst.
    simpl in Hhi. lra.
  - apply (proj2 (explicit_mean_checked_and_transformed
                    Fixtures.logit_transform Fixtures.empirical_cov
                    (Fixtures.shifted_rvs 0)
                    [(-5, 5)] None [1] None None None None eq_refl));
      [|reflexivity|reflexivity].
    constructor; [simpl; lra|constructor].
Defined.

Lemma filter_repeat_none {A} (keep : A -> bool) (x : A) (n : nat) :
  keep x = false -> filter keep (repeat x n) = [].
Proof.
  intros H. induction n as [|n IH]; [reflexivity|].
  cbn [repeat filter]. now rewrite H.
Qed.

(** C2 fails as stated.  On the box [[0, 1]] with a standard deviation of
    a million, let every one of the 10000 draws land at 10.5, outside the
    box.  No draw is retained, and the call returns all the same, with
    [np.cov] of an empty sample as [L]. *)
Lemma no_draw_retained_and_priors_returned :
  exists L0 draws k' nu mu,
    L_out Fixtures.empirical_cov 1 None (Some [1000000]) None = Ok (L0, true)
    /\ Fixtures.shifted_rvs 10 [(0 + 1) / 2] L0 n_mc_draws = Ok draws
    /\ length draws = n_mc_draws
    /\ filter (within_bounds [(0, 1)]) draws = []
    /\ demo_priors 10 [(0, 1)] None None (Some [1000000]) None None None
       = Ok (k', Fixtures.empirical_cov [], nu, mu).
Proof.
  assert (Hout : filter (within_bounds [(0, 1)])
                        (repeat [(0 + 1) / 2 + 10] n_mc_draws) = []).
  { apply filter_repeat_none. unfold within_bounds. cbn [combine map fst snd].
    replace (Rltb ((0 + 1) / 2 + 10) 1) with false
      by (symmetry; apply Rltb_false; lra).
    unfold np_prod. cbn [forallb]. now rewrite andb_false_r. }
  eexists _, _, _, _, _.
  split; [reflexivity|]. split; [reflexivity|].
  split; [apply repeat_length|]. split; [exact Hout|].
  apply get_priors_Ok. eexists _, _, true, _.
  split; [reflexivity|]. split; [reflexivity|]. split; [|reflexivity].
  unfold redraw, Fixtures.shifted_rvs. cbn [Py.bind map fst snd].
  rewrite Hout. reflexivity.
Qed.

Lemma monte_carlo_estimate_has_no_count_guard_witness :
  exists L,
    demo_priors 0 [(0, 1)] None None (Some [1000000]) None None None
    = Ok (1 / 100, L, 1 + 2, [0]).
Proof.
  eexists.
  apply (proj2 (monte_carlo_estimate_has_no_count_guard
                  Fixtures.logit_transform Fixtures.empirical_cov
                  (Fixtures.shifted_rvs 0)
                  [(0, 1)] None None (Some [1000000]) None None None
                  [0] _ _ _
                  (or_intror (fun H => eq_ind (Some [1000000])
                     (fun o => match o with Some _ => True | None => False end)
                     I None H))
                  eq_refl eq_refl eq_refl)).
Defined.

(** Two samples, 1 and 3, in the box [[0, 4]]: their logits differ, so
    the empirical variance is positive. *)
Lemma two_samples_have_positive_variance (i : nat) :
  (i < 1)%nat ->
  0 < entry (Fixtures.empirical_cov
               (transform_rows Fixtures.logit_transform
                  (as_rows (Samples1D [1; 3])) [(0, 4)])) i i.
Proof.
  intros Hi. assert (i = O) by lia. subst i.
  unfold entry, Fixtures.empirical_cov, transform_rows,
    Fixtures.logit_transform. simpl.
  assert (Hab : ln ((1 - 0) / (4 - 1)) < ln ((3 - 0) / (4 - 3)))
    by (apply ln_increasing; lra).
  set (a := ln ((1 - 0) / (4 - 1))) in *.
  set (b := ln ((3 - 0) / (4 - 3))) in *.
  apply Rdiv_lt_0_compat; [nra|lra].
Qed.

Lemma covariance_from_samples_is_scaled_and_clamped_witness :
  exists L,
    demo_priors 0 [(0, 4)] (Some (Samples1D [1; 3])) None None None None None
    = Ok (1 / 100, L, 1 + 2,
          np_mean_axis0 (transform_rows Fixtures.logit_transform
                           [[1]; [3]] [(0, 4)]))
    /\ sqrt (entry L 0 0) <= 0.2.
Proof.
  destruct (covariance_from_samples_is_scaled_and_clamped
              Fixtures.logit_transform Fixtures.empirical_cov
              (Fixtures.shifted_rvs 0)
              [(0, 4)] (Samples1D [1; 3]) None None 1)
    as (L & HL & _ & Hstd & _).
  - split; [reflexivity|]. constructor; [reflexivity|constructor].
  - exact two_samples_have_positive_variance.
  - exists L. split; [exact HL|]. exact (proj2 (Hstd O Nat.lt_0_1)).
Defined.

End PriorsExamples.

(* ================================================================== *)
(** * Further properties of the code                                    *)
(* ================================================================== *)

(** ** Crossings and endpoints ([pipelines/entropy.py], lines 156-175) *)

Section EndpointProps.

Import Entropy.
Local Open Scope Z_scope.

Lemma np_where_from_range (v : list Z) (k : Z) :
  Forall (fun i => k <= i < k + Z.of_nat (length v)) (np_where_from k v).
Proof.
  revert k. induction v as [|x t IH]; intros k; simpl; [constructor|].
  assert (Ht : Forall (fun i => k <= i < k + Z.pos (Pos.of_succ_nat (length t)))
                      (np_where_from (k + 1) t)).
  { eapply Forall_impl; [|apply IH]. intros i Hi. simpl in Hi. lia. }
  destruct (x =? 0); [exact Ht|]. constructor; [lia|exact Ht].
Qed.

Lemma np_where_from_sorted (v : list Z) (k : Z) :
  StronglySorted Z.lt (np_where_from k v).
Proof.
  revert k. induction v as [|x t IH]; intros k; simpl; [constructor|].
  destruct (x =? 0); [apply IH|]. constructor; [apply IH|].
  eapply Forall_impl; [|apply np_where_from_range]. intros i Hi. simpl in Hi.
  lia.
Qed.

Lemma np_diff_length (l : list Z) : length (np_diff l) = (length l - 1)%nat.
Proof.
  induction l as [|a [|b t] IH]; try reflexivity.
  change (np_diff (a :: b :: t)) with ((b - a) :: np_diff (b :: t)).
  simpl length in *. lia.
Qed.

Lemma np_where_from_length (v : list Z) (k : Z) :
  (length (np_where_from k v) <= length v)%nat.
Proof.
  revert k. induction v as [|x t IH]; intros k; simpl; [lia|].
  specialize (IH (k + 1)). destruct (x =? 0); simpl; lia.
Qed.

(** In a strictly increasing list of integers from [k] on, the entry at
    position [j] is at least [k + j]. *)
Lemma sorted_nth_lower (l : list Z) (k : Z) :
  StronglySorted Z.lt l -> Forall (fun i => k <= i) l ->
  forall j, (j < length l)%nat -> k + Z.of_nat j <= nth j l 0.
Proof.
  intros Hs. revert k. induction Hs as [|a l Hs IH Ha]; intros k Hk j Hj.
  - simpl in Hj. lia.
  - inversion Hk as [|? ? Hka _]; subst. destruct j as [|j]; simpl.
    + lia.
    + simpl in Hj.
      assert (Hl : Forall (fun i => k + 1 <= i) l).
      { eapply Forall_impl; [|exact Ha]. intros i Hi. simpl in Hi. lia. }
      specialize (IH (k + 1) Hl j ltac:(lia)). lia.
Qed.

(** X1: the offsets that the scan reports are strictly increasing, lie
    between 0 and [len(ac) - 2], and there are at most [len(ac) - 1] of
    them; so the crossing at 0-based position [j] is at offset [j] or
    later. *)
Theorem crossing_offsets_increasing_and_bounded (ac : list Q) :
  StronglySorted Z.lt (crossing_offsets ac)
  /\ Forall (fun o => 0 <= o <= Z.of_nat (length ac) - 2) (crossing_offsets ac)
  /\ (length (crossing_offsets ac) <= length ac - 1)%nat
  /\ (forall j, (j < length (crossing_offsets ac))%nat ->
        Z.of_nat j <= nth j (crossing_offsets ac) 0).
Proof.
  unfold crossing_offsets, np_where.
  pose proof (np_where_from_range (np_diff (map np_sign ac)) 0) as Hr.
  pose proof (np_where_from_sorted (np_diff (map np_sign ac)) 0) as Hs.
  pose proof (np_where_from_length (np_diff (map np_sign ac)) 0) as Hl.
  rewrite np_diff_length, length_map in *.
  split; [exact Hs|]. split; [|split; [exact Hl|]].
  - eapply Forall_impl; [|exact Hr]. intros o Ho. simpl in Ho. lia.
  - intros j Hj.
    apply (sorted_nth_lower _ 0 Hs); [|exact Hj].
    eapply Forall_impl; [|exact Hr]. intros o Ho. simpl in Ho. lia.
Qed.

Lemma endpoints_loop_spec (k : Z) (zcs : list (list Z)) :
  0 <= k ->
  forall endpoints flag,
    endpoints_loop k zcs endpoints flag
    = (endpoints
       ++ map (fun zc => nth (Z.to_nat k) zc 0)
              (filter (fun zc => k <? Z.of_nat (length zc)) zcs),
       flag || existsb (fun zc => Z.of_nat (length zc) <=? k) zcs).
Proof.
  intros Hk. induction zcs as [|zc rest IH]; intros endpoints flag.
  - simpl. now rewrite app_nil_r, orb_false_r.
  - cbn [endpoints_loop filter existsb].
    rewrite (index_nonneg zc k 0 Hk).
    destruct (Z.ltb_spec k (Z.of_nat (length zc))) as [Hlt|Hge].
    + destruct (Z.leb_spec (Z.of_nat (length zc)) k); [lia|].
      rewrite IH. cbn [map orb]. now rewrite <- app_assoc.
    + destruct (Z.leb_spec (Z.of_nat (length zc)) k); [|lia].
      rewrite IH. cbn [orb]. now rewrite !orb_true_r.
Qed.

(** X2: for a non-negative [zero_crossings = k] and any number of runs,
    the endpoints are, in run order, the entries at 0-based position [k] of
    exactly the runs that have more than [k] crossings; the flag is raised
    exactly when some run has at most [k] crossings; and [EP] is [None]
    exactly when no run has more than [k] crossings. *)
Theorem collect_endpoints_all_runs (k : Z) (zcs : list (list Z)) :
  0 <= k ->
  collect_endpoints k zcs
  = (map (fun zc => nth (Z.to_nat k) zc 0)
         (filter (fun zc => k <? Z.of_nat (length zc)) zcs),
     existsb (fun zc => Z.of_nat (length zc) <=? k) zcs)
  /\ (EP_of (fst (collect_endpoints k zcs)) = None <->
      Forall (fun zc => Z.of_nat (length zc) <= k) zcs).
Proof.
  intros Hk. unfold collect_endpoints.
  rewrite (endpoints_loop_spec k zcs Hk). cbn [app orb fst].
  split; [reflexivity|].
  induction zcs as [|zc rest IH]; cbn [filter map].
  - simpl. split; [constructor|reflexivity].
  - destruct (Z.ltb_spec k (Z.of_nat (length zc))) as [Hlt|Hge].
    + cbn [map EP_of]. split; [discriminate|].
      intros H. inversion H; subst. lia.
    + rewrite IH. split.
      * intros H. constructor; assumption.
      * intros H. now inversion H.
Qed.

Lemma collect_endpoints_all_runs_witness :
  collect_endpoints 1 [[200; 203]; [201]; [204; 207; 209]]
  = ([203; 207], true).
Proof.
  exact (proj1 (collect_endpoints_all_runs 1
                  [[200; 203]; [201]; [204; 207; 209]] ltac:(lia))).
Defined.






End EndpointProps.

(** ** One reconstruction run ([pipelines/entropy.py], lines 107-118) *)

Section RunProps.

Import Entropy.

Context {sample mix_t draw_t rng_t : Type}.
Variable initialise : mix_t -> mix_t.
Variable add_new_point : mix_t -> sample -> mix_t.
Variable build_mixture : mix_t -> draw_t.
Variable compute_entropy_single_draw : mix_t -> Q.
Variable shuffle : rng_t -> list sample -> list sample * rng_t.

Local Abbreviation ingest I :=
  (ingest add_new_point compute_entropy_single_draw (Z.of_nat I)).
Local Abbreviation run :=
  (run initialise add_new_point build_mixture compute_entropy_single_draw
       shuffle).
Local Abbreviation runs :=
  (runs initialise add_new_point build_mixture compute_entropy_single_draw
        shuffle).

Lemma setitem_Ok {A} (l : list A) (k : nat) (v d : A) :
  (k < length l)%nat ->
  exists l', Py.setitem l k v = Ok l'
             /\ length l' = length l
             /\ nth k l' d = v
             /\ (forall q, q <> k -> nth q l' d = nth q l d).
Proof.
  intros Hk. unfold Py.setitem.
  destruct (Nat.ltb_spec k (length l)) as [_|]; [|lia].
  eexists. split; [reflexivity|].
  assert (Hf : length (firstn k l) = k) by (rewrite length_firstn; lia).
  split; [|split].
  - rewrite length_app, Hf. cbn [length]. rewrite length_skipn. lia.
  - rewrite app_nth2 by lia. rewrite Hf, Nat.sub_diag. reflexivity.
  - intros q Hq. destruct (Nat.lt_ge_cases q k) as [Hlt|Hge].
    + rewrite app_nth1 by lia. now rewrite nth_firstn, (proj2 (Nat.ltb_lt q k)).
    + rewrite app_nth2 by lia. rewrite Hf.
      destruct (q - k)%nat as [|r] eqn:Er; [lia|].
      cbn [nth]. rewrite nth_skipn. f_equal. lia.
Qed.

Lemma setitem_fails {A} (l : list A) (k : nat) (v : A) :
  (length l <= k)%nat -> Py.setitem l k v = Raise IndexError.
Proof.
  intros Hk. unfold Py.setitem.
  destruct (Nat.ltb_spec k (length l)); [lia|reflexivity].
Qed.

Lemma setitem_int_nat {A} (l : list A) (k : nat) (v : A) :
  Py.setitem_int l (Z.of_nat k) v = Py.setitem l k v.
Proof.
  unfold Py.setitem_int.
  destruct (Z.ltb_spec (Z.of_nat k) 0) as [|_]; [lia|].
  destruct (Z.leb_spec 0 (Z.of_nat k)) as [_|]; [|lia]. cbn [andb].
  destruct (Z.ltb_spec (Z.of_nat k) (Z.of_nat (length l))) as [H|H].
  - now rewrite Nat2Z.id.
  - unfold Py.setitem. destruct (Nat.ltb_spec k (length l)); [lia|].
    reflexivity.
Qed.

(** One step of [ingest] for a positive interval, in natural numbers. *)
Lemma ingest_cons (I i : nat) (s : sample) (rest : list sample)
  (m : mix_t) (S_ n_eval : list Q) :
  (0 < I)%nat ->
  ingest I i (s :: rest) m S_ n_eval
  = if (i mod I =? 0)%nat then
      (S_ <- Py.setitem S_ (i / I)%nat
               (compute_entropy_single_draw (add_new_point m s)) ;;
       n_eval <- Py.setitem n_eval (i / I)%nat (inject_Z (Z.of_nat i)) ;;
       ingest I (S i) rest (add_new_point m s) S_ n_eval)%py
    else ingest I (S i) rest (add_new_point m s) S_ n_eval.
Proof.
  intros HI. cbn [Entropy.ingest].
  rewrite <- Nat2Z.inj_mod, <- Nat2Z.inj_div, !setitem_int_nat.
  destruct (Nat.eqb_spec (i mod I) 0) as [E|E].
  - rewrite E. reflexivity.
  - destruct (Z.eqb_spec (Z.of_nat (i mod I)) 0); [lia|reflexivity].
Qed.

Lemma multiple_iff (I i q : nat) :
  (0 < I)%nat -> (i mod I = 0)%nat -> (q * I = i <-> q = i / I)%nat.
Proof.
  intros HI Hi. pose proof (Nat.div_mod_eq i I) as E. rewrite Hi in E.
  split; intros H.
  - subst i. now rewrite Nat.div_mul by lia.
  - subst q. lia.
Qed.

(** [ingest] when every write falls inside the arrays: the mixture has
    seen all the points, and position [q] of the two arrays was written
    exactly if [q * I] is one of the positions ingested. *)
Lemma ingest_Ok (I sz : nat) :
  (0 < I)%nat ->
  forall todo i m S_ n_eval,
    length S_ = sz -> length n_eval = sz ->
    (forall j, (i <= j < i + length todo)%nat -> (j mod I = 0)%nat ->
               (j / I < sz)%nat) ->
    exists S' n',
      ingest I i todo m S_ n_eval
      = Ok (fold_left add_new_point todo m, S', n')
      /\ length S' = sz /\ length n' = sz
      /\ (forall q,
            ((i <= q * I < i + length todo)%nat ->
               nth q n' 0%Q = inject_Z (Z.of_nat (q * I))
               /\ nth q S' 0%Q
                  = compute_entropy_single_draw
                      (fold_left add_new_point
                                 (firstn (q * I - i + 1) todo) m))
            /\ (~ (i <= q * I < i + length todo)%nat ->
                  nth q n' 0%Q = nth q n_eval 0%Q
                  /\ nth q S' 0%Q = nth q S_ 0%Q)).
Proof.
  intros HI. induction todo as [|s rest IH]; intros i m S_ n_eval HS Hn Hin.
  - exists S_, n_eval. split; [reflexivity|]. split; [exact HS|].
    split; [exact Hn|]. intros q. split; [simpl; lia|auto].
  - rewrite ingest_cons by exact HI. cbn [fold_left].
    set (m1 := add_new_point m s).
    assert (Hrest : forall j, (S i <= j < S i + length rest)%nat ->
                      (j mod I = 0)%nat -> (j / I < sz)%nat).
    { intros j Hj. apply Hin. simpl length. lia. }
    destruct (Nat.eqb_spec (i mod I) 0) as [Hi0|Hi0].
    + assert (Hk : (i / I < sz)%nat) by (apply Hin; [simpl length; lia|exact Hi0]).
      destruct (setitem_Ok S_ (i / I) (compute_entropy_single_draw m1) 0%Q
                  ltac:(lia)) as (S1 & -> & HS1 & HS1k & HS1o).
      destruct (setitem_Ok n_eval (i / I) (inject_Z (Z.of_nat i)) 0%Q
                  ltac:(lia)) as (n1 & -> & Hn1 & Hn1k & Hn1o).
      cbn [Py.bind].
      destruct (IH (S i) m1 S1 n1 ltac:(lia) ltac:(lia) Hrest)
        as (S' & n' & -> & HS' & Hn' & Hq).
      exists S', n'. split; [reflexivity|]. split; [exact HS'|].
      split; [exact Hn'|]. intros q. specialize (Hq q).
      destruct Hq as [Hq_in Hq_out]. simpl length.
      pose proof (multiple_iff I i q HI Hi0) as Hmul.
      split.
      * intros Hr. destruct (Nat.eq_dec (q * I) i) as [E|E].
        -- destruct (Hq_out ltac:(lia)) as [E1 E2]. rewrite E1, E2.
           apply Hmul in E. subst q. rewrite Hn1k, HS1k.
           replace (i / I * I - i + 1)%nat with 1%nat
             by (pose proof (Nat.div_mod_eq i I); lia).
           split; [|reflexivity].
           do 2 f_equal. pose proof (Nat.div_mod_eq i I). lia.
        -- destruct (Hq_in ltac:(lia)) as [E1 E2]. rewrite E1, E2.
           split; [reflexivity|].
           replace (q * I - i + 1)%nat with (S (q * I - S i + 1)) by lia.
           reflexivity.
      * intros Hr. destruct (Hq_out ltac:(lia)) as [E1 E2]. rewrite E1, E2.
        assert (q <> i / I)%nat by (intros E; apply Hmul in E; lia).
        now rewrite Hn1o, HS1o.
    + destruct (IH (S i) m1 S_ n_eval HS Hn Hrest)
        as (S' & n' & -> & HS' & Hn' & Hq).
      exists S', n'. split; [reflexivity|]. split; [exact HS'|].
      split; [exact Hn'|]. intros q. specialize (Hq q).
      destruct Hq as [Hq_in Hq_out]. simpl length.
      assert (Hne : (q * I <> i)%nat).
      { intros E. apply Hi0. rewrite <- E. apply Nat.Div0.mod_mul. }
      split.
      * intros Hr. destruct (Hq_in ltac:(lia)) as [E1 E2]. rewrite E1, E2.
        split; [reflexivity|].
        replace (q * I - i + 1)%nat with (S (q * I - S i + 1)) by lia.
        reflexivity.
      * intros Hr. apply Hq_out. lia.
Qed.

(** [ingest] when some write falls outside the arrays. *)
Lemma ingest_IndexError (I sz : nat) :
  (0 < I)%nat ->
  forall todo i m S_ n_eval,
    length S_ = sz -> length n_eval = sz ->
    (exists j, (i <= j < i + length todo)%nat /\ (j mod I = 0)%nat
               /\ (sz <= j / I)%nat) ->
    ingest I i todo m S_ n_eval = Raise IndexError.
Proof.
  intros HI. induction todo as [|s rest IH];
    intros i m S_ n_eval HS Hn (j & Hj & Hj0 & Hjsz).
  - simpl in Hj. lia.
  - rewrite ingest_cons by exact HI. simpl length in Hj.
    destruct (Nat.eqb_spec (i mod I) 0) as [Hi0|Hi0].
    + destruct (Nat.lt_ge_cases (i / I) sz) as [Hk|Hk].
      * destruct (setitem_Ok S_ (i / I)
                    (compute_entropy_single_draw (add_new_point m s)) 0%Q
                    ltac:(lia)) as (S1 & -> & HS1 & _).
        destruct (setitem_Ok n_eval (i / I) (inject_Z (Z.of_nat i)) 0%Q
                    ltac:(lia)) as (n1 & -> & Hn1 & _).
        cbn [Py.bind]. apply IH; try lia.
        exists j. repeat split; try assumption; try lia.
        assert (j <> i) by (intros ->; lia). lia.
      * rewrite setitem_fails by lia. reflexivity.
    + apply IH; try assumption.
      exists j. repeat split; try assumption; try lia.
      assert (j <> i) by (intros ->; contradiction). lia.
Qed.

Hypothesis shuffle_keeps_length :
  forall g l, length (fst (shuffle g l)) = length l.

(** A run for a positive interval, in natural numbers. *)
Lemma run_pos (I : nat) (st : state) :
  (0 < I)%nat ->
  run (Z.of_nat I) st
  = (let size := (length (samples st) / I)%nat in
     let '(shuffled, g) := shuffle (rng st) (samples st) in
     ('(m, S_, n_eval) <- ingest I 0 shuffled (initialise (mix st))
                                 (repeat 0%Q size) (repeat 0%Q size) ;;
      Ok {| samples := shuffled;
            mix := m;
            rng := g;
            draws := draws st ++ [build_mixture m];
            entropy := entropy st ++ [S_];
            n_eval_S := n_eval |})%py).
Proof.
  intros HI. unfold Entropy.run.
  destruct (Z.eqb_spec (Z.of_nat I) 0); [lia|].
  rewrite <- Nat2Z.inj_div.
  destruct (Z.ltb_spec (Z.of_nat (length (samples st) / I)) 0); [lia|].
  rewrite Nat2Z.id. reflexivity.
Qed.

(** The indices and the entropies that a complete run records. *)
Lemma run_Ok_trace (I : nat) (st : state) :
  (0 < I)%nat -> (length (samples st) mod I = 0)%nat ->
  exists st',
    run (Z.of_nat I) st = Ok st'
    /\ samples st' = fst (shuffle (rng st) (samples st))
    /\ n_eval_S st'
       = map (fun q => inject_Z (Z.of_nat (q * I)))
             (seq 0 (length (samples st) / I))
    /\ entropy st'
       = entropy st
         ++ [map (fun q => compute_entropy_single_draw
                             (fold_left add_new_point
                                (firstn (q * I + 1) (samples st'))
                                (initialise (mix st))))
                 (seq 0 (length (samples st) / I))]
    /\ draws st'
       = draws st
         ++ [build_mixture (fold_left add_new_point (samples st')
                                      (initialise (mix st)))].
Proof.
  intros HI Hdiv. rewrite run_pos by exact HI. cbv zeta.
  pose proof (shuffle_keeps_length (rng st) (samples st)) as Hlen.
  destruct (shuffle (rng st) (samples st)) as [shuffled g]. cbn [fst] in Hlen.
  set (N := length (samples st)) in *. set (sz := (N / I)%nat).
  assert (HN : (N = sz * I)%nat).
  { unfold sz. pose proof (Nat.div_mod_eq N I). lia. }
  destruct (ingest_Ok I sz HI shuffled 0 (initialise (mix st))
              (repeat 0%Q sz) (repeat 0%Q sz)
              (repeat_length _ _) (repeat_length _ _))
    as (S' & n' & -> & HS' & Hn' & Hq).
  { intros j Hj _. apply Nat.Div0.div_lt_upper_bound. lia. }
  cbn [Py.bind]. eexists. split; [reflexivity|]. cbn.
  split; [reflexivity|].
  assert (Hin : forall q, (q < sz)%nat ->
                  (0 <= q * I < 0 + length shuffled)%nat).
  { intros q Hq'. rewrite Hlen, HN. split; [lia|].
    apply Nat.mul_lt_mono_pos_r; lia. }
  split; [|split; [|reflexivity]].
  - apply (nth_ext _ _ 0%Q 0%Q).
    + now rewrite length_map, length_seq.
    + intros q Hq'. rewrite Hn' in Hq'.
      rewrite (nth_map_lt _ _ _ O) by now rewrite length_seq.
      rewrite seq_nth by assumption.
      exact (proj1 (proj1 (Hq q) (Hin q Hq'))).
  - f_equal. f_equal. apply (nth_ext _ _ 0%Q 0%Q).
    + now rewrite length_map, length_seq.
    + intros q Hq'. rewrite HS' in Hq'.
      rewrite (nth_map_lt _ _ _ O) by now rewrite length_seq.
      rewrite seq_nth by assumption. cbn [Nat.add].
      rewrite (proj2 (proj1 (Hq q) (Hin q Hq'))).
      now rewrite Nat.sub_0_r.
Qed.

Lemma run_IndexError (I : nat) (st : state) :
  (0 < I)%nat -> (length (samples st) mod I <> 0)%nat ->
  run (Z.of_nat I) st = Raise IndexError.
Proof.
  intros HI Hrem. rewrite run_pos by exact HI. cbv zeta.
  pose proof (shuffle_keeps_length (rng st) (samples st)) as Hlen.
  destruct (shuffle (rng st) (samples st)) as [shuffled g].
  cbn [fst] in Hlen.
  set (N := length (samples st)) in *.
  rewrite (ingest_IndexError I (N / I) HI); [reflexivity| | |].
  - apply repeat_length.
  - apply repeat_length.
  - exists (N / I * I)%nat. pose proof (Nat.div_mod_eq N I).
    pose proof (Nat.mod_upper_bound N I ltac:(lia)).
    split; [lia|]. split; [apply Nat.Div0.mod_mul|].
    rewrite Nat.div_mul by lia. lia.
Qed.

Lemma negative_quotient (N interval : Z) :
  (0 < N -> interval < 0 -> N / interval < 0)%Z.
Proof.
  intros HN HI. pose proof (Z.div_mod N interval ltac:(lia)) as E.
  pose proof (Z.mod_neg_bound N interval HI) as Hr. nia.
Qed.

Lemma divides_nat (N : nat) (interval : Z) :
  (0 < interval)%Z ->
  ((Z.of_nat N mod interval = 0)%Z <-> (N mod Z.to_nat interval = 0)%nat)
  /\ Z.to_nat (Z.of_nat N / interval) = (N / Z.to_nat interval)%nat.
Proof.
  intros HI. rewrite <- (Z2Nat.id interval) at 1 3 by lia.
  rewrite <- Nat2Z.inj_mod, <- Nat2Z.inj_div, Nat2Z.id. split; [lia|reflexivity].
Qed.

(** A run with a negative interval over no sample. *)
Lemma run_negative_empty (interval : Z) (st : state) :
  (interval < 0)%Z -> samples st = [] ->
  run interval st
  = Ok {| samples := fst (shuffle (rng st) []);
          mix := initialise (mix st);
          rng := snd (shuffle (rng st) []);
          draws := draws st ++ [build_mixture (initialise (mix st))];
          entropy := entropy st ++ [[]];
          n_eval_S := [] |}.
Proof.
  intros HI Hs. unfold Entropy.run. rewrite Hs.
  destruct (Z.eqb_spec interval 0); [lia|].
  cbn [length Z.of_nat]. rewrite Z.div_0_l by lia. cbn [Z.ltb Z.compare].
  pose proof (shuffle_keeps_length (rng st) []) as Hlen.
  destruct (shuffle (rng st) []) as [shuffled g]. cbn [fst snd] in *.
  destruct shuffled; [reflexivity|discriminate].
Qed.

(** X4: when a run completes.  The entropy interval is the integer of the
    option, [N] the number of samples.  With interval 0 the run raises
    [ZeroDivisionError]; with a negative interval and at least one sample
    [np.zeros] raises [ValueError]; with a positive interval that leaves a
    remainder the run raises [IndexError], because the arrays have
    [N // interval] places and the loop writes one more.  With a positive
    interval that divides [N] the run returns, the recorded indices are
    [0, I, 2I, ...], entry [q] of the new row of the entropy table is the
    entropy of the mixture that was initialised and fed the first
    [q*I + 1] samples of the shuffled array, and the new draw is the
    mixture fed all of them.  The only other run that returns is the one
    with a negative interval over no sample, which records nothing. *)
Theorem run_completes_iff_interval_divides (interval : Z) (st : state) :
  let N := Z.of_nat (length (samples st)) in
  (interval = 0%Z -> run interval st = Raise ZeroDivisionError)
  /\ ((interval < 0)%Z -> N <> 0%Z ->
      run interval st = Raise (ValueError negative_dimensions_msg))
  /\ ((0 < interval)%Z -> (N mod interval)%Z <> 0%Z ->
      run interval st = Raise IndexError)
  /\ ((0 < interval)%Z -> (N mod interval)%Z = 0%Z ->
      exists st',
        run interval st = Ok st'
        /\ n_eval_S st'
           = map (fun q => inject_Z (Z.of_nat q * interval))
                 (seq 0 (Z.to_nat (N / interval)))
        /\ entropy st'
           = entropy st
             ++ [map (fun q => compute_entropy_single_draw
                                 (fold_left add_new_point
                                    (firstn (Z.to_nat
                                               (Z.of_nat q * interval + 1))
                                            (samples st'))
                                    (initialise (mix st))))
                     (seq 0 (Z.to_nat (N / interval)))]
        /\ draws st'
           = draws st
             ++ [build_mixture (fold_left add_new_point (samples st')
                                          (initialise (mix st)))])
  /\ ((interval < 0)%Z -> N = 0%Z ->
      exists st',
        run interval st = Ok st'
        /\ n_eval_S st' = [] /\ entropy st' = entropy st ++ [[]]
        /\ draws st' = draws st ++ [build_mixture (initialise (mix st))])
  /\ ((exists st', run interval st = Ok st')
      <-> ((0 < interval)%Z /\ (N mod interval)%Z = 0%Z)
          \/ ((interval < 0)%Z /\ N = 0%Z)).
Proof.
  intros N.
  assert (H0 : interval = 0%Z -> run interval st = Raise ZeroDivisionError)
    by (intros ->; reflexivity).
  assert (Hneg : (interval < 0)%Z -> N <> 0%Z ->
                 run interval st = Raise (ValueError negative_dimensions_msg)).
  { intros HI HN. unfold Entropy.run.
    destruct (Z.eqb_spec interval 0); [lia|]. fold N.
    pose proof (negative_quotient N interval ltac:(lia) HI).
    destruct (Z.ltb_spec (N / interval) 0); [reflexivity|lia]. }
  assert (Hrem : (0 < interval)%Z -> (N mod interval)%Z <> 0%Z ->
                 run interval st = Raise IndexError).
  { intros HI Hr.
    destruct (divides_nat (length (samples st)) interval HI) as [Hd _].
    rewrite <- (Z2Nat.id interval) by lia.
    apply run_IndexError; [lia|]. intros E. apply Hr, Hd, E. }
  assert (Hok : (0 < interval)%Z -> (N mod interval)%Z = 0%Z ->
      exists st',
        run interval st = Ok st'
        /\ n_eval_S st'
           = map (fun q => inject_Z (Z.of_nat q * interval))
                 (seq 0 (Z.to_nat (N / interval)))
        /\ entropy st'
           = entropy st
             ++ [map (fun q => compute_entropy_single_draw
                                 (fold_left add_new_point
                                    (firstn (Z.to_nat
                                               (Z.of_nat q * interval + 1))
                                            (samples st'))
                                    (initialise (mix st))))
                     (seq 0 (Z.to_nat (N / interval)))]
        /\ draws st'
           = draws st
             ++ [build_mixture (fold_left add_new_point (samples st')
                                          (initialise (mix st)))]).
  { intros HI Hdiv.
    destruct (divides_nat (length (samples st)) interval HI) as [Hd Hq].
    destruct (run_Ok_trace (Z.to_nat interval) st ltac:(lia)
                (proj1 Hd Hdiv)) as (st' & H1 & _ & H3 & H4 & H5).
    rewrite Z2Nat.id in H1 by lia.
    exists st'. split; [exact H1|]. unfold N. rewrite Hq.
    split; [|split; [|exact H5]].
    - rewrite H3. apply map_ext. intros q.
      rewrite Nat2Z.inj_mul, Z2Nat.id by lia. reflexivity.
    - rewrite H4. do 2 f_equal. apply map_ext. intros q.
      do 3 f_equal. lia. }
  assert (Hempty : (interval < 0)%Z -> N = 0%Z ->
      exists st',
        run interval st = Ok st'
        /\ n_eval_S st' = [] /\ entropy st' = entropy st ++ [[]]
        /\ draws st' = draws st ++ [build_mixture (initialise (mix st))]).
  { intros HI HN.
    assert (Hs : samples st = [])
      by (destruct (samples st); [reflexivity|unfold N in HN;
                                               cbn [length] in HN; lia]).
    eexists. split; [apply (run_negative_empty interval st HI Hs)|].
    cbn. auto. }
  split; [exact H0|]. split; [exact Hneg|]. split; [exact Hrem|].
  split; [exact Hok|]. split; [exact Hempty|]. split.
  - intros [st' Hrun].
    destruct (Z.lt_trichotomy interval 0) as [HI|[HI|HI]].
    + right. split; [exact HI|].
      destruct (Z.eq_dec N 0) as [E|E]; [exact E|].
      rewrite (Hneg HI E) in Hrun. discriminate.
    + rewrite (H0 HI) in Hrun. discriminate.
    + left. split; [lia|].
      destruct (Z.eq_dec (N mod interval) 0) as [E|E]; [exact E|].
      rewrite (Hrem ltac:(lia) E) in Hrun. discriminate.
  - intros [[HI Hdiv]|[HI HN]].
    + destruct (Hok HI Hdiv) as (st' & H & _). eauto.
    + destruct (Hempty HI HN) as (st' & H & _). eauto.
Qed.

Lemma runs_complete (I n_draws : nat) (st : state) :
  (0 < I)%nat -> (length (samples st) mod I = 0)%nat ->
  exists st' new_draws new_rows,
    runs n_draws (Z.of_nat I) st = Ok st'
    /\ draws st' = draws st ++ new_draws
    /\ entropy st' = entropy st ++ new_rows
    /\ length new_draws = n_draws
    /\ length new_rows = n_draws
    /\ Forall (fun row => length row = (length (samples st) / I)%nat) new_rows
    /\ length (samples st') = length (samples st).
Proof.
  intros HI. revert st. induction n_draws as [|n IH]; intros st Hdiv.
  - exists st, [], []. cbn [Entropy.runs]. rewrite !app_nil_r.
    repeat split; auto.
  - destruct (run_Ok_trace I st HI Hdiv) as (st1 & H1 & Hs & _ & He & Hd).
    assert (Hlen : length (samples st1) = length (samples st))
      by (rewrite Hs; apply shuffle_keeps_length).
    destruct (IH st1 ltac:(now rewrite Hlen))
      as (st' & ds & rows & Hr & Hds & Hrows & Hnd & Hnr & Hall & Hsl).
    cbn [Entropy.runs]. rewrite H1. cbn [Py.bind]. rewrite Hr.
    rewrite Hd in Hds. rewrite He in Hrows.
    rewrite <- app_assoc in Hds, Hrows.
    eexists st', _, _. split; [reflexivity|].
    split; [exact Hds|]. split; [exact Hrows|].
    split; [simpl; lia|]. split; [simpl; lia|]. split; [|congruence].
    constructor.
    + now rewrite length_map, length_seq.
    + now rewrite Hlen in Hall.
Qed.

(** X5: [n_draws] runs.  With a positive entropy interval that divides the
    number [N] of samples all the runs complete; they add one draw and one
    row of [N // interval] entropies each, in order, and keep the number
    of samples.  Otherwise already the first run raises: [IndexError] for
    a positive interval that leaves a remainder, [ValueError] for a
    negative interval and at least one sample, [ZeroDivisionError] for an
    interval of 0. *)
Theorem runs_add_one_draw_and_one_trace_each
  (interval : Z) (n_draws : nat) (st : state) :
  let N := Z.of_nat (length (samples st)) in
  ((0 < interval)%Z -> (N mod interval)%Z = 0%Z ->
   exists st' new_draws new_rows,
     runs n_draws interval st = Ok st'
     /\ draws st' = draws st ++ new_draws
     /\ entropy st' = entropy st ++ new_rows
     /\ length new_draws = n_draws
     /\ length new_rows = n_draws
     /\ Forall (fun row => length row = Z.to_nat (N / interval)) new_rows
     /\ length (samples st') = length (samples st))
  /\ ((0 < interval)%Z -> (N mod interval)%Z <> 0%Z -> (0 < n_draws)%nat ->
      runs n_draws interval st = Raise IndexError)
  /\ ((interval < 0)%Z -> N <> 0%Z -> (0 < n_draws)%nat ->
      runs n_draws interval st
      = Raise (ValueError negative_dimensions_msg))
  /\ (interval = 0%Z -> (0 < n_draws)%nat ->
      runs n_draws interval st = Raise ZeroDivisionError).
Proof.
  intros N. split; [|split; [|split]].
  - intros HI Hdiv.
    destruct (divides_nat (length (samples st)) interval HI) as [Hd Hq].
    destruct (runs_complete (Z.to_nat interval) n_draws st ltac:(lia)
                (proj1 Hd Hdiv)) as (st' & ds & rows & H).
    rewrite Z2Nat.id in H by lia. unfold N. rewrite Hq.
    exists st', ds, rows. exact H.
  - intros HI Hrem Hn. destruct n_draws as [|n]; [lia|].
    cbn [Entropy.runs].
    destruct (divides_nat (length (samples st)) interval HI) as [Hd _].
    rewrite <- (Z2Nat.id interval) at 1 by lia.
    rewrite run_IndexError; [reflexivity|lia|].
    intros E. apply Hrem, Hd, E.
  - intros HI HN Hn. destruct n_draws as [|n]; [lia|].
    cbn [Entropy.runs]. unfold Entropy.run.
    destruct (Z.eqb_spec interval 0); [lia|]. fold N.
    pose proof (negative_quotient N interval ltac:(lia) HI).
    destruct (Z.ltb_spec (N / interval) 0); [reflexivity|lia].
  - intros -> Hn. destruct n_draws as [|n]; [lia|]. reflexivity.
Qed.

(** X6: the entropy interval read back from the entropy table (line 151)
    is the one the run used, provided the run made at least two entropy
    evaluations; with fewer, reading it back raises [IndexError]. *)
Theorem entropy_interval_read_back (interval : Z) (st st' : state) :
  (0 < interval)%Z ->
  (Z.of_nat (length (samples st)) mod interval)%Z = 0%Z ->
  run interval st = Ok st' ->
  ((2 <= Z.of_nat (length (samples st)) / interval)%Z ->
   EntropyMain.read_entropy_interval
     (EntropyMain.entropy_table (n_eval_S st') (entropy st'))
   = Ok interval)
  /\ ((Z.of_nat (length (samples st)) / interval < 2)%Z ->
      EntropyMain.read_entropy_interval
        (EntropyMain.entropy_table (n_eval_S st') (entropy st'))
      = Raise IndexError).
Proof.
  intros HI Hdiv Hrun.
  destruct (divides_nat (length (samples st)) interval HI) as [Hd Hq].
  destruct (run_Ok_trace (Z.to_nat interval) st ltac:(lia) (proj1 Hd Hdiv))
    as (st1 & H1 & _ & Hn & _).
  rewrite Z2Nat.id in H1 by lia.
  rewrite Hrun in H1. injection H1 as <-.
  pose proof (Z.div_pos (Z.of_nat (length (samples st))) interval
                ltac:(lia) HI) as Hpos.
  unfold EntropyMain.read_entropy_interval, EntropyMain.entropy_table.
  rewrite index_0_cons. cbn [Py.bind]. rewrite Hn.
  destruct (length (samples st) / Z.to_nat interval)%nat as [|[|m]];
    split; intros H; try lia; try reflexivity.
  cbn [seq map]. rewrite index_1_cons, index_0_cons. cbn [Py.bind].
  f_equal. unfold EntropyMain.py_int. cbn [Qnum Qden Qminus Qplus Qopp inject_Z].
  rewrite Z.quot_1_r. lia.
Qed.

End RunProps.

Lemma reversing_shuffle_keeps_length (g : nat) (l : list nat) :
  length (fst (Fixtures.reversing_shuffle g l)) = length l.
Proof. apply length_rev. Qed.

Lemma run_completes_iff_interval_divides_witness :
  Fixtures.recorder_runs 1 2 Fixtures.three_samples = Raise IndexError
  /\ Fixtures.recorder_runs 1 (-1) Fixtures.three_samples
     = Raise (ValueError Entropy.negative_dimensions_msg)
  /\ exists st', Fixtures.recorder_runs 1 1 Fixtures.three_samples = Ok st'
                 /\ Entropy.n_eval_S st' = [0; 1; 2]%Q.
Proof.
  pose proof (run_completes_iff_interval_divides
                Fixtures.recorder_initialise Fixtures.recorder_add
                Fixtures.recorder_build Fixtures.recorder_entropy
                Fixtures.reversing_shuffle reversing_shuffle_keeps_length)
    as H.
  split; [|split].
  - unfold Fixtures.recorder_runs. cbn [Entropy.runs].
    rewrite (proj1 (proj2 (proj2 (H 2%Z Fixtures.three_samples)))
               ltac:(lia) ltac:(discriminate)).
    reflexivity.
  - unfold Fixtures.recorder_runs. cbn [Entropy.runs].
    rewrite (proj1 (proj2 (H (-1)%Z Fixtures.three_samples))
               ltac:(lia) ltac:(discriminate)).
    reflexivity.
  - destruct (proj1 (proj2 (proj2 (proj2 (H 1%Z Fixtures.three_samples))))
                ltac:(lia) eq_refl) as (st' & Hr & Hn & _).
    exists st'. unfold Fixtures.recorder_runs. cbn [Entropy.runs].
    rewrite Hr. split; [reflexivity|]. exact Hn.
Defined.

Lemma runs_add_one_draw_and_one_trace_each_witness :
  exists st',
    Fixtures.recorder_runs 4 1 Fixtures.three_samples = Ok st'
    /\ length (Entropy.draws st') = 4%nat
    /\ Fixtures.recorder_runs 4 2 Fixtures.three_samples = Raise IndexError
    /\ Fixtures.recorder_runs 4 (-3) Fixtures.three_samples
       = Raise (ValueError Entropy.negative_dimensions_msg).
Proof.
  pose proof (runs_add_one_draw_and_one_trace_each
                Fixtures.recorder_initialise Fixtures.recorder_add
                Fixtures.recorder_build Fixtures.recorder_entropy
                Fixtures.reversing_shuffle reversing_shuffle_keeps_length)
    as H.
  destruct (proj1 (H 1%Z 4%nat Fixtures.three_samples) ltac:(lia) eq_refl)
    as (st' & ds & rows & Hr & Hd & _ & Hnd & _).
  exists st'. split; [exact Hr|]. split; [|split].
  - rewrite Hd. exact Hnd.
  - apply (proj1 (proj2 (H 2%Z 4%nat Fixtures.three_samples)));
      [lia|discriminate|lia].
  - apply (proj1 (proj2 (proj2 (H (-3)%Z 4%nat Fixtures.three_samples))));
      [lia|discriminate|lia].
Defined.

Lemma entropy_interval_read_back_witness :
  exists st',
    Fixtures.recorder_runs 1 1 Fixtures.three_samples = Ok st'
    /\ EntropyMain.read_entropy_interval
         (EntropyMain.entropy_table (Entropy.n_eval_S st')
                                    (Entropy.entropy st'))
       = Ok 1%Z.
Proof.
  eexists. split; [reflexivity|].
  refine (proj1 (entropy_interval_read_back
                   Fixtures.recorder_initialise Fixtures.recorder_add
                   Fixtures.recorder_build Fixtures.recorder_entropy
                   Fixtures.reversing_shuffle reversing_shuffle_keeps_length
                   1 Fixtures.three_samples _ ltac:(lia) eq_refl eq_refl) _).
  cbn. lia.
Defined.

(** ** The stages of [main] around the loop ([pipelines/entropy.py],
    lines 76-98) *)

Section MainStageProps.

Import Utils EntropyMain.

Lemma Qltb_iff (x y : Q) : Qltb x y = true <-> (x < y)%Q.
Proof.
  split; [apply Qltb_lt|]. intros H. unfold Qltb. apply negb_true_iff.
  destruct (Qle_bool y x) eqn:E; [|reflexivity].
  apply Qle_bool_iff in E. exfalso. exact (Qlt_not_le _ _ H E).
Qed.

Lemma row_inside_iff (bounds : list (Q * Q)) (x : list Q) :
  length x = length bounds ->
  row_inside bounds x = true <-> strictly_inside bounds x.
Proof.
  intros Hlen. unfold row_inside.
  rewrite !broadcast2_same_length by (rewrite length_map; congruence).
  unfold strictly_inside, np_prod.
  revert x Hlen. induction bounds as [|[lo hi] bs IH]; intros [|v x] Hlen;
    try discriminate.
  - simpl. split; [constructor|reflexivity].
  - injection Hlen as Hlen. specialize (IH x Hlen).
    cbn [map combine forallb fst snd].
    rewrite !andb_true_iff in *. rewrite !Qltb_iff. split.
    + intros [[H1 H2] [H3 H4]]. constructor; [now split|].
      apply IH. now split.
    + intros H. inversion H as [|? ? ? ? [H1 H3] Hrest]; subst.
      apply IH in Hrest. tauto.
Qed.

(** The list of line 85 over the columns [i, i+n), when the bounds have a
    row for each of them. *)
Lemma columns_inside_spec (bounds : list (Q * Q)) (rows : list (list Q)) :
  forall n i,
    (i + n <= length bounds)%nat ->
    exists oks,
      columns_inside bounds rows i n = Ok oks
      /\ (np_prod oks = true <->
          forall j, (i <= j < i + n)%nat ->
            forall x, In x rows ->
              (fst (nth j bounds (0, 0)) < nth j x 0
               /\ nth j x 0 < snd (nth j bounds (0, 0)))%Q).
Proof.
  induction n as [|n IH]; intros i Hi.
  - exists []. split; [reflexivity|]. split; [intros _ j Hj; lia|reflexivity].
  - cbn [columns_inside].
    rewrite (index_nonneg bounds (Z.of_nat i) (0, 0)%Q) by lia.
    destruct (Z.ltb_spec (Z.of_nat i) (Z.of_nat (length bounds))); [|lia].
    rewrite Nat2Z.id. cbn [Py.bind].
    destruct (IH (S i) ltac:(lia)) as (oks & -> & Hoks). cbn [Py.bind].
    eexists. split; [reflexivity|].
    unfold np_prod in *. cbn [forallb].
    rewrite !andb_true_iff, Hoks, !forallb_forall. split.
    + intros [[Hlo Hhi] Hrest] j Hj x Hx.
      destruct (Nat.eq_dec j i) as [->|Hne]; [|apply Hrest; [lia|exact Hx]].
      split; apply Qltb_iff; [apply Hlo|apply Hhi];
        apply in_map_iff; exists x; auto.
    + intros Hall. split; [split|].
      * intros v Hv. apply in_map_iff in Hv. destruct Hv as (x & <- & Hx).
        apply Qltb_iff. apply (Hall i ltac:(lia) x Hx).
      * intros v Hv. apply in_map_iff in Hv. destruct Hv as (x & <- & Hx).
        apply Qltb_iff. apply (Hall i ltac:(lia) x Hx).
      * intros j Hj x Hx. apply Hall; [lia|exact Hx].
Qed.

Lemma strictly_inside_nth (bounds : list (Q * Q)) (x : list Q) :
  length x = length bounds ->
  strictly_inside bounds x <->
  forall j, (j < length bounds)%nat ->
    (fst (nth j bounds (0, 0)) < nth j x 0
     /\ nth j x 0 < snd (nth j bounds (0, 0)))%Q.
Proof.
  unfold strictly_inside. revert x.
  induction bounds as [|b bs IH]; intros [|v x] Hlen; try discriminate.
  - split; [intros _ j Hj; simpl in Hj; lia|constructor].
  - injection Hlen as Hlen. specialize (IH x Hlen). split.
    + intros H j Hj. inversion H as [|? ? ? ? Hv Hrest]; subst.
      destruct j as [|j]; [exact Hv|].
      simpl in Hj. apply (proj1 IH Hrest j). lia.
    + intros H. constructor.
      * apply (H O). simpl. lia.
      * apply IH. intros j Hj. apply (H (S j)). simpl. lia.
Qed.

Lemma filter_row_inside_kept (bounds : list (Q * Q)) (rows : list (list Q)) :
  Forall (fun x => length x = length bounds) rows ->
  kept_in_order (strictly_inside bounds) rows
                (filter (row_inside bounds) rows).
Proof.
  induction 1 as [|x rows Hx _ IH]; cbn [filter]; [constructor|].
  destruct (row_inside bounds x) eqn:E.
  - apply kept_keep; [apply row_inside_iff; assumption|exact IH].
  - apply kept_drop; [|exact IH]. intros H.
    apply (row_inside_iff bounds x Hx) in H. congruence.
Qed.

(** X7: the samples that leave the bounds stage.  For a two-dimensional
    array with one column per bound: with [--exclude_points] the stage never
    raises and keeps exactly the rows strictly inside the bounds, in order;
    without it the stage returns the array unchanged when every row is
    strictly inside and raises [ValueError] otherwise.  Either way every
    row that leaves the stage is strictly inside the bounds. *)
Theorem bounds_stage_lets_only_inside_samples_through
  (bounds : list (Q * Q)) (rows : list (list Q)) :
  Forall (fun x => length x = length bounds) rows ->
  bounds_stage true bounds (Arr2 (length bounds) rows)
  = Ok (Arr2 (length bounds) (filter (row_inside bounds) rows))
  /\ kept_in_order (strictly_inside bounds) rows
                   (filter (row_inside bounds) rows)
  /\ (Forall (strictly_inside bounds) rows ->
      bounds_stage false bounds (Arr2 (length bounds) rows)
      = Ok (Arr2 (length bounds) rows))
  /\ (~ Forall (strictly_inside bounds) rows ->
      bounds_stage false bounds (Arr2 (length bounds) rows)
      = Raise (ValueError outside_msg))
  /\ (forall exclude c rows',
        bounds_stage exclude bounds (Arr2 (length bounds) rows)
        = Ok (Arr2 c rows') ->
        Forall (strictly_inside bounds) rows'
        /\ forall x, In x rows' -> In x rows).
Proof.
  intros Hshape. rewrite Forall_forall in Hshape.
  assert (Hex : bounds_stage true bounds (Arr2 (length bounds) rows)
                = Ok (Arr2 (length bounds) (filter (row_inside bounds) rows))).
  { unfold bounds_stage, exclude_outside, broadcastable. cbn [dim_of].
    now rewrite Nat.eqb_refl. }
  destruct (columns_inside_spec bounds rows (length bounds) 0 (le_n _))
    as (oks & Hoks & Hiff).
  assert (Hall : np_prod oks = true <-> Forall (strictly_inside bounds) rows).
  { rewrite Hiff, Forall_forall. split.
    - intros H x Hx. apply strictly_inside_nth; [now apply Hshape|].
      intros j Hj. apply H; [lia|exact Hx].
    - intros H j Hj x Hx.
      apply (proj1 (strictly_inside_nth bounds x (Hshape x Hx)) (H x Hx)).
      lia. }
  assert (Hin : Forall (strictly_inside bounds) rows ->
                bounds_stage false bounds (Arr2 (length bounds) rows)
                = Ok (Arr2 (length bounds) rows)).
  { intros H. unfold bounds_stage, check_inside. rewrite Hoks.
    cbn [Py.bind]. now rewrite (proj2 Hall H). }
  assert (Hout : ~ Forall (strictly_inside bounds) rows ->
                 bounds_stage false bounds (Arr2 (length bounds) rows)
                 = Raise (ValueError outside_msg)).
  { intros H. unfold bounds_stage, check_inside. rewrite Hoks.
    cbn [Py.bind]. destruct (np_prod oks); [|reflexivity].
    exfalso. apply H, Hall. reflexivity. }
  split; [exact Hex|].
  split; [apply filter_row_inside_kept, Forall_forall, Hshape|].
  split; [exact Hin|]. split; [exact Hout|].
  intros [|] c rows' H.
  - rewrite Hex in H. injection H as _ <-. split.
    + apply Forall_forall. intros x Hx. apply filter_In in Hx.
      destruct Hx as [Hx Hk]. apply row_inside_iff; [now apply Hshape|exact Hk].
    + intros x Hx. apply filter_In in Hx. tauto.
  - unfold bounds_stage, check_inside in H. rewrite Hoks in H.
    cbn [Py.bind] in H. destruct (np_prod oks) eqn:E; [|discriminate].
    injection H as _ <-. split; [now apply Hall|auto].
Qed.

(** X9: the window and its warning.  The warning of line 97 looks at the
    window before it is divided by the entropy interval.  With more than
    200 samples and no explicit window, no such warning is issued whatever
    the interval, while the window used is [max(N // 5, 200) // interval],
    at most 100 evaluations when [N <= 1000] and the interval is at least
    2; and with an interval of 0 the window is 0, NumPy warning of the
    division, with no exception.  With at most 200 samples the default
    window [N // 5] always brings the warning, and so does an explicit
    window below 200; for both an interval of 0 raises
    [ZeroDivisionError]. *)
Theorem entropy_window_warning_ignores_interval (n interval : Z) :
  (0 <= n)%Z ->
  (200 < n ->
   entropy_window None n interval
   = if interval =? 0 then Ok (0, [DivideByZero])
     else Ok (Z.max (n / 5) 200 / interval, []))%Z
  /\ (2 <= interval -> 200 < n <= 1000 ->
      exists w, entropy_window None n interval = Ok (w, [])
                /\ 0 <= w <= 100)%Z
  /\ (interval <> 0 -> n <= 200 ->
      entropy_window None n interval
      = Ok (n / 5 / interval, [SmallWindow]))%Z
  /\ (n <= 200 -> entropy_window None n 0 = Raise ZeroDivisionError)%Z
  /\ (forall w, entropy_window (Some w) n 0 = Raise ZeroDivisionError)
  /\ (forall w, interval <> 0 ->
        entropy_window (Some w) n interval
        = Ok (w / interval, if w <? 200 then [SmallWindow] else []))%Z.
Proof.
  intros Hn. unfold entropy_window, min_window.
  split; [|split; [|split; [|split; [|split]]]].
  - intros Hbig. destruct (Z.gtb_spec n 200); [|lia].
    destruct (Z.ltb_spec (Z.max (n / 5) 200) 200); [lia|].
    destruct (interval =? 0)%Z; reflexivity.
  - intros Hi [Hbig Hsmall]. destruct (Z.eqb_spec interval 0); [lia|].
    destruct (Z.gtb_spec n 200); [|lia].
    assert (Hmax : (Z.max (n / 5) 200 = 200)%Z).
    { apply Z.max_r. apply Z.div_le_upper_bound; lia. }
    rewrite Hmax. cbn [Z.ltb Z.compare Pos.compare Pos.compare_cont].
    eexists. split; [reflexivity|]. split.
    + apply Z.div_pos; lia.
    + apply Z.div_le_upper_bound; lia.
  - intros Hi Hsmall. destruct (Z.eqb_spec interval 0); [contradiction|].
    destruct (Z.gtb_spec n 200); [lia|].
    destruct (Z.ltb_spec (n / 5) 200) as [_|Hge]; [reflexivity|].
    assert (n / 5 <= 40)%Z by (apply Z.div_le_upper_bound; lia). lia.
  - intros Hsmall. destruct (Z.gtb_spec n 200); [lia|]. reflexivity.
  - intros w. reflexivity.
  - intros w Hi. destruct (Z.eqb_spec interval 0); [contradiction|].
    reflexivity.
Qed.

End MainStageProps.

Lemma bounds_stage_lets_only_inside_samples_through_witness :
  EntropyMain.bounds_stage true [(0, 1); (0, 2)]%Q
    (EntropyMain.Arr2 2 [[1 # 2; 1]; [3; 1]; [1 # 4; 3 # 2]]%Q)
  = Ok (EntropyMain.Arr2 2 [[1 # 2; 1]; [1 # 4; 3 # 2]]%Q)
  /\ kept_in_order (strictly_inside [(0, 1); (0, 2)]%Q)
                   [[1 # 2; 1]; [3; 1]; [1 # 4; 3 # 2]]%Q
                   [[1 # 2; 1]; [1 # 4; 3 # 2]]%Q
  /\ EntropyMain.bounds_stage false [(0, 1); (0, 2)]%Q
       (EntropyMain.Arr2 2 [[1 # 2; 1]; [3; 1]; [1 # 4; 3 # 2]]%Q)
     = Raise (ValueError EntropyMain.outside_msg).
Proof.
  destruct (bounds_stage_lets_only_inside_samples_through
              [(0, 1); (0, 2)]%Q [[1 # 2; 1]; [3; 1]; [1 # 4; 3 # 2]]%Q)
    as (Hex & Hkept & _ & Hout & _).
  - repeat constructor.
  - split; [exact Hex|]. split; [exact Hkept|]. apply Hout. intros H.
    inversion H as [|? ? _ H2]; subst. inversion H2 as [|? ? H3 _]; subst.
    inversion H3 as [|? ? ? ? [_ Hlt] _]; subst. discriminate Hlt.
Defined.

Lemma entropy_window_warning_ignores_interval_witness :
  EntropyMain.entropy_window None 1000 10 = Ok (20%Z, [])
  /\ EntropyMain.entropy_window None 1000 0
     = Ok (0%Z, [EntropyMain.DivideByZero])
  /\ EntropyMain.entropy_window None 150 1
     = Ok (30%Z, [EntropyMain.SmallWindow]).
Proof.
  destruct (entropy_window_warning_ignores_interval 1000 10 ltac:(lia))
    as (H1 & _).
  destruct (entropy_window_warning_ignores_interval 1000 0 ltac:(lia))
    as (H0 & _).
  destruct (entropy_window_warning_ignores_interval 150 1 ltac:(lia))
    as (_ & _ & H2 & _).
  split; [|split].
  - rewrite (H1 ltac:(lia)). reflexivity.
  - rewrite (H0 ltac:(lia)). reflexivity.
  - rewrite (H2 ltac:(lia) ltac:(lia)). reflexivity.
Defined.

(** ** More on grids ([utils.py], [recursive_grid]) *)

Section GridMoreProps.

Import Utils.
Local Open Scope Q_scope.

Lemma index_0_nil {A} : Py.index (@nil A) 0 = Raise IndexError.
Proof. reflexivity. Qed.

(** Counts beyond the number of dimensions play no part. *)
Lemma recursive_grid_firstn (bounds : list (Q * Q)) :
  forall n_pts,
    recursive_grid bounds (firstn (length bounds) n_pts)
    = recursive_grid bounds n_pts.
Proof.
  induction bounds as [|[lo hi] rest IH]; intros n_pts; [reflexivity|].
  destruct rest as [|b rest].
  - rewrite !recursive_grid_one. destruct n_pts as [|n0 ns]; [reflexivity|].
    cbn [length firstn]. now rewrite !index_0_cons.
  - rewrite !recursive_grid_more. destruct n_pts as [|n0 ns].
    + reflexivity.
    + change (firstn (length ((lo, hi) :: b :: rest)) (n0 :: ns))
        with (n0 :: firstn (length (b :: rest)) ns).
      cbn [tl]. rewrite IH. now rewrite !index_0_cons.
Qed.

(** The only exception is [IndexError]. *)
Lemma recursive_grid_raises_IndexError (bounds : list (Q * Q)) :
  forall n_pts e, recursive_grid bounds n_pts = Raise e -> e = IndexError.
Proof.
  induction bounds as [|[lo hi] rest IH]; intros n_pts e H.
  - now injection H as <-.
  - assert (Hgap : forall d r, first_gap d = Raise r -> r = IndexError).
    { intros d r. unfold first_gap. destruct d as [|a [|b d]].
      - cbn. now intros [= <-].
      - cbn. now intros [= <-].
      - rewrite index_1_cons, index_0_cons. discriminate. }
    assert (Hidx : forall r, Py.index n_pts 0 = Raise r -> r = IndexError).
    { intros r. destruct n_pts; [now intros [= <-]|].
      rewrite index_0_cons. discriminate. }
    destruct rest as [|b rest].
    + rewrite recursive_grid_one in H.
      destruct (Py.index n_pts 0) as [n0|r] eqn:E; cbn [Py.bind] in H.
      * destruct (first_gap (interior lo hi n0)) as [g|r] eqn:Eg;
          cbn [Py.bind] in H; [discriminate|].
        injection H as <-. eapply Hgap; eassumption.
      * injection H as <-. now apply Hidx.
    + rewrite recursive_grid_more in H.
      destruct (recursive_grid (b :: rest) (tl n_pts)) as [[g diff]|r] eqn:Er;
        cbn [Py.bind] in H.
      * destruct (Py.index n_pts 0) as [n0|r] eqn:E; cbn [Py.bind] in H.
        -- destruct (first_gap (interior lo hi n0)) as [gp|r] eqn:Eg;
             cbn [Py.bind] in H; [discriminate|].
           injection H as <-. eapply Hgap; eassumption.
        -- injection H as <-. now apply Hidx.
      * injection H as <-. eapply IH; eassumption.
Qed.

(** If the grid is returned, there is a count of at least 2 for every
    dimension. *)
Lemma recursive_grid_Ok_counts (bounds : list (Q * Q)) :
  forall n_pts r,
    recursive_grid bounds n_pts = Ok r ->
    bounds <> []
    /\ (length bounds <= length n_pts)%nat
    /\ Forall (fun n => (2 <= n)%nat) (firstn (length bounds) n_pts).
Proof.
  induction bounds as [|[lo hi] rest IH]; intros n_pts r H; [discriminate|].
  split; [discriminate|].
  assert (Hhead : forall n0 g, first_gap (interior lo hi n0) = Ok g ->
                               (2 <= n0)%nat).
  { intros n0 g Hg. destruct (Nat.lt_ge_cases n0 2) as [Hlt|]; [|assumption].
    rewrite (first_gap_short lo hi n0 Hlt) in Hg. discriminate. }
  destruct rest as [|b rest].
  - rewrite recursive_grid_one in H.
    destruct n_pts as [|n0 ns]; [discriminate|].
    rewrite index_0_cons in H. cbn [Py.bind] in H.
    destruct (first_gap (interior lo hi n0)) as [g|] eqn:Eg; [|discriminate].
    cbn [length firstn]. split; [lia|].
    constructor; [eapply Hhead; eassumption|constructor].
  - rewrite recursive_grid_more in H.
    destruct (recursive_grid (b :: rest) (tl n_pts)) as [[g diff]|] eqn:Er;
      [|discriminate].
    cbn [Py.bind] in H.
    destruct n_pts as [|n0 ns].
    { destruct (IH [] _ Er) as (_ & Hl & _). simpl in Hl. lia. }
    rewrite index_0_cons in H. cbn [Py.bind tl] in *.
    destruct (first_gap (interior lo hi n0)) as [gp|] eqn:Eg; [|discriminate].
    destruct (IH ns _ Er) as (_ & Hl & Hall).
    change (firstn (length ((lo, hi) :: b :: rest)) (n0 :: ns))
      with (n0 :: firstn (length (b :: rest)) ns).
    split; [simpl length in *; lia|].
    constructor; [eapply Hhead; eassumption|exact Hall].
Qed.

(** X10: [recursive_grid] returns exactly when there is at least one
    dimension and a count of at least 2 for each dimension; counts beyond
    the number of dimensions are ignored; in every other case (no
    dimension, too few counts, a count of 0 or 1) it raises [IndexError]. *)
Theorem recursive_grid_returns_iff (bounds : list (Q * Q)) (n_pts : list nat) :
  let enough :=
    bounds <> []
    /\ (length bounds <= length n_pts)%nat
    /\ Forall (fun n => (2 <= n)%nat) (firstn (length bounds) n_pts) in
  (enough ->
   exists grid diff,
     recursive_grid bounds n_pts = Ok (grid, diff)
     /\ recursive_grid bounds (firstn (length bounds) n_pts) = Ok (grid, diff))
  /\ (~ enough -> recursive_grid bounds n_pts = Raise IndexError).
Proof.
  intros enough. split.
  - intros (Hne & Hlen & Hall).
    destruct (recursive_grid_shape bounds (firstn (length bounds) n_pts) Hne)
      as (grid & diff & Hg & _); [rewrite length_firstn; lia|exact Hall|].
    exists grid, diff. split; [|exact Hg].
    now rewrite <- recursive_grid_firstn.
  - intros Hnot.
    destruct (recursive_grid bounds n_pts) as [r|e] eqn:E.
    + exfalso. apply Hnot. eapply recursive_grid_Ok_counts; eassumption.
    + f_equal. eapply recursive_grid_raises_IndexError; eassumption.
Qed.

Lemma recursive_grid_returns_iff_witness :
  (exists grid diff,
      recursive_grid [(0, 1)] [3; 7]%nat = Ok (grid, diff)
      /\ recursive_grid [(0, 1)] [3]%nat = Ok (grid, diff))
  /\ recursive_grid [(0, 1); (0, 1)] [3]%nat = Raise IndexError.
Proof.
  split.
  - apply (proj1 (recursive_grid_returns_iff [(0, 1)] [3; 7]%nat)).
    split; [discriminate|]. split; [simpl; lia|]. repeat constructor.
  - apply (proj2 (recursive_grid_returns_iff [(0, 1); (0, 1)] [3]%nat)).
    intros (_ & Hl & _). simpl in Hl. lia.
Defined.

Lemma np_prod_app (l l' : list Q) :
  Plot.np_prod (l ++ l') == Plot.np_prod l * Plot.np_prod l'.
Proof.
  unfold Plot.np_prod. induction l as [|a l IH]; cbn [app fold_right].
  - ring.
  - rewrite IH. ring.
Qed.

Lemma np_prod_rev (l : list Q) : Plot.np_prod (rev l) == Plot.np_prod l.
Proof.
  induction l as [|a l IH]; [reflexivity|].
  cbn [rev]. rewrite np_prod_app, IH. unfold Plot.np_prod. cbn [fold_right].
  ring.
Qed.

(** X11: the product of the returned spacings, which is all that
    [plot_multidim] uses of them, is the volume of a grid cell, the
    product over the axes of [(max_i - min_i)/(counts[i]+1)], in whatever
    order the spacings come. *)
Theorem product_of_spacings_is_cell_volume
  (bounds : list (Q * Q)) (n_pts : list nat) :
  bounds <> [] ->
  length n_pts = length bounds ->
  Forall (fun n => (2 <= n)%nat) n_pts ->
  exists grid diff,
    recursive_grid bounds n_pts = Ok (grid, diff)
    /\ Plot.np_prod diff == cell_volume bounds n_pts.
Proof.
  intros Hne Hlen Hn.
  destruct (recursive_grid_shape bounds n_pts Hne Hlen Hn)
    as (grid & diff & Hg & _ & _ & Hdiff).
  exists grid, diff. split; [exact Hg|].
  rewrite <- np_prod_rev. unfold cell_volume.
  induction Hdiff as [|s bn l l' Hs _ IH]; [reflexivity|].
  unfold Plot.np_prod in *. cbn [map fold_right].
  rewrite IH. unfold axis_spacing in Hs. rewrite Hs. reflexivity.
Qed.

Lemma product_of_spacings_is_cell_volume_witness :
  exists grid diff,
    recursive_grid [(0, 3); (0, 8)] [2; 3]%nat = Ok (grid, diff)
    /\ Plot.np_prod diff == 2.
Proof.
  destruct (product_of_spacings_is_cell_volume [(0, 3); (0, 8)] [2; 3]%nat)
    as (grid & diff & Hg & Hv);
    [discriminate|reflexivity|repeat constructor|].
  exists grid, diff. split; [exact Hg|]. rewrite Hv. reflexivity.
Defined.

Lemma NoDup_map_injective {A B} (g : A -> B) (l : list A) :
  (forall x y, In x l -> In y l -> g x = g y -> x = y) ->
  NoDup l -> NoDup (map g l).
Proof.
  intros Hinj Hl. induction Hl as [|a l Ha Hl IH]; [constructor|].
  cbn [map]. constructor.
  - intros Hin. apply in_map_iff in Hin. destruct Hin as (y & Hy & Hyl).
    apply Ha. rewrite (Hinj a y); auto using in_eq, in_cons.
  - apply IH. intros x y Hx Hy. apply Hinj; now right.
Qed.

Lemma axis_point_injective (lo hi : Q) (n k k' : nat) :
  lo < hi -> axis_point lo hi n k = axis_point lo hi n k' -> k = k'.
Proof.
  intros Hb E. unfold axis_point in E.
  pose proof (inject_nat_pos n) as HN.
  set (N := inject_Z (Z.of_nat (S n))) in *.
  set (t := (hi - lo) / N) in *.
  assert (Ht : t * N == hi - lo).
  { unfold t. rewrite Qmult_comm. apply Qmult_div_r.
    intros E0. apply (Qlt_not_eq _ _ HN). now symmetry. }
  assert (Htpos : 0 < t).
  { unfold t. apply Qlt_shift_div_l; [exact HN|]. lra. }
  assert (Eq : inject_Z (Z.of_nat k) * t == inject_Z (Z.of_nat k') * t).
  { assert (E' : lo + inject_Z (Z.of_nat k) * t
                 == lo + inject_Z (Z.of_nat k') * t) by now rewrite E.
    set (a := inject_Z (Z.of_nat k) * t) in *.
    set (b := inject_Z (Z.of_nat k') * t) in *.
    clearbody a b. clear - E'. lra. }
  apply Qmult_inj_r in Eq; [|intros E0; apply (Qlt_not_eq _ _ Htpos);
                             now symmetry].
  apply (proj1 (inject_Z_injective _ _)) in Eq. lia.
Qed.

Lemma interior_NoDup (lo hi : Q) (n : nat) :
  lo < hi -> NoDup (interior lo hi n).
Proof.
  intros Hb. rewrite interior_eq. apply NoDup_map_injective.
  - intros k k' _ _. now apply axis_point_injective.
  - apply seq_NoDup.
Qed.

Lemma flat_map_cons_NoDup {A} (d : list A) (g : list (list A)) :
  NoDup d -> NoDup g ->
  NoDup (flat_map (fun di => map (fun gi => di :: gi) g) d).
Proof.
  intros Hd Hg. induction Hd as [|a d Ha Hd IH]; [constructor|].
  cbn [flat_map]. apply NoDup_app.
  - apply NoDup_map_injective; [|exact Hg]. now intros x y _ _ [= ->].
  - exact IH.
  - intros p Hp Hq. apply in_map_iff in Hp. destruct Hp as (gi & <- & _).
    apply in_flat_map in Hq. destruct Hq as (di & Hdi & Hq).
    apply in_map_iff in Hq. destruct Hq as (gj & [= -> _] & _).
    contradiction.
Qed.

Lemma recursive_grid_lattice :
  forall bounds n_pts grid diff,
    length n_pts = length bounds ->
    recursive_grid bounds n_pts = Ok (grid, diff) ->
    (forall p, In p grid <-> on_lattice bounds n_pts p)
    /\ (Forall (fun b => fst b < snd b) bounds -> NoDup grid).
Proof.
  induction bounds as [|[lo hi] rest IH]; intros n_pts grid diff Hlen H;
    [discriminate|].
  destruct n_pts as [|n0 ns]; [discriminate|]. injection Hlen as Hlen.
  assert (Hhead : forall x,
             In x (interior lo hi n0) <->
             exists k, (1 <= k <= n0)%nat /\ x = axis_point lo hi n0 k).
  { intros x. rewrite interior_eq, in_map_iff. split.
    - intros (k & <- & Hk). apply in_seq in Hk. exists k. split; [lia|auto].
    - intros (k & Hk & ->). exists k. split; [reflexivity|].
      apply in_seq. lia. }
  destruct rest as [|b rest].
  - destruct ns; [|discriminate].
    rewrite recursive_grid_one, index_0_cons in H. cbn [Py.bind] in H.
    destruct (first_gap (interior lo hi n0)) as [g|]; [|discriminate].
    cbn [Py.bind] in H. injection H as <- <-. split.
    + intros p. unfold on_lattice. cbn [combine]. rewrite in_map_iff. split.
      * intros (x & <- & Hx). constructor; [|constructor].
        cbn [fst snd]. now apply Hhead.
      * intros Hp. inversion Hp as [|x ? q ? Hx Hq]; subst.
        inversion Hq; subst. exists x. split; [reflexivity|].
        now apply Hhead.
    + intros Hb. inversion Hb as [|? ? Hlohi _]; subst.
      apply NoDup_map_injective; [now intros x y _ _ [= ->]|].
      now apply interior_NoDup.
  - rewrite recursive_grid_more in H. cbn [tl] in H.
    destruct (recursive_grid (b :: rest) ns) as [[g df]|] eqn:Er;
      [|discriminate].
    cbn [Py.bind] in H. rewrite index_0_cons in H. cbn [Py.bind] in H.
    destruct (first_gap (interior lo hi n0)) as [gp|]; [|discriminate].
    cbn [Py.bind] in H. injection H as <- <-.
    destruct (IH ns g df Hlen Er) as [Hmem Hnd]. split.
    + intros p. unfold on_lattice in *.
      change (combine ((lo, hi) :: b :: rest) (n0 :: ns))
        with (((lo, hi), n0) :: combine (b :: rest) ns).
      rewrite in_flat_map. split.
      * intros (di & Hdi & Hp). apply in_map_iff in Hp.
        destruct Hp as (gi & <- & Hgi).
        constructor; [cbn [fst snd]; now apply Hhead|now apply Hmem].
      * intros Hp. inversion Hp as [|x ? q ? Hx Hq]; subst.
        exists x. split; [now apply Hhead|].
        apply in_map_iff. exists q. split; [reflexivity|now apply Hmem].
    + intros Hb. inversion Hb as [|? ? Hlohi Hrest]; subst.
      apply flat_map_cons_NoDup; [now apply interior_NoDup|now apply Hnd].
Qed.

(** X12: the grid is the lattice.  For valid bounds and counts of at least
    2, a point is returned exactly if each of its coordinates is one of
    the evenly spaced interior points [min_i + k*(max_i - min_i)/(n_i+1)],
    [1 <= k <= n_i], of its axis, and no point is returned twice. *)
Theorem grid_is_the_lattice_without_repetition
  (bounds : list (Q * Q)) (n_pts : list nat) :
  bounds <> [] ->
  length n_pts = length bounds ->
  Forall (fun b => fst b < snd b) bounds ->
  Forall (fun n => (2 <= n)%nat) n_pts ->
  exists grid diff,
    recursive_grid bounds n_pts = Ok (grid, diff)
    /\ NoDup grid
    /\ forall p, In p grid <-> on_lattice bounds n_pts p.
Proof.
  intros Hne Hlen Hb Hn.
  destruct (recursive_grid_shape bounds n_pts Hne Hlen Hn)
    as (grid & diff & Hg & _).
  destruct (recursive_grid_lattice bounds n_pts grid diff Hlen Hg)
    as [Hmem Hnd].
  exists grid, diff. split; [exact Hg|]. split; [now apply Hnd|exact Hmem].
Qed.

Lemma grid_is_the_lattice_without_repetition_witness :
  exists grid diff,
    recursive_grid [(0, 3); (0, 8)] [2; 3]%nat = Ok (grid, diff)
    /\ NoDup grid.
Proof.
  destruct (grid_is_the_lattice_without_repetition
              [(0, 3); (0, 8)] [2; 3]%nat)
    as (grid & diff & Hg & Hnd & _);
    [discriminate|reflexivity|repeat constructor|repeat constructor|].
  exists grid, diff. split; assumption.
Defined.

End GridMoreProps.

(** ** The abscissae and the normalisation of the plots ([plot.py]) *)

Section PlotProps.

Import Utils Plot.
Local Open Scope Q_scope.

Lemma fold_max_le (t : list Q) :
  forall a c, fold_left Qmax t a <= c <-> a <= c /\ Forall (fun x => x <= c) t.
Proof.
  induction t as [|b t IH]; intros a c; cbn [fold_left].
  - split; [intros H; split; [exact H|constructor]|tauto].
  - rewrite IH, Q.max_lub_iff. split.
    + intros [[Ha Hb] Ht]. split; [exact Ha|constructor; assumption].
    + intros [Ha Ht]. inversion Ht; subst. tauto.
Qed.


Lemma np_max_le (l : list Q) (c : Q) :
  l <> [] -> np_max l <= c <-> Forall (fun x => x <= c) l.
Proof.
  destruct l as [|a t]; [congruence|]. intros _. unfold np_max.
  rewrite fold_max_le. split.
  - intros [Ha Ht]. constructor; assumption.
  - intros H. inversion H; subst. tauto.
Qed.





Lemma np_sum_scale (c : Q) (p : list Q) :
  np_sum (map (fun v => v / c) p) == np_sum p / c.
Proof.
  unfold np_sum. induction p as [|a p IH]; cbn [map fold_right].
  - unfold Qdiv. ring.
  - rewrite IH. unfold Qdiv. ring.
Qed.

(** X14: the normalisation of the plots.  If the sum of the median times
    the cell size is not zero, the normalised median sums to one over the
    cells, that is [sum(median/norm) * cell = 1], and any other curve
    normalised with it keeps its ratio to the median:
    [sum(p/norm) * cell = sum(p)/sum(median)]. *)
Theorem normalised_median_integrates_to_one (median p : list Q) (cell : Q) :
  ~ np_sum median * cell == 0 ->
  np_sum (normalise median cell median) * cell == 1
  /\ np_sum (normalise median cell p) * cell == np_sum p / np_sum median.
Proof.
  intros Hnorm. unfold normalise. rewrite !np_sum_scale.
  assert (Hm : ~ np_sum median == 0).
  { intros E. apply Hnorm. rewrite E. ring. }
  assert (Hc : ~ cell == 0).
  { intros E. apply Hnorm. rewrite E. ring. }
  split; field; auto.
Qed.

Lemma normalised_median_integrates_to_one_witness :
  np_sum (normalise [1; 3; 4] (1 # 2) [1; 3; 4]) * (1 # 2) == 1.
Proof.
  apply (proj1 (normalised_median_integrates_to_one
                  [1; 3; 4] [1; 3; 4] (1 # 2) ltac:(discriminate))).
Defined.

End PlotProps.

(** ** More on rejection sampling ([utils.py], [rejection_sampler]) *)

Section SamplerMoreProps.

Import Utils.
Local Open Scope Q_scope.

Context {rng_t : Type}.
Variable uniform : rng_t -> Q -> Q -> nat -> list Q * rng_t.
Variable n_draws : nat.
Variable f : Q -> Q.
Variable bounds : Q * Q.
Variable selfunc : option (Q -> Q).

Local Abbreviation top := (envelope f bounds selfunc).
Local Abbreviation w := (weighted f selfunc).
Local Abbreviation sampler_step :=
  (Spec.sampler_step uniform n_draws f bounds selfunc).
Local Abbreviation after_iterations :=
  (Spec.after_iterations uniform n_draws f bounds selfunc).
Local Abbreviation loop fuel st :=
  (sampler_loop uniform fuel n_draws f bounds selfunc top (snd st) (fst st)).

(** Whatever the loop returns is the state after some number of passes
    within the fuel, the first one to reach [n_draws] samples. *)
Lemma sampler_loop_Some :
  forall fuel st r,
    loop fuel st = Some r ->
    exists k, (k <= fuel)%nat
      /\ r = Nat.iter k sampler_step st
      /\ (n_draws <= length (fst r))%nat
      /\ (forall j, (j < k)%nat ->
            (length (fst (Nat.iter j sampler_step st)) < n_draws)%nat).
Proof.
  induction fuel as [|fuel IH]; intros [samples g] r H; cbn [fst snd] in H.
  - cbn [sampler_loop] in H.
    destruct (Nat.ltb_spec (length samples) n_draws); [discriminate|].
    injection H as <-. exists O. cbn [Nat.iter nat_rect fst].
    repeat split; lia.
  - destruct (Nat.lt_ge_cases (length samples) n_draws) as [Hlt|Hge].
    + rewrite (sampler_loop_step uniform n_draws f bounds selfunc) in H
        by exact Hlt.
      destruct (sampler_step (samples, g)) as [s1 g1] eqn:E1.
      destruct (IH (s1, g1) r H) as (k & Hk & Hr & Hn & Hmin).
      exists (S k). rewrite Nat.iter_succ_r, E1.
      split; [lia|]. split; [exact Hr|]. split; [exact Hn|].
      intros [|j] Hj; [exact Hlt|].
      rewrite Nat.iter_succ_r, E1. apply Hmin. lia.
    + rewrite (sampler_loop_done uniform n_draws f bounds selfunc) in H
        by exact Hge.
      injection H as <-. exists O. cbn [Nat.iter nat_rect fst].
      repeat split; lia.
Qed.

(** X15: what the sampler returns, whatever the random draws.  A result
    has exactly [n_draws] samples: it is the first [n_draws] of what the
    first sufficient pass [k] had accumulated, with the random source as
    that pass left it, and more fuel gives the same result.  With
    [n_draws = 0] the sampler returns the empty array at once, without
    drawing. *)
Theorem rejection_sampler_result_is_fuel_independent
  (fuel : nat) (g g' : rng_t) (out : list Q) :
  rejection_sampler uniform fuel g n_draws f bounds selfunc = Some (out, g') ->
  length out = n_draws
  /\ (exists k, (k <= fuel)%nat
        /\ out = firstn n_draws (fst (after_iterations k g))
        /\ g' = snd (after_iterations k g)
        /\ (forall j, (j < k)%nat ->
              (length (fst (after_iterations j g)) < n_draws)%nat))
  /\ (forall fuel', (fuel <= fuel')%nat ->
        rejection_sampler uniform fuel' g n_draws f bounds selfunc
        = Some (out, g'))
  /\ (n_draws = 0%nat -> out = [] /\ g' = g).
Proof.
  unfold rejection_sampler. intros H.
  destruct (sampler_loop uniform fuel n_draws f bounds selfunc top g [])
    as [[samples g1]|] eqn:E; [|discriminate].
  injection H as <- <-.
  destruct (sampler_loop_Some fuel ([], g) (samples, g1) E)
    as (k & Hk & Hr & Hn & Hmin).
  cbn [fst] in Hn. split; [now apply firstn_length_le|].
  split; [|split].
  - exists k. unfold Spec.after_iterations. rewrite <- Hr.
    repeat split; auto.
  - intros fuel' Hf.
    pose proof (sampler_loop_exact uniform n_draws f bounds selfunc
                  k ([], g) fuel' Hmin) as Hex.
    rewrite <- Hr in Hex. cbn [fst snd] in Hex.
    now rewrite (Hex Hn ltac:(lia)).
  - intros ->. destruct fuel; cbn [sampler_loop] in E;
      cbn [length Nat.ltb Nat.leb] in E; injection E as <- <-; auto.
Qed.

Hypothesis uniform_range :
  forall g lo hi n, lo <= hi ->
    Forall (fun x => lo <= x /\ x <= hi) (fst (uniform g lo hi n)).
Hypothesis nothing_to_accept : forall x, w x == 0.

Lemma envelope_zero : top == 0.
Proof.
  unfold envelope.
  destruct (linspace_nonempty (fst bounds) (snd bounds) 1000)
    as (x & rest & E); [lia|].
  apply Qle_antisym.
  - apply np_max_le; [rewrite E; discriminate|].
    apply Forall_map, Forall_forall. intros y _.
    rewrite (nothing_to_accept y). apply Qle_refl.
  - rewrite E. cbn [map]. rewrite <- (nothing_to_accept x) at 1.
    apply np_max_ge_head.
Qed.

Lemma sampler_step_accepts_nothing (g : rng_t) :
  fst (sampler_step ([], g)) = [].
Proof.
  unfold Spec.sampler_step.
  destruct (uniform g (fst bounds) (snd bounds) n_draws) as [pts g1].
  assert (H0 : 0 <= top) by (rewrite envelope_zero; apply Qle_refl).
  pose proof (uniform_range g1 0 top n_draws H0) as Hh.
  destruct (uniform g1 0 top n_draws) as [h g2]. cbn [fst app] in *.
  destruct (accepted pts (map w pts) h) as [|x l] eqn:E; [reflexivity|].
  exfalso.
  destruct (accepted_In f selfunc pts h x) as (_ & hx & Hin & Hlt).
  { rewrite E. now left. }
  rewrite Forall_forall in Hh. destruct (Hh hx Hin) as [Hpos _].
  rewrite (nothing_to_accept x) in Hlt.
  exact (Qlt_not_le _ _ Hlt Hpos).
Qed.

(** X16: no bound on the loop.  If the density times the selection
    function is zero everywhere (a selection function that vanishes, say),
    no candidate is ever accepted, and for [n_draws >= 1] the sampler
    returns after no number of passes. *)
Theorem rejection_sampler_never_returns_without_acceptance
  (fuel : nat) (g : rng_t) :
  (1 <= n_draws)%nat ->
  rejection_sampler uniform fuel g n_draws f bounds selfunc = None.
Proof.
  intros Hn. unfold rejection_sampler.
  assert (H : sampler_loop uniform fuel n_draws f bounds selfunc top g []
              = None).
  { revert g. induction fuel as [|fuel IH]; intros g.
    - cbn [sampler_loop length].
      destruct (Nat.ltb_spec 0 n_draws); [reflexivity|lia].
    - rewrite (sampler_loop_step uniform n_draws f bounds selfunc)
        by (cbn [length]; lia).
      pose proof (sampler_step_accepts_nothing g) as E.
      destruct (sampler_step ([], g)) as [s g1]. cbn [fst] in E. subst s.
      apply IH. }
  now rewrite H.
Qed.

End SamplerMoreProps.

Lemma rejection_sampler_result_is_fuel_independent_witness :
  Utils.rejection_sampler Fixtures.cycling_uniform 9 0%nat 3
                          Fixtures.parabola (0, 1)%Q None
  = Some ([0 # 4; 1 # 4; 3 # 4]%Q, 4%nat).
Proof.
  apply (proj1 (proj2 (proj2
           (rejection_sampler_result_is_fuel_independent
              Fixtures.cycling_uniform 3 Fixtures.parabola (0, 1)%Q None
              2 0%nat 4%nat [0 # 4; 1 # 4; 3 # 4]%Q
              ltac:(vm_compute; reflexivity))))).
  lia.
Defined.

Lemma rejection_sampler_never_returns_without_acceptance_witness :
  Utils.rejection_sampler Fixtures.cycling_uniform 50 0%nat 3
                          Fixtures.parabola (0, 1)%Q (Some (fun _ => 0%Q))
  = None.
Proof.
  apply (rejection_sampler_never_returns_without_acceptance
           Fixtures.cycling_uniform 3 Fixtures.parabola (0, 1)%Q
           (Some (fun _ => 0%Q)) cycling_uniform_range).
  - intros x. unfold Utils.weighted. ring.
  - lia.
Defined.

(** ** More on prior elicitation ([utils.py], [get_priors]) *)

Section PriorsMoreProps.

Import Utils.
Local Open Scope R_scope.

Variable transform_to_probit : list R -> list (R * R) -> list R.
Variable np_cov : list (list R) -> matrix.
Variable mvn_rvs : list R -> matrix -> nat -> result (list (list R)).

Local Abbreviation get_priors :=
  (get_priors transform_to_probit np_cov mvn_rvs).
Local Abbreviation mu_out := (mu_out transform_to_probit).
Local Abbreviation L_out := (L_out np_cov).
Local Abbreviation redraw := (redraw transform_to_probit np_cov mvn_rvs).
Local Abbreviation probit bounds :=
  (option_map (fun s => transform_rows transform_to_probit (as_rows s) bounds)).

Lemma np_identity_square (D : nat) : square D (np_identity D).
Proof.
  unfold np_identity. split; [now rewrite length_map, length_seq|].
  apply Forall_map, Forall_forall. intros i _.
  now rewrite length_map, length_seq.
Qed.

Lemma np_identity_entry (D i j : nat) :
  (i < D)%nat -> (j < D)%nat ->
  entry (np_identity D) i j = if (i =? j)%nat then 1 else 0.
Proof.
  intros Hi Hj. unfold entry, np_identity.
  rewrite (nth_map_lt _ (seq 0 D) i O) by now rewrite length_seq.
  rewrite (nth_map_lt _ (seq 0 D) j O) by now rewrite length_seq.
  now rewrite !seq_nth.
Qed.

(** [np.identity(dim)*std**2] row by row, when every row broadcasts. *)
Lemma L_from_std_rows (D : nat) (std : list R) (scale : list R -> list R) :
  (forall r, length r = D ->
             broadcast2 Rmult r (map (fun s => s ^ 2) std) = Ok (scale r)) ->
  L_from_std D std = Ok (map scale (np_identity D)).
Proof.
  intros Hrow. unfold L_from_std.
  pose proof (np_identity_square D) as [_ Hsq].
  set (M := np_identity D) in *. clearbody M. revert Hsq.
  induction M as [|r M IH]; intros Hsq; [reflexivity|].
  inversion Hsq as [|r' M' Hr HM].
  rewrite (Hrow r Hr). cbn [Py.bind]. rewrite (IH HM). reflexivity.
Qed.

Lemma L_from_std_fails (D : nat) (std : list R) :
  (2 <= D)%nat -> length std <> D -> length std <> 1%nat ->
  L_from_std D std = Raise (ValueError broadcast_msg).
Proof.
  intros HD Hne H1. unfold L_from_std, np_identity.
  destruct D as [|[|D]]; try lia.
  cbn [seq map]. unfold broadcast2. cbn [length map].
  rewrite length_map, length_seq, length_map.
  destruct (Nat.eqb_spec (S (S D)) (length std)) as [E|_]; [lia|].
  destruct std as [|s [|s' std]]; cbn [map]; try reflexivity.
  simpl in H1. lia.
Qed.

Lemma scaled_identity_entry (D : nat) (scale : list R -> list R)
  (c : nat -> R) (i j : nat) :
  (forall r, length r = D -> length (scale r) = D) ->
  (forall r m, length r = D -> (m < D)%nat ->
               nth m (scale r) 0 = nth m r 0 * c m) ->
  (i < D)%nat -> (j < D)%nat ->
  square D (map scale (np_identity D))
  /\ entry (map scale (np_identity D)) i j
     = if (i =? j)%nat then c j else 0.
Proof.
  intros Hlen Hnth Hi Hj.
  pose proof (np_identity_square D) as Hsq.
  assert (Hrow : length (nth i (np_identity D) []) = D)
    by now apply square_row.
  split.
  - destruct Hsq as [Hl Hr]. split; [now rewrite length_map|].
    apply Forall_map. eapply Forall_impl; [|exact Hr].
    intros r Hrl. now apply Hlen.
  - unfold entry. rewrite (nth_map_lt scale _ i [])
      by (destruct Hsq as [-> _]; exact Hi).
    rewrite Hnth by assumption.
    change (nth j (nth i (np_identity D) []) 0) with (entry (np_identity D) i j).
    rewrite np_identity_entry by assumption.
    destruct (i =? j)%nat; lra.
Qed.

(** X17: a standard deviation becomes a diagonal covariance.  With [std]
    given and no [cov], the covariance handed to the Monte-Carlo step has
    the squares of the standard deviations on its diagonal and zeros
    elsewhere, for one standard deviation per dimension and for a single
    one used on every axis; a [std] of any other length (in two or more
    dimensions) makes the call raise [ValueError], once the mean is
    settled. *)
Theorem std_becomes_diagonal_covariance
  (bounds : list (R * R)) (samples : option samples_t) (std : list R) :
  (length std = length bounds ->
   exists M,
     L_out (length bounds) (probit bounds samples) (Some std) None
     = Ok (M, true)
     /\ square (length bounds) M
     /\ forall i j, (i < length bounds)%nat -> (j < length bounds)%nat ->
          entry M i j = if (i =? j)%nat then nth j std 0 ^ 2 else 0)
  /\ (forall s, std = [s] ->
      exists M,
        L_out (length bounds) (probit bounds samples) (Some std) None
        = Ok (M, true)
        /\ square (length bounds) M
        /\ forall i j, (i < length bounds)%nat -> (j < length bounds)%nat ->
             entry M i j = if (i =? j)%nat then s ^ 2 else 0)
  /\ ((2 <= length bounds)%nat -> length std <> length bounds ->
      length std <> 1%nat ->
      forall mean df k mu,
        mu_out bounds (probit bounds samples) mean = Ok mu ->
        get_priors bounds samples mean (Some std) None df k
        = Raise (ValueError broadcast_msg)).
Proof.
  set (D := length bounds). split; [|split].
  - intros Hlen.
    set (scale := fun r : list R =>
           map (fun p => fst p * snd p)
               (combine r (map (fun s => s ^ 2) std))).
    assert (HL : L_from_std D std = Ok (map scale (np_identity D))).
    { apply L_from_std_rows. intros r Hr.
      apply broadcast2_same_length. rewrite length_map. congruence. }
    exists (map scale (np_identity D)).
    unfold Utils.L_out. rewrite HL. cbn [Py.bind]. split; [reflexivity|].
    assert (Hs1 : forall r, length r = D -> length (scale r) = D).
    { intros r Hr. unfold scale.
      rewrite length_map, length_combine, length_map. lia. }
    assert (Hs2 : forall r m, length r = D -> (m < D)%nat ->
                    nth m (scale r) 0 = nth m r 0 * nth m std 0 ^ 2).
    { intros r m Hr Hm. unfold scale.
      rewrite (nth_map_lt _ _ m (0, 0))
        by (rewrite length_combine, length_map; lia).
      rewrite combine_nth by (rewrite length_map; lia). cbn [fst snd].
      now rewrite (nth_map_lt _ std m 0) by lia. }
    destruct D as [|D'] eqn:ED.
    + split; [apply (np_identity_square 0)|]. intros i j Hi. lia.
    + split.
      * apply (scaled_identity_entry (S D') scale
                 (fun m => nth m std 0 ^ 2) O O Hs1 Hs2); lia.
      * intros i j Hi Hj.
        apply (scaled_identity_entry (S D') scale
                 (fun m => nth m std 0 ^ 2) i j Hs1 Hs2); assumption.
  - intros s ->.
    set (scale := fun r : list R => map (fun x => x * s ^ 2) r).
    assert (HL : L_from_std D [s] = Ok (map scale (np_identity D))).
    { apply L_from_std_rows. intros r Hr. unfold broadcast2. cbn [map length].
      destruct (Nat.eqb_spec (length r) 1) as [E|E].
      - destruct r as [|x [|y r]]; try discriminate. reflexivity.
      - destruct r as [|x [|y r]]; reflexivity || (now simpl in E). }
    exists (map scale (np_identity D)).
    unfold Utils.L_out. rewrite HL. cbn [Py.bind]. split; [reflexivity|].
    assert (Hs1 : forall r, length r = D -> length (scale r) = D).
    { intros r Hr. unfold scale. now rewrite length_map. }
    assert (Hs2 : forall r m, length r = D -> (m < D)%nat ->
                    nth m (scale r) 0 = nth m r 0 * s ^ 2).
    { intros r m Hr Hm. unfold scale.
      now rewrite (nth_map_lt _ r m 0) by lia. }
    destruct D as [|D'] eqn:ED.
    + split; [apply (np_identity_square 0)|]. intros i j Hi. lia.
    + split.
      * apply (scaled_identity_entry (S D') scale
                 (fun _ => s ^ 2) O O Hs1 Hs2); lia.
      * intros i j Hi Hj.
        apply (scaled_identity_entry (S D') scale
                 (fun _ => s ^ 2) i j Hs1 Hs2); assumption.
  - intros HD Hne H1 mean df k mu Hmu.
    unfold Utils.get_priors. fold D. rewrite Hmu. cbn [Py.bind].
    unfold Utils.L_out. rewrite (L_from_std_fails D std HD Hne H1).
    reflexivity.
Qed.

(** X19: the covariance derived from the samples keeps the shape of a
    covariance.  If the empirical covariance [C] is symmetric with positive
    variances and [|C[i][j]| <= sqrt(C[i][i])*sqrt(C[j][j])], then [L] is
    symmetric, its diagonal is positive and at most [0.2*0.2], and no entry
    exceeds [0.2*0.2] in absolute value. *)
Theorem covariance_from_samples_stays_symmetric_and_bounded
  (ps : list (list R)) (D : nat) :
  square D (np_cov ps) ->
  (forall i, (i < D)%nat -> 0 < entry (np_cov ps) i i) ->
  (forall i j, (i < D)%nat -> (j < D)%nat ->
     entry (np_cov ps) i j = entry (np_cov ps) j i) ->
  (forall i j, (i < D)%nat -> (j < D)%nat ->
     Rabs (entry (np_cov ps) i j)
     <= sqrt (entry (np_cov ps) i i) * sqrt (entry (np_cov ps) j j)) ->
  forall i j, (i < D)%nat -> (j < D)%nat ->
    entry (L_from_samples np_cov ps) i j = entry (L_from_samples np_cov ps) j i
    /\ 0 < entry (L_from_samples np_cov ps) i i <= 0.2 * 0.2
    /\ Rabs (entry (L_from_samples np_cov ps) i j) <= 0.2 * 0.2.
Proof.
  intros HC Hpos Hsym Hcs i j Hi Hj.
  set (C := np_cov ps) in *.
  assert (Hentry := fun a b => L_from_samples_entry np_cov D ps a b HC).
  fold C in Hentry.
  pose proof (scaled_std_pos C i (Hpos i Hi)) as Hdi.
  pose proof (scaled_std_pos C j (Hpos j Hj)) as Hdj.
  pose proof (clamped_std_pos C i (Hpos i Hi)) as Hsi.
  pose proof (clamped_std_pos C j (Hpos j Hj)) as Hsj.
  pose proof (clamped_std_le C i) as Hsi2.
  pose proof (clamped_std_le C j) as Hsj2.
  split; [|split].
  - rewrite !Hentry by assumption. rewrite (Hsym i j Hi Hj).
    field. split; lra.
  - rewrite Hentry by assumption.
    rewrite <- (scaled_std_sqr C i (Hpos i Hi)).
    replace (scaled_std C i * scaled_std C i
             * (clamped_std C i * clamped_std C i)
             / (scaled_std C i * scaled_std C i))
      with (clamped_std C i * clamped_std C i) by (field; lra).
    split; nra.
  - rewrite Hentry by assumption.
    pose proof (scaled_std_third C i (Hpos i Hi)) as Ei.
    pose proof (scaled_std_third C j (Hpos j Hj)) as Ej.
    assert (Hri : 0 < sqrt (entry C i i)) by lra.
    assert (Hrj : 0 < sqrt (entry C j j)) by lra.
    rewrite Ei, Ej.
    replace (entry C i j / 9 * (clamped_std C i * clamped_std C j)
             / (sqrt (entry C i i) / 3 * (sqrt (entry C j j) / 3)))
      with (entry C i j / (sqrt (entry C i i) * sqrt (entry C j j))
            * (clamped_std C i * clamped_std C j)) by (field; lra).
    rewrite Rabs_mult.
    rewrite (Rabs_pos_eq (clamped_std C i * clamped_std C j)) by nra.
    assert (Hrho : Rabs (entry C i j
                         / (sqrt (entry C i i) * sqrt (entry C j j))) <= 1).
    { unfold Rdiv. rewrite Rabs_mult.
      rewrite (Rabs_pos_eq (/ _))
        by (left; apply Rinv_0_lt_compat; nra).
      apply (Rmult_le_reg_r (sqrt (entry C i i) * sqrt (entry C j j)));
        [nra|].
      rewrite Rmult_assoc, Rinv_l by nra.
      specialize (Hcs i j Hi Hj). lra. }
    assert (Hss : 0 <= clamped_std C i * clamped_std C j <= 0.2 * 0.2)
      by nra.
    set (ss := clamped_std C i * clamped_std C j) in *.
    apply Rle_trans with (1 * ss); [|lra].
    apply Rmult_le_compat_r; [lra|exact Hrho].
Qed.

End PriorsMoreProps.

Section PriorsMoreExamples.

Import Utils.
Local Open Scope R_scope.

Local Abbreviation demo_priors shift :=
  (get_priors Fixtures.logit_transform Fixtures.empirical_cov
              (Fixtures.shifted_rvs shift)).

Lemma std_becomes_diagonal_covariance_witness :
  demo_priors 0 [(0, 1); (0, 1)] None None (Some [1; 2; 3]) None None None
  = Raise (ValueError broadcast_msg)
  /\ exists M,
       L_out Fixtures.empirical_cov 2 None (Some [3; 5]) None = Ok (M, true)
       /\ entry M 1 1 = 5 ^ 2 /\ entry M 0 1 = 0.
Proof.
  split.
  - refine (proj2 (proj2 (std_becomes_diagonal_covariance
                            Fixtures.logit_transform Fixtures.empirical_cov
                            (Fixtures.shifted_rvs 0)
                            [(0, 1); (0, 1)] None [1; 2; 3]))
                  _ _ _ None None None [0; 0] eq_refl);
      [simpl; lia|discriminate|discriminate].
  - destruct (proj1 (std_becomes_diagonal_covariance
                       Fixtures.logit_transform Fixtures.empirical_cov
                       (Fixtures.shifted_rvs 0)
                       [(0, 1); (0, 1)] None [3; 5]) eq_refl)
      as (M & HM & _ & He).
    exists M. split; [exact HM|]. split.
    + exact (He 1%nat 1%nat ltac:(simpl; lia) ltac:(simpl; lia)).
    + exact (He 0%nat 1%nat ltac:(simpl; lia) ltac:(simpl; lia)).
Defined.

Lemma covariance_from_samples_stays_symmetric_and_bounded_witness :
  0 < entry (L_from_samples Fixtures.empirical_cov
               (transform_rows Fixtures.logit_transform [[1]; [3]] [(0, 4)]))
            0 0
  <= 0.2 * 0.2.
Proof.
  refine (proj1 (proj2 (covariance_from_samples_stays_symmetric_and_bounded
                          Fixtures.empirical_cov
                          (transform_rows Fixtures.logit_transform
                             [[1]; [3]] [(0, 4)]) 1 _ _ _ _
                          O O Nat.lt_0_1 Nat.lt_0_1))).
  - split; [reflexivity|]. constructor; [reflexivity|constructor].
  - exact two_samples_have_positive_variance.
  - intros i j Hi Hj. assert (i = O) by lia. assert (j = O) by lia.
    now subst.
  - intros i j Hi Hj. assert (i = O) by lia. assert (j = O) by lia. subst.
    pose proof (two_samples_have_positive_variance O Nat.lt_0_1) as Hp.
    cbn [as_rows map] in Hp.
    rewrite sqrt_sqrt by lra. rewrite Rabs_pos_eq by lra. lra.
Defined.

End PriorsMoreExamples.

(** ** Names of the event files ([load.py], lines 50 and 95) *)

Section EventNameProps.

Import EventNames.
Local Open Scope string_scope.

Lemma split_nonempty (sep : ascii) (s : string) : split sep s <> [].
Proof.
  destruct s as [|c rest]; cbn [split]; [discriminate|].
  destruct (Ascii.eqb c sep); [discriminate|].
  destruct (split sep rest); discriminate.
Qed.

Lemma split_length (sep : ascii) (s : string) :
  length (split sep s) = S (occurs sep s).
Proof.
  induction s as [|c rest IH]; [reflexivity|].
  cbn [split occurs]. destruct (Ascii.eqb c sep).
  - cbn [length]. now rewrite IH.
  - pose proof (split_nonempty sep rest).
    destruct (split sep rest); [congruence|]. exact IH.
Qed.

Lemma split_pieces (sep : ascii) (s : string) :
  Forall (fun piece => occurs sep piece = O) (split sep s).
Proof.
  induction s as [|c rest IH]; [repeat constructor|].
  cbn [split]. destruct (Ascii.eqb c sep) eqn:E.
  - constructor; [reflexivity|exact IH].
  - pose proof (split_nonempty sep rest).
    destruct (split sep rest) as [|piece pieces]; [congruence|].
    inversion IH; subst. constructor; [|assumption].
    cbn [occurs]. now rewrite E.
Qed.

Lemma concat_cons2 (sep x y : string) (l : list string) :
  String.concat sep (x :: y :: l) = x ++ sep ++ String.concat sep (y :: l).
Proof. reflexivity. Qed.

(** Joining the pieces with the separator gives the string back. *)
Lemma split_join (sep : ascii) (s : string) :
  String.concat (String sep EmptyString) (split sep s) = s.
Proof.
  induction s as [|c rest IH]; [reflexivity|].
  cbn [split]. pose proof (split_nonempty sep rest).
  destruct (split sep rest) as [|piece pieces] eqn:E; [congruence|].
  destruct (Ascii.eqb_spec c sep) as [->|Hne].
  - rewrite <- IH. reflexivity.
  - destruct pieces as [|p2 ps].
    + rewrite <- IH. reflexivity.
    + rewrite <- IH. reflexivity.
Qed.

Lemma split_no_sep (sep : ascii) (s : string) :
  occurs sep s = O -> split sep s = [s].
Proof.
  induction s as [|c rest IH]; [reflexivity|].
  cbn [occurs split]. destruct (Ascii.eqb c sep); [discriminate|].
  intros H. now rewrite (IH H).
Qed.

Lemma split_app (sep : ascii) (a b : string) :
  occurs sep a = O ->
  split sep (a ++ String sep b) = a :: split sep b.
Proof.
  induction a as [|c rest IH]; cbn [append split occurs].
  - now rewrite Ascii.eqb_refl.
  - destruct (Ascii.eqb c sep); [discriminate|].
    intros H. now rewrite (IH H).
Qed.

Lemma split_last_app (sep : ascii) (a b : string) :
  last (split sep (a ++ String sep b)) EmptyString
  = last (split sep b) EmptyString.
Proof.
  induction a as [|c rest IH]; cbn [append split].
  - rewrite Ascii.eqb_refl. pose proof (split_nonempty sep b).
    destruct (split sep b); [congruence|reflexivity].
  - pose proof (split_nonempty sep (rest ++ String sep b)) as Hne.
    destruct (Ascii.eqb c sep).
    + destruct (split sep (rest ++ String sep b)); [congruence|exact IH].
    + destruct (split sep (rest ++ String sep b)) as [|p ps] eqn:E;
        [congruence|].
      destruct ps as [|p2 ps]; [|exact IH].
      (* one piece only: impossible, the separator occurs *)
      exfalso. pose proof (split_length sep (rest ++ String sep b)) as Hl.
      rewrite E in Hl. cbn [length] in Hl.
      assert (Hocc : (1 <= occurs sep (rest ++ String sep b))%nat).
      { clear. induction rest as [|d rest IH]; cbn [append occurs].
        - rewrite Ascii.eqb_refl. lia.
        - destruct (Ascii.eqb d sep); lia. }
      lia.
Qed.

(** X20: the name and the extension of an event file.  The path is cut at
    its last slash and the rest at its dots, so directories may contain
    dots; the call succeeds exactly when the file name has one dot, and
    then name and extension are the two parts around it; a file name
    without a dot, or with two or more, raises [ValueError]. *)
Theorem name_and_ext_needs_exactly_one_dot (event : string) :
  (forall name ext,
      name_and_ext event = Ok (name, ext) <->
      basename event = name ++ "." ++ ext
      /\ occurs "." name = O /\ occurs "." ext = O)
  /\ (occurs "." (basename event) = O ->
      name_and_ext event = Raise (ValueError too_few_msg))
  /\ ((2 <= occurs "." (basename event))%nat ->
      name_and_ext event = Raise (ValueError too_many_msg))
  /\ (forall dir file,
        occurs "/" file = O ->
        event = dir ++ "/" ++ file -> basename event = file).
Proof.
  split; [|split; [|split]].
  - intros name ext. unfold name_and_ext. split.
    + intros H.
      pose proof (split_join "." (basename event)) as Hj.
      pose proof (split_pieces "." (basename event)) as Hp.
      destruct (split "." (basename event)) as [|a [|b [|c l]]];
        try discriminate.
      injection H as -> ->. cbn [String.concat] in Hj.
      inversion Hp as [|? ? Ha Hp']; subst. inversion Hp'; subst.
      split; [now rewrite Hj|split; assumption].
    + intros (Hb & Hn & He). rewrite Hb.
      cbn [append]. rewrite (split_app "." name ext Hn).
      now rewrite (split_no_sep "." ext He).
  - intros H. unfold name_and_ext.
    now rewrite (split_no_sep "." _ H).
  - intros H. unfold name_and_ext.
    pose proof (split_length "." (basename event)) as Hl.
    destruct (split "." (basename event)) as [|a [|b [|c l]]];
      cbn [length] in Hl; try lia. reflexivity.
  - intros dir file Hf ->. unfold basename. cbn [append].
    rewrite split_last_app. now rewrite (split_no_sep "/" file Hf).
Qed.

Lemma name_and_ext_needs_exactly_one_dot_witness :
  name_and_ext "runs/v1.2/GW150914.h5" = Ok ("GW150914", "h5")
  /\ name_and_ext "data/GW150914.v2.h5" = Raise (ValueError too_many_msg)
  /\ name_and_ext "data/GW150914" = Raise (ValueError too_few_msg).
Proof.
  split; [|split].
  - apply (proj1 (name_and_ext_needs_exactly_one_dot "runs/v1.2/GW150914.h5")).
    repeat split.
  - apply (proj1 (proj2 (proj2
             (name_and_ext_needs_exactly_one_dot "data/GW150914.v2.h5")))).
    cbn. lia.
  - apply (proj1 (proj2
             (name_and_ext_needs_exactly_one_dot "data/GW150914"))).
    reflexivity.
Defined.

End EventNameProps.

(** ** Unpacking the posterior samples of an event ([load.py], lines 118-250) *)

Section GWProps.

Import GWPosterior.

Local Open Scope R_scope.

Context {cosmology rng_t : Type}.
Variable LuminosityDistance_double : cosmology -> R -> R.
Variable newton : (R -> R) -> R -> result R.
Variable CosmologicalParameters : R -> R -> R -> R -> R -> cosmology.
Variable choice :
  rng_t -> forall n : nat, nat -> list {i : nat | (i < n)%nat} * rng_t.
Variable h5py_File : string -> h5file.
Variable genfromtxt_names : string -> table.

Local Abbreviation unpack :=
  (_unpack_gw_posterior LuminosityDistance_double newton
     CosmologicalParameters choice h5py_File genfromtxt_names).
Local Abbreviation redshifts :=
  (find_redshifts LuminosityDistance_double newton).
Local Abbreviation overall_cols :=
  (overall_columns LuminosityDistance_double newton).
Local Abbreviation table_cols :=
  (table_columns LuminosityDistance_double newton).

Lemma requested_perm par par' name :
  Permutation par par' -> requested par name = requested par' name.
Proof.
  intros HP. unfold requested.
  apply eq_true_iff_eq. rewrite !existsb_exists.
  split; intros [x [Hin Hx]]; exists x; split; auto.
  - eapply Permutation_in; eauto.
  - eapply Permutation_in; [apply Permutation_sym|]; eauto.
Qed.

Lemma append_requested_ext par par' steps samples :
  (forall name, In name (map fst steps) ->
                requested par name = requested par' name) ->
  append_requested par steps samples = append_requested par' steps samples.
Proof.
  revert samples. induction steps as [|[name col] steps IH]; intros samples H.
  - reflexivity.
  - cbn [append_requested].
    rewrite <- (H name) by (left; reflexivity).
    destruct (requested par name).
    + destruct col; [apply IH|reflexivity].
      intros n Hn. apply H. right. exact Hn.
    + apply IH. intros n Hn. apply H. right. exact Hn.
Qed.

Lemma unpack_ext event par par' h om ol g ext n_samples :
  (forall name, In name known_names ->
                requested par name = requested par' name) ->
  (length par =? 1)%nat = (length par' =? 1)%nat ->
  unpack event par' (h, om, ol) g ext n_samples
  = unpack event par (h, om, ol) g ext n_samples.
Proof.
  intros Hreq Hlen.
  assert (Hfin : forall cols, finish choice par' n_samples g cols
                              = finish choice par n_samples g cols).
  { intros cols. unfold finish, shape_samples. rewrite Hlen. reflexivity. }
  assert (Hpub : forall f s, publication_columns f par' s
                             = publication_columns f par s).
  { intros f s. unfold publication_columns.
    destruct (posterior_samples f); [|reflexivity].
    symmetry. apply append_requested_ext.
    intros name Hn. apply Hreq. cbn in Hn. unfold known_names. cbn.
    intuition. }
  assert (Hov : forall f omega s, overall_cols f par' omega s
                                  = overall_cols f par omega s).
  { intros f omega s. unfold overall_columns.
    destruct (Overall_posterior f); [|reflexivity].
    repeat (match goal with
            | |- bind ?r _ = bind ?r _ => destruct r; cbn [bind]; [|reflexivity]
            end).
    erewrite (append_requested_ext par' par); [reflexivity|].
    intros name Hn. symmetry. apply Hreq. cbn in Hn. unfold known_names. cbn.
    intuition. }
  assert (Htab : forall data omega, table_cols data par' omega
                                    = table_cols data par omega).
  { intros data omega. unfold table_columns.
    repeat (match goal with
            | |- bind ?r _ = bind ?r _ => destruct r; cbn [bind]; [|reflexivity]
            end).
    erewrite (append_requested_ext par' par); [reflexivity|].
    intros name Hn. symmetry. apply Hreq. cbn in Hn. unfold known_names. cbn.
    intuition. }
  unfold _unpack_gw_posterior.
  destruct (_ || _)%bool.
  - rewrite Hpub.
    destruct (publication_columns _ par []) as [[e|] samples].
    + rewrite Hov. destruct (overall_cols _ _ _ _); cbn [bind]; auto.
    + rewrite Hfin. destruct (finish _ _ _ _ _); auto.
      rewrite Hov. destruct (overall_cols _ _ _ _); cbn [bind]; auto.
  - rewrite Htab. destruct (table_cols _ _ _); cbn [bind]; auto.
Qed.

(** X21: The names in [par] are a set for the loader: listing them in
    another order returns the same array, with the columns in the order of
    the code, and a name that the loader does not know is passed over in
    silence when [par] has two names or more. *)
Theorem unpack_ignores_the_order_of_par event par h om ol g ext n_samples :
  (forall par',
      Permutation par par' ->
      unpack event par' (h, om, ol) g ext n_samples
      = unpack event par (h, om, ol) g ext n_samples)
  /\ (forall name,
         ~ In name known_names -> (2 <= length par)%nat ->
         unpack event (name :: par) (h, om, ol) g ext n_samples
         = unpack event par (h, om, ol) g ext n_samples).
Proof.
  split.
  - intros par' HP. apply unpack_ext.
    + intros name _. apply requested_perm, HP.
    + rewrite (Permutation_length HP). reflexivity.
  - intros name Hname Hlen. apply unpack_ext.
    + intros n Hn. unfold requested. cbn [existsb].
      destruct (String.eqb_spec n name) as [->|_]; [contradiction|].
      reflexivity.
    + destruct par as [|a [|b par]]; cbn in *; lia || reflexivity.
Qed.

(** *** Reading a file that is not HDF5 *)

Lemma find_redshifts_inv omega LD zs :
  redshifts omega LD = Return zs ->
  Forall2 (fun l z =>
             Load._find_redshift LuminosityDistance_double newton omega l
             = Ok z) LD zs.
Proof.
  revert zs. induction LD as [|l LD IH]; intros zs H; cbn in H.
  - injection H as <-. constructor.
  - unfold find_redshift in H.
    destruct (Load._find_redshift _ _ _ l) as [z|e] eqn:E; cbn in H;
      [|discriminate].
    destruct (redshifts omega LD) as [zs'|e]; cbn in H; [|discriminate].
    injection H as <-. constructor; auto.
Qed.

Lemma find_redshifts_ok omega LD :
  Forall (fun l => exists z,
              Load._find_redshift LuminosityDistance_double newton omega l
              = Ok z) LD ->
  exists zs, redshifts omega LD = Return zs.
Proof.
  induction 1 as [|l LD [z Hz] _ [zs IH]]; cbn.
  - eexists; reflexivity.
  - unfold find_redshift. rewrite Hz. cbn. rewrite IH. cbn.
    eexists; reflexivity.
Qed.

Lemma append_requested_returned par steps samples :
  append_requested par (returned steps) samples
  = (None, samples ++ map snd (filter (fun p => requested par (fst p)) steps)).
Proof.
  revert samples. induction steps as [|[name c] steps IH]; intros samples.
  - cbn. rewrite app_nil_r. reflexivity.
  - cbn [returned map fst snd append_requested filter].
    destruct (requested par name).
    + fold (returned steps). rewrite IH. cbn [map snd].
      rewrite <- app_assoc. reflexivity.
    + fold (returned steps). apply IH.
Qed.

Lemma length_zip_with op a b :
  length (zip_with op a b) = Nat.min (length a) (length b).
Proof. unfold zip_with. rewrite length_map, length_combine. reflexivity. Qed.

Lemma length_column data name :
  length (column data name) = length (records data).
Proof. unfold column. apply length_map. Qed.

Lemma shape_samples_uniform par cols N :
  Forall (fun c => length c = N) cols ->
  shape_samples par cols
  = Return (match cols with
            | [] => Utils.Samples1D []
            | _ :: _ => if (length par =? 1)%nat
                        then Utils.Samples1D (concat cols)
                        else Utils.Samples2D (transpose cols)
            end).
Proof.
  intros H. destruct cols as [|c rest]; [reflexivity|].
  unfold shape_samples. inversion H as [|? ? Hc Hrest]; subst.
  replace (forallb _ rest) with true;
    [destruct (length par =? 1)%nat; reflexivity|].
  symmetry. apply forallb_forall. intros col Hin.
  rewrite Forall_forall in Hrest. rewrite (Hrest col Hin).
  apply Nat.eqb_refl.
Qed.

Lemma table_columns_inv data par omega cols :
  table_cols data par omega = Return cols ->
  Forall (fun name => has_field data name = true) table_fields
  /\ length (records data) <> 1%nat
  /\ exists zs,
      redshifts omega (column data "luminosity_distance") = Return zs
      /\ cols = map snd (filter (fun p => requested par (fst p))
                                (table_steps data zs)).
Proof.
  unfold table_columns, np_field, iterable.
  destruct (has_field data "ra") eqn:Hra; cbn [bind]; [|discriminate].
  destruct (has_field data "dec") eqn:Hdec; cbn [bind]; [|discriminate].
  destruct (has_field data "luminosity_distance") eqn:HLD; cbn [bind];
    [|discriminate].
  destruct (length (records data) =? 1)%nat eqn:Hone; cbn [bind];
    [discriminate|].
  destruct (redshifts omega _) as [zs|e] eqn:Hz; cbn [bind]; [|discriminate].
  destruct (has_field data "mass_1") eqn:Hm1; cbn [bind]; [|discriminate].
  destruct (has_field data "mass_2") eqn:Hm2; cbn [bind]; [|discriminate].
  change (append_requested par _ [])
    with (append_requested par (returned (table_steps data zs)) []).
  rewrite append_requested_returned. cbn [app].
  intros H. injection H as <-.
  split; [|split].
  - unfold table_fields. repeat constructor; assumption.
  - apply Nat.eqb_neq. exact Hone.
  - exists zs. split; reflexivity.
Qed.

Lemma table_columns_ok data par omega :
  Forall (fun name => has_field data name = true) table_fields ->
  length (records data) <> 1%nat ->
  Forall (fun l => exists z,
              Load._find_redshift LuminosityDistance_double newton omega l
              = Ok z) (column data "luminosity_distance") ->
  exists zs,
    redshifts omega (column data "luminosity_distance") = Return zs
    /\ table_cols data par omega
       = Return (map snd (filter (fun p => requested par (fst p))
                                 (table_steps data zs))).
Proof.
  intros Hf Hone Hz. unfold table_fields in Hf.
  inversion Hf as [|? ? Hra Hf1]; subst.
  inversion Hf1 as [|? ? Hdec Hf2]; subst.
  inversion Hf2 as [|? ? HLD Hf3]; subst.
  inversion Hf3 as [|? ? Hm1 Hf4]; subst.
  inversion Hf4 as [|? ? Hm2 _]; subst.
  destruct (find_redshifts_ok omega _ Hz) as [zs Hzs].
  exists zs. split; [exact Hzs|].
  unfold table_columns, np_field, iterable.
  rewrite Hra, Hdec, HLD; cbn [bind].
  apply Nat.eqb_neq in Hone. rewrite Hone; cbn [bind].
  rewrite Hzs; cbn [bind]. rewrite Hm1, Hm2; cbn [bind].
  change (append_requested par _ [])
    with (append_requested par (returned (table_steps data zs)) []).
  rewrite append_requested_returned. reflexivity.
Qed.

Lemma table_steps_uniform data omega zs :
  redshifts omega (column data "luminosity_distance") = Return zs ->
  Forall (fun p => length (snd p) = length (records data))
         (table_steps data zs).
Proof.
  intros Hz. apply find_redshifts_inv, Forall2_length in Hz.
  rewrite length_column in Hz.
  unfold table_steps. repeat constructor; cbn [snd];
    rewrite ?length_zip_with, ?length_column, <- ?Hz; lia.
Qed.

Lemma filtered_columns_uniform par steps N :
  Forall (fun p : string * list R => length (snd p) = N) steps ->
  Forall (fun c => length c = N)
         (map snd (filter (fun p => requested par (fst p)) steps)).
Proof.
  intros H. apply Forall_forall. intros c Hc.
  apply in_map_iff in Hc as [p [<- Hp]]. apply filter_In in Hp as [Hp _].
  rewrite Forall_forall in H. apply H, Hp.
Qed.

(** X22: Whether a file that is not HDF5 can be loaded does not depend
    on the parameters asked for: the call returns exactly when the file
    has the five columns that the code reads, does not consist of one
    record, and the redshift is found for every luminosity distance.  So
    a request for the sky position alone fails on a file without masses,
    and on one sample whose redshift search does not converge. *)
Theorem table_load_succeeds_whatever_par event par h om ol g ext n_samples :
  ext <> "h5"%string -> ext <> "hdf5"%string ->
  (exists out, unpack event par (h, om, ol) g ext n_samples = Return out)
  <-> (Forall (fun name => has_field (genfromtxt_names event) name = true)
              table_fields
       /\ length (records (genfromtxt_names event)) <> 1%nat
       /\ Forall (fun l => exists z,
                      Load._find_redshift LuminosityDistance_double newton
                        (CosmologicalParameters h om ol (-1) 0) l = Ok z)
                 (column (genfromtxt_names event) "luminosity_distance")).
Proof.
  intros Hh5 Hhdf5. unfold _unpack_gw_posterior.
  apply String.eqb_neq in Hh5, Hhdf5. rewrite Hh5, Hhdf5. cbn [orb].
  set (data := genfromtxt_names event).
  set (omega := CosmologicalParameters h om ol (-1) 0).
  split.
  - intros [out Hout].
    destruct (table_cols data par omega) as [cols|e] eqn:Hcols;
      cbn [bind] in Hout; [|discriminate].
    destruct (table_columns_inv _ _ _ _ Hcols) as [Hf [Hone [zs [Hz _]]]].
    split; [exact Hf|]. split; [exact Hone|].
    apply find_redshifts_inv in Hz. clear - Hz.
    induction Hz; constructor; eauto.
  - intros [Hf [Hone Hz]].
    destruct (table_columns_ok data par omega Hf Hone Hz) as [zs [Hzs ->]].
    cbn [bind]. unfold finish.
    rewrite (shape_samples_uniform par _ (length (records data)))
      by (apply filtered_columns_uniform, (table_steps_uniform _ omega), Hzs).
    cbn [bind]. eexists. reflexivity.
Qed.

Lemma length_filter_fst {A} (f : string -> bool) (l : list (string * A)) :
  length (filter (fun p => f (fst p)) l) = length (filter f (map fst l)).
Proof.
  induction l as [|[k v] l IH]; cbn; [reflexivity|].
  destruct (f k); cbn; rewrite IH; reflexivity.
Qed.

Lemma single_name_single_column x :
  (length (filter (requested [x]) table_names) <= 1)%nat.
Proof.
  unfold table_names, requested. cbn [filter existsb].
  repeat match goal with
         | |- context [String.eqb ?a x] =>
             destruct (String.eqb_spec a x); [subst x; cbn; lia|]
         end.
  cbn. lia.
Qed.

Lemma length_transpose cols N :
  cols <> [] ->
  Forall (fun c => length c = N) cols ->
  length (transpose cols) = N
  /\ Forall (fun r => length r = length cols) (transpose cols).
Proof.
  intros Hne H. destruct cols as [|c rest]; [contradiction|].
  unfold transpose. inversion H; subst. split.
  - rewrite length_map, length_seq. reflexivity.
  - apply Forall_forall. intros r Hr.
    apply in_map_iff in Hr as [i [<- _]]. apply length_map.
Qed.

Lemma length_concat_single (c : list R) : length (concat [c]) = length c.
Proof. cbn. rewrite app_nil_r. reflexivity. Qed.

Lemma take_length {A} (d : A) a idx : length (take d a idx) = length idx.
Proof. apply length_map. Qed.

Lemma take_In {A} (d : A) a idx x : In x (take d a idx) -> In x a.
Proof.
  unfold take. intros H. apply in_map_iff in H as [[i Hi] [<- _]].
  apply nth_In. exact Hi.
Qed.

Section Downsampling.

(** The contract of [choice] without replacement: as many positions as
    asked for, when there are that many. *)
Hypothesis choice_size :
  forall g n s, (s <= n)%nat -> length (fst (choice g n s)) = s.

Lemma downsample_len n_samples g samples :
  len (fst (downsample choice n_samples g samples))
  = kept n_samples (len samples).
Proof.
  unfold downsample, kept.
  destruct (n_samples >? -1)%Z eqn:Hn; [|reflexivity].
  destruct samples as [xs|rows]; cbn [len].
  - destruct (choice g (length xs) _) as [idx g'] eqn:E. cbn [fst len].
    rewrite take_length.
    change idx with (fst (idx, g')). rewrite <- E. apply choice_size. lia.
  - destruct (choice g (length rows) _) as [idx g'] eqn:E. cbn [fst len].
    rewrite take_length.
    change idx with (fst (idx, g')). rewrite <- E. apply choice_size. lia.
Qed.

Lemma downsample_rows n_samples g rows :
  exists rows',
    fst (downsample choice n_samples g (Utils.Samples2D rows))
    = Utils.Samples2D rows'
    /\ forall r, In r rows' -> In r rows.
Proof.
  unfold downsample. destruct (n_samples >? -1)%Z.
  - destruct (choice g (length rows) _) as [idx g']. cbn [fst].
    eexists. split; [reflexivity|]. intros r. apply take_In.
  - exists rows. split; [reflexivity|auto].
Qed.

Lemma downsample_flat n_samples g xs :
  exists xs',
    fst (downsample choice n_samples g (Utils.Samples1D xs))
    = Utils.Samples1D xs'.
Proof.
  unfold downsample. destruct (n_samples >? -1)%Z.
  - destruct (choice g (length xs) _) as [idx g']. cbn [fst].
    eexists. reflexivity.
  - exists xs. reflexivity.
Qed.

(** X23: The shape of what a file that is not HDF5 gives.  With [N]
    records in the file and [k] of the seven names of this branch in
    [par], the result has the number of samples kept of [N]: a flat array
    when [par] is a single name, and otherwise one row of [k] values per
    sample.  With none of the names in [par] the result is an empty
    array, and no exception. *)
Theorem unpacked_table_shape event par h om ol g ext n_samples out g' :
  ext <> "h5"%string -> ext <> "hdf5"%string ->
  unpack event par (h, om, ol) g ext n_samples = Return (out, g') ->
  let N := length (records (genfromtxt_names event)) in
  let k := length (filter (requested par) table_names) in
  match out with
  | Utils.Samples1D xs =>
      (k = 0%nat /\ xs = [])
      \/ (length par = 1%nat /\ k = 1%nat /\ length xs = kept n_samples N)
  | Utils.Samples2D rows =>
      length par <> 1%nat /\ (0 < k)%nat
      /\ length rows = kept n_samples N
      /\ Forall (fun r => length r = k) rows
  end.
Proof.
  intros Hh5 Hhdf5 H N k. revert H. unfold _unpack_gw_posterior.
  apply String.eqb_neq in Hh5, Hhdf5. rewrite Hh5, Hhdf5. cbn [orb].
  set (data := genfromtxt_names event) in *.
  set (omega := CosmologicalParameters h om ol (-1) 0).
  destruct (table_cols data par omega) as [cols|e] eqn:Hcols; cbn [bind];
    [|discriminate].
  destruct (table_columns_inv _ _ _ _ Hcols) as [_ [_ [zs [Hz Hc]]]].
  assert (Hu : Forall (fun c => length c = length (records data)) cols).
  { subst cols.
    apply filtered_columns_uniform, (table_steps_uniform _ omega), Hz. }
  assert (Hk : length cols
               = length (filter (requested par) table_names)).
  { subst cols. rewrite length_map, length_filter_fst. reflexivity. }
  unfold finish. rewrite (shape_samples_uniform par _ _ Hu). cbn [bind].
  intros H. injection H as Hout.
  fold k in Hk. fold N in Hu.
  destruct cols as [|c rest].
  - (* no known name in [par] *)
    destruct (downsample_flat n_samples g []) as [xs' Hxs'].
    pose proof (downsample_len n_samples g (Utils.Samples1D [])) as Hl.
    rewrite Hxs' in Hl. cbn [len length] in Hl.
    rewrite Hout in Hxs'. cbn [fst] in Hxs'. subst out.
    left. split; [symmetry; exact Hk|].
    assert (kept n_samples 0 = 0%nat) as E
        by (unfold kept; destruct (n_samples >? -1)%Z; lia).
    rewrite E in Hl. destruct xs'; [reflexivity|discriminate].
  - destruct (length par =? 1)%nat eqn:Hp.
    + apply Nat.eqb_eq in Hp.
      assert (Hk1 : k = 1%nat).
      { destruct par as [|x [|]]; try discriminate.
        pose proof (single_name_single_column x). subst k.
        cbn [length] in Hk. lia. }
      destruct (downsample_flat n_samples g (concat (c :: rest)))
        as [xs' Hxs'].
      pose proof (downsample_len n_samples g
                    (Utils.Samples1D (concat (c :: rest)))) as Hl.
      rewrite Hxs' in Hl. cbn [len] in Hl.
      rewrite Hout in Hxs'. cbn [fst] in Hxs'. subst out.
      right. split; [exact Hp|]. split; [exact Hk1|].
      rewrite Hl. f_equal.
      destruct rest; [|cbn [length] in Hk; lia].
      rewrite length_concat_single. inversion Hu; subst. assumption.
    + apply Nat.eqb_neq in Hp.
      destruct (length_transpose (c :: rest) N) as [HN Hw];
        [discriminate|exact Hu|].
      destruct (downsample_rows n_samples g (transpose (c :: rest)))
        as [rows' [Hrows' Hin]].
      pose proof (downsample_len n_samples g
                    (Utils.Samples2D (transpose (c :: rest)))) as Hl.
      rewrite Hrows' in Hl. cbn [len] in Hl.
      rewrite Hout in Hrows'. cbn [fst] in Hrows'. subst out.
      split; [exact Hp|]. split; [rewrite <- Hk; cbn; lia|].
      split; [rewrite Hl, HN; reflexivity|].
      apply Forall_forall. intros r Hr. rewrite <- Hk.
      rewrite Forall_forall in Hw. apply Hw, Hin, Hr.
Qed.

End Downsampling.

(** *** The two readings of an HDF5 file *)

Lemma append_requested_app par steps pre samples :
  append_requested par steps (pre ++ samples)
  = (fst (append_requested par steps samples),
     pre ++ snd (append_requested par steps samples)).
Proof.
  revert samples. induction steps as [|[name col] steps IH]; intros samples.
  - reflexivity.
  - cbn [append_requested]. destruct (requested par name); [|apply IH].
    destruct col as [c|e]; [|reflexivity].
    rewrite <- app_assoc. apply IH.
Qed.

Lemma append_requested_fields par data names samples :
  forall c,
    In c (snd (append_requested par
                 (map (fun pn => (fst pn, h5_field data (snd pn))) names)
                 samples)) ->
    In c samples
    \/ exists name, has_field data name = true /\ c = column data name.
Proof.
  revert samples. induction names as [|[p n] names IH]; intros samples c.
  - cbn. auto.
  - cbn [map fst snd append_requested].
    destruct (requested par p); [|apply IH].
    unfold h5_field at 1. destruct (has_field data n) eqn:Hn.
    + intros Hc. apply IH in Hc as [Hc|Hc]; [|right; exact Hc].
      apply in_app_or in Hc as [Hc|[<-|[]]]; [left; exact Hc|].
      right. exists n. split; [exact Hn|reflexivity].
    + cbn [snd]. auto.
Qed.

Lemma overall_columns_app f par omega pre :
  overall_cols f par omega pre
  = bind (overall_cols f par omega [])
         (fun cols => Return (pre ++ cols)).
Proof.
  unfold overall_columns.
  destruct (Overall_posterior f) as [data|]; [|reflexivity].
  repeat (match goal with
          | |- bind ?r _ = bind (bind ?r _) _ =>
              destruct r; cbn [bind]; [|reflexivity]
          end).
  match goal with
  | |- context [append_requested par ?steps pre] =>
      rewrite <- (app_nil_r pre) at 1;
      rewrite (append_requested_app par steps pre []);
      destruct (append_requested par steps []) as [[e|] cols]
  end; reflexivity.
Qed.

(** X24: In an HDF5 file the second reading starts from the list that
    the first one left.  When [PublicationSamples] has some of the
    requested fields and lacks a later one, the columns appended before
    the failure stay: the array holds them before the columns computed
    from [Overall_posterior], and has more columns than [par] has
    names. *)
Theorem fallback_keeps_columns_read_before_the_failure
  event par h om ol g n_samples e partial :
  publication_columns (h5py_File event) par [] = (Some e, partial) ->
  let f := h5py_File event in
  let omega := CosmologicalParameters h om ol (-1) 0 in
  (forall c, In c partial ->
             exists data name,
               posterior_samples f = Some data
               /\ has_field data name = true /\ c = column data name)
  /\ (forall cols,
         overall_cols f par omega partial = Return cols <->
         exists cols',
           overall_cols f par omega [] = Return cols'
           /\ cols = partial ++ cols')
  /\ unpack event par (h, om, ol) g "h5" n_samples
     = bind (overall_cols f par omega [])
            (fun cols' => finish choice par n_samples g (partial ++ cols')).
Proof.
  intros Hpub f omega. split; [|split].
  - intros c Hc. unfold publication_columns in Hpub. fold f in Hpub.
    destruct (posterior_samples f) as [data|] eqn:Hdata.
    + exists data.
      match type of Hpub with
      | append_requested par ?steps [] = _ =>
          change steps
            with (map (fun pn => (fst pn, h5_field data (snd pn)))
                      [("m1", "mass_1_source"); ("m2", "mass_2_source");
                       ("mc", "chirp_mass"); ("z", "redshift");
                       ("chi_eff", "chi_eff"); ("ra", "ra"); ("dec", "dec");
                       ("luminosity_distance", "luminosity_distance")]%string)
            in Hpub
      end.
      match type of Hpub with
      | append_requested par (map _ ?names) [] = _ =>
          pose proof (append_requested_fields par data names [] c) as HF
      end.
      rewrite Hpub in HF. cbn [snd] in HF.
      destruct (HF Hc) as [[]|[name [Hn ->]]].
      exists name. auto.
    + injection Hpub as _ <-. destruct Hc.
  - intros cols. rewrite overall_columns_app.
    destruct (overall_cols f par omega []) as [cols'|e']; cbn [bind].
    + split.
      * intros H. injection H as <-. exists cols'. auto.
      * intros [c' [H ->]]. injection H as ->. reflexivity.
    + split; [discriminate|]. intros [c' [H _]]. discriminate.
  - subst f omega. unfold _unpack_gw_posterior.
    cbn [String.eqb Ascii.eqb Bool.eqb orb]. cbv zeta. rewrite Hpub.
    rewrite overall_columns_app.
    destruct (overall_cols _ par _ []); reflexivity.
Qed.

(** *** The derived columns *)

Lemma Rpower_fifths k :
  0 < k ->
  let A := Rpower k (1 / 5) in
  0 < A /\ k = A * A * A * A * A /\ Rpower k (3 / 5) = A * A * A.
Proof.
  intros Hk A. split; [apply exp_pos|]. split.
  - rewrite <- (Rpower_1 k Hk) at 1.
    replace 1 with (1/5 + 1/5 + 1/5 + 1/5 + 1/5) at 1 by field.
    rewrite !Rpower_plus. reflexivity.
  - replace (3 / 5) with (1/5 + 1/5 + 1/5) by field.
    rewrite !Rpower_plus. reflexivity.
Qed.

(** X25: The source-frame columns of the second reading and of the text
    files agree with each other: a source-frame mass times [1 + z] is the
    detector-frame mass, the chirp mass of the two source-frame masses is
    the chirp mass of the detector-frame masses over [1 + z], and it does
    not depend on which mass is called the first. *)
Theorem chirp_mass_scales_like_the_masses m1 m2 z :
  0 < m1 -> 0 < m2 -> 0 < 1 + z ->
  source_frame m1 z * (1 + z) = m1
  /\ chirp_mass (source_frame m1 z) (source_frame m2 z)
     = source_frame (chirp_mass m1 m2) z
  /\ chirp_mass m1 m2 = chirp_mass m2 m1.
Proof.
  intros H1 H2 Hz. split; [|split].
  - unfold source_frame. field. lra.
  - unfold chirp_mass, source_frame.
    set (k := / (1 + z)).
    assert (Hk : 0 < k) by (apply Rinv_0_lt_compat, Hz).
    replace (m1 / (1 + z) * (m2 / (1 + z))) with ((m1 * m2) * (k * k))
      by (unfold k; field; lra).
    replace (m1 / (1 + z) + m2 / (1 + z)) with ((m1 + m2) * k)
      by (unfold k; field; lra).
    rewrite <- !Rpower_mult_distr by nra.
    destruct (Rpower_fifths k Hk) as [HA [Hk5 Hk3]].
    rewrite Hk3.
    set (A := Rpower k (1 / 5)) in *.
    assert (HP : 0 < Rpower (m1 + m2) (1 / 5)) by apply exp_pos.
    set (P := Rpower (m1 + m2) (1 / 5)) in *.
    set (N := Rpower (m1 * m2) (3 / 5)).
    unfold Rdiv. fold k. rewrite Hk5. field. lra.
  - unfold chirp_mass. rewrite (Rmult_comm m1 m2), (Rplus_comm m1 m2).
    reflexivity.
Qed.

(** X26: The effective spin of the second reading is the average of the
    two spin projections weighted by the masses.  So it lies between the
    two projections, and is the same computed from source-frame and from
    detector-frame masses. *)
Theorem chi_eff_is_the_mass_weighted_projection m1 m2 s1 cos1 s2 cos2 :
  0 < m1 -> 0 < m2 ->
  chi_eff m1 m2 s1 cos1 s2 cos2
  = (m1 * (s1 * cos1) + m2 * (s2 * cos2)) / (m1 + m2)
  /\ Rmin (s1 * cos1) (s2 * cos2) <= chi_eff m1 m2 s1 cos1 s2 cos2
     <= Rmax (s1 * cos1) (s2 * cos2)
  /\ (forall z, 0 < 1 + z ->
                chi_eff (source_frame m1 z) (source_frame m2 z)
                        s1 cos1 s2 cos2
                = chi_eff m1 m2 s1 cos1 s2 cos2).
Proof.
  intros H1 H2.
  assert (E : chi_eff m1 m2 s1 cos1 s2 cos2
              = (m1 * (s1 * cos1) + m2 * (s2 * cos2)) / (m1 + m2)).
  { unfold chi_eff. cbv zeta. field. lra. }
  split; [exact E|]. split.
  - rewrite E. set (a := s1 * cos1). set (b := s2 * cos2).
    assert (Hs : 0 < m1 + m2) by lra.
    split.
    + apply Rmult_le_reg_r with (m1 + m2); [exact Hs|].
      unfold Rdiv. rewrite Rmult_assoc, Rinv_l, Rmult_1_r by lra.
      pose proof (Rmin_l a b). pose proof (Rmin_r a b).
      set (m := Rmin a b) in *. nra.
    + apply Rmult_le_reg_r with (m1 + m2); [exact Hs|].
      unfold Rdiv. rewrite Rmult_assoc, Rinv_l, Rmult_1_r by lra.
      pose proof (Rmax_l a b). pose proof (Rmax_r a b).
      set (m := Rmax a b) in *. nra.
  - intros z Hz. unfold chi_eff, source_frame. cbv zeta. field. lra.
Qed.

End GWProps.

(** *** The theorems on stand-ins *)

Section GWExamples.

Import GWPosterior GWFixtures.

Lemma below_length n : length (below n) = n.
Proof.
  induction n as [|n IH]; cbn [below length]; [reflexivity|].
  rewrite length_map, IH. reflexivity.
Qed.

Lemma last_positions_size (g n s : nat) :
  (s <= n)%nat -> length (fst (last_positions g n s)) = s.
Proof.
  intros H. unfold last_positions. cbn [fst].
  rewrite length_firstn, below_length. lia.
Qed.

Local Abbreviation unpack_stand_in :=
  (_unpack_gw_posterior linear_distance one_secant_step flat_cosmology
     last_positions (fun _ => gwtc_file) (fun _ => simulation)).

Lemma unpack_ignores_the_order_of_par_witness :
  unpack_stand_in "sim/event_1.dat" ["z"; "m1"]%string
                  (0.674, 0.315, 0.685)%R 0%nat "dat" 2
  = unpack_stand_in "sim/event_1.dat" ["m1"; "z"]%string
                    (0.674, 0.315, 0.685)%R 0%nat "dat" 2
  /\ unpack_stand_in "sim/event_1.dat" ["mass"; "m1"; "z"]%string
                     (0.674, 0.315, 0.685)%R 0%nat "dat" 2
     = unpack_stand_in "sim/event_1.dat" ["m1"; "z"]%string
                       (0.674, 0.315, 0.685)%R 0%nat "dat" 2.
Proof.
  destruct (unpack_ignores_the_order_of_par
              linear_distance one_secant_step flat_cosmology last_positions
              (fun _ => gwtc_file) (fun _ => simulation)
              "sim/event_1.dat" ["m1"; "z"]%string
              0.674%R 0.315%R 0.685%R 0%nat "dat" 2) as [Horder Hname].
  split.
  - apply Horder. apply perm_swap.
  - apply Hname.
    + unfold known_names. cbn [In]. intros H.
      repeat (destruct H as [H|H]; [discriminate H|]). exact H.
    + cbn [length]. lia.
Defined.

Lemma table_load_succeeds_whatever_par_witness :
  (exists out,
      unpack_stand_in "sim/event_1.dat" ["ra"]%string
                      (0.674, 0.315, 0.685)%R 0%nat "dat" (-1) = Return out)
  <-> (Forall (fun name => has_field simulation name = true) table_fields
       /\ length (records simulation) <> 1%nat
       /\ Forall (fun l => exists z,
                      Load._find_redshift linear_distance one_secant_step
                        (flat_cosmology 0.674 0.315 0.685 (-1) 0) l = Ok z)
                 (column simulation "luminosity_distance")).
Proof.
  apply (table_load_succeeds_whatever_par
           linear_distance one_secant_step flat_cosmology last_positions
           (fun _ => gwtc_file) (fun _ => simulation)
           "sim/event_1.dat" ["ra"]%string
           0.674%R 0.315%R 0.685%R 0%nat "dat" (-1)); discriminate.
Defined.

Lemma unpacked_table_shape_witness :
  exists rows g',
    unpack_stand_in "sim/event_1.dat" ["m1"; "z"]%string
                    (0.674, 0.315, 0.685)%R 0%nat "dat" 2
    = Return (Utils.Samples2D rows, g')
    /\ length rows = 2%nat
    /\ Forall (fun r => length r = 2%nat) rows.
Proof.
  eexists. eexists. split; [reflexivity|].
  pose proof (unpacked_table_shape
                linear_distance one_secant_step flat_cosmology last_positions
                (fun _ => gwtc_file) (fun _ => simulation)
                last_positions_size
                "sim/event_1.dat" ["m1"; "z"]%string
                0.674%R 0.315%R 0.685%R 0%nat "dat" 2 _ _
                ltac:(discriminate) ltac:(discriminate) eq_refl) as H.
  cbv beta iota zeta in H. destruct H as [_ [_ [Hrows Hwidth]]].
  split; [exact Hrows|exact Hwidth].
Defined.

Lemma fallback_keeps_columns_read_before_the_failure_witness :
  unpack_stand_in "GWTC/GW150914.h5" ["m1"; "z"]%string
                  (0.674, 0.315, 0.685)%R 0%nat "h5" (-1)
  = bind (overall_columns linear_distance one_secant_step gwtc_file
            ["m1"; "z"]%string (flat_cosmology 0.674 0.315 0.685 (-1) 0) [])
         (fun cols' =>
            finish last_positions ["m1"; "z"]%string (-1) 0%nat
                   ([column publication "mass_1_source"] ++ cols')).
Proof.
  apply (fallback_keeps_columns_read_before_the_failure
           linear_distance one_secant_step flat_cosmology last_positions
           (fun _ => gwtc_file) (fun _ => simulation)
           "GWTC/GW150914.h5" ["m1"; "z"]%string
           0.674%R 0.315%R 0.685%R 0%nat (-1)
           (Std (ValueError "Field redshift does not appear in this type."))
           [column publication "mass_1_source"] eq_refl).
Defined.

Lemma chirp_mass_scales_like_the_masses_witness :
  (source_frame 40 (1 / 2) * (1 + 1 / 2) = 40
   /\ chirp_mass (source_frame 40 (1 / 2)) (source_frame 30 (1 / 2))
      = source_frame (chirp_mass 40 30) (1 / 2)
   /\ chirp_mass 40 30 = chirp_mass 30 40)%R.
Proof.
  apply (chirp_mass_scales_like_the_masses 40 30 (1 / 2)); lra.
Defined.

Lemma chi_eff_is_the_mass_weighted_projection_witness :
  (chi_eff 40 30 (1 / 2) 1 (1 / 4) (-1)
   = (40 * (1 / 2 * 1) + 30 * (1 / 4 * -1)) / (40 + 30)
   /\ Rmin (1 / 2 * 1) (1 / 4 * -1) <= chi_eff 40 30 (1 / 2) 1 (1 / 4) (-1)
      <= Rmax (1 / 2 * 1) (1 / 4 * -1)
   /\ (forall z, 0 < 1 + z ->
                 chi_eff (source_frame 40 z) (source_frame 30 z)
                         (1 / 2) 1 (1 / 4) (-1)
                 = chi_eff 40 30 (1 / 2) 1 (1 / 4) (-1)))%R.
Proof.
  apply (chi_eff_is_the_mass_weighted_projection
           40 30 (1 / 2) 1 (1 / 4) (-1)); lra.
Defined.

End GWExamples.

(** ** Samples of the median ([utils.py], lines 152-158) *)

Section MedianProps.

Import Median.

Local Open Scope nat_scope.

Context {mixture_t rng_t : Type}.
Variable dim : mixture_t -> nat.
Variable rvs : mixture_t -> nat -> rng_t -> list (list Q) * rng_t.
Variable np_random_choice :
  rng_t -> forall n : nat, nat -> list {i : nat | i < n} * rng_t.

Lemma count_up_total i ctr :
  list_sum (map snd (count_up i ctr)) = S (list_sum (map snd ctr)).
Proof.
  induction ctr as [|[j n] ctr IH]; [reflexivity|].
  cbn [count_up]. destruct (i =? j); cbn [map snd].
  - change (S n + list_sum (map snd ctr) = S (n + list_sum (map snd ctr))).
    reflexivity.
  - change (n + list_sum (map snd (count_up i ctr))
            = S (n + list_sum (map snd ctr))).
    rewrite IH. lia.
Qed.

Lemma Counter_from_total idx ctr :
  list_sum (map snd (fold_left (fun ctr i => count_up i ctr) idx ctr))
  = list_sum (map snd ctr) + length idx.
Proof.
  revert ctr.
  induction idx as [|i idx IH]; intros ctr; cbn [fold_left length]; [lia|].
  rewrite IH, count_up_total. lia.
Qed.

Lemma count_up_in (i : nat) (ctr : list (nat * nat)) :
  In i (map fst ctr) ->
  NoDup (map fst ctr) ->
  count_up i ctr
  = map (fun p => (fst p, if fst p =? i then S (snd p) else snd p)) ctr.
Proof.
  induction ctr as [|[j n] ctr IH]; intros Hin Hnd; [destruct Hin|].
  cbn [count_up map fst snd]. inversion Hnd as [|? ? Hj Hnd']; subst.
  destruct (Nat.eqb_spec i j) as [->|Hne].
  - rewrite Nat.eqb_refl. f_equal.
    rewrite <- (map_id ctr) at 1. apply map_ext_in. intros [k c] Hk.
    cbn [fst snd]. destruct (Nat.eqb_spec k j) as [->|_]; [|reflexivity].
    exfalso. apply Hj. apply in_map_iff. exists (j, c). auto.
  - destruct (Nat.eqb_spec j i) as [->|_]; [contradiction|].
    f_equal. apply IH; [|exact Hnd'].
    destruct Hin as [E|Hin]; [cbn in E; congruence|exact Hin].
Qed.

Lemma count_up_new (i : nat) (ctr : list (nat * nat)) :
  ~ In i (map fst ctr) -> count_up i ctr = ctr ++ [(i, 1)].
Proof.
  induction ctr as [|[j n] ctr IH]; intros Hin; [reflexivity|].
  cbn [count_up]. destruct (Nat.eqb_spec i j) as [->|Hne].
  - exfalso. apply Hin. now left.
  - cbn [app]. f_equal. apply IH. intros H. apply Hin. now right.
Qed.

Lemma filter_remove (f : nat -> bool) (i : nat) (l : list nat) :
  filter f (remove Nat.eq_dec i l)
  = filter (fun k => f k && negb (k =? i)) l.
Proof.
  induction l as [|a l IH]; [reflexivity|].
  cbn [remove filter]. destruct (Nat.eq_dec i a) as [->|Hne].
  - rewrite Nat.eqb_refl, andb_false_r. exact IH.
  - destruct (Nat.eqb_spec a i) as [->|_]; [contradiction|].
    rewrite andb_true_r. cbn [filter]. destruct (f a); [f_equal|]; exact IH.
Qed.

Lemma absent_spec ctr k : absent ctr k = true <-> ~ In k (map fst ctr).
Proof.
  unfold absent. rewrite negb_true_iff. split.
  - intros H Hin. assert (existsb (Nat.eqb k) (map fst ctr) = true).
    { apply existsb_exists. exists k. split; [exact Hin|apply Nat.eqb_refl]. }
    congruence.
  - intros H. apply not_true_is_false. intros E.
    apply existsb_exists in E as [x [Hx Ex]]. apply Nat.eqb_eq in Ex.
    subst x. contradiction.
Qed.

(** What [Counter] holds after the values of [idx], from the counts
    [ctr]. *)
Lemma Counter_from (idx : list nat) :
  forall ctr,
    NoDup (map fst ctr) ->
    fold_left (fun ctr i => count_up i ctr) idx ctr
    = map (fun p => (fst p, snd p + count_occ Nat.eq_dec idx (fst p))) ctr
      ++ map (fun i => (i, count_occ Nat.eq_dec idx i))
             (filter (absent ctr) (first_occurrences idx)).
Proof.
  induction idx as [|i idx IH]; intros ctr Hnd.
  - cbn. rewrite app_nil_r. rewrite <- (map_id ctr) at 1.
    apply map_ext. intros [k c]. cbn. f_equal. lia.
  - cbn [fold_left first_occurrences filter].
    destruct (absent ctr i) eqn:Ei.
    + apply absent_spec in Ei. rewrite (count_up_new i ctr Ei).
      rewrite IH.
      2:{ rewrite map_app. cbn [map fst].
          apply NoDup_app; [exact Hnd|repeat constructor; intros []|].
          intros x Hx [<-|[]]. contradiction. }
      rewrite map_app. cbn [map fst snd]. rewrite <- app_assoc.
      cbn [app]. f_equal.
      * apply map_ext_in. intros [k c] Hk. cbn [fst snd]. f_equal.
        cbn [count_occ]. destruct (Nat.eq_dec i k) as [->|_]; [|reflexivity].
        exfalso. apply Ei. apply in_map_iff. exists (k, c). auto.
      * f_equal.
        -- f_equal. cbn [count_occ].
           destruct (Nat.eq_dec i i); [lia|contradiction].
        -- rewrite filter_remove.
           rewrite (filter_ext_in (absent (ctr ++ [(i, 1)]))
                      (fun k => absent ctr k && negb (k =? i))).
           2:{ intros k _. unfold absent. rewrite map_app, existsb_app.
               cbn [map fst existsb]. rewrite orb_false_r, negb_orb.
               reflexivity. }
           apply map_ext_in. intros k Hk. apply filter_In in Hk as [_ Hk].
           apply andb_true_iff in Hk as [_ Hk].
           apply negb_true_iff, Nat.eqb_neq in Hk.
           cbn [count_occ]. destruct (Nat.eq_dec i k); [congruence|].
           reflexivity.
    + assert (Hin : In i (map fst ctr)).
      { destruct (in_dec Nat.eq_dec i (map fst ctr)) as [H|H]; [exact H|].
        apply absent_spec in H. congruence. }
      rewrite (count_up_in i ctr Hin Hnd). rewrite IH.
      2:{ rewrite map_map. cbn [fst]. exact Hnd. }
      rewrite map_map. cbn [fst snd]. f_equal.
      * apply map_ext. intros [k c]. cbn [fst snd]. f_equal.
        cbn [count_occ]. destruct (Nat.eq_dec i k) as [->|Hne].
        -- rewrite Nat.eqb_refl. lia.
        -- destruct (Nat.eqb_spec k i); [congruence|reflexivity].
      * rewrite filter_remove.
        rewrite (filter_ext_in
                   (absent (map (fun p => (fst p, if fst p =? i
                                                  then S (snd p) else snd p))
                                ctr))
                   (fun k => absent ctr k && negb (k =? i))).
        2:{ intros k _. unfold absent. rewrite map_map. cbn [fst].
            destruct (Nat.eqb_spec k i) as [->|_];
              [|now rewrite andb_true_r].
            rewrite andb_false_r. apply negb_false_iff.
            apply existsb_exists. exists i.
            split; [exact Hin|apply Nat.eqb_refl]. }
        apply map_ext_in. intros k Hk. apply filter_In in Hk as [_ Hk].
        apply andb_true_iff in Hk as [_ Hk].
        apply negb_true_iff, Nat.eqb_neq in Hk.
        cbn [count_occ]. destruct (Nat.eq_dec i k); [congruence|].
        reflexivity.
Qed.

(** [Counter(idx)]: each value once, in the order of its first
    occurrence, with the number of its occurrences. *)
Lemma Counter_spec (idx : list nat) :
  Counter idx
  = map (fun i => (i, count_occ Nat.eq_dec idx i)) (first_occurrences idx).
Proof.
  unfold Counter. rewrite (Counter_from idx []) by constructor.
  cbn [map app]. f_equal.
  induction (first_occurrences idx) as [|k l IH]; [reflexivity|].
  cbn [filter]. unfold absent at 1. cbn [map existsb negb]. f_equal.
  exact IH.
Qed.

Lemma first_occurrences_In (idx : list nat) (k : nat) :
  In k (first_occurrences idx) <-> In k idx.
Proof.
  induction idx as [|i idx IH]; [reflexivity|].
  cbn [first_occurrences In]. split.
  - intros [H|H]; [now left|]. apply in_remove in H as [H _].
    right. apply IH, H.
  - intros [H|H]; [now left|].
    destruct (Nat.eq_dec i k) as [E|E]; [now left|].
    right. apply in_in_remove; [congruence|]. apply IH, H.
Qed.

Lemma first_occurrences_NoDup (idx : list nat) :
  NoDup (first_occurrences idx).
Proof.
  induction idx as [|i idx IH]; [constructor|].
  cbn [first_occurrences]. constructor.
  - apply remove_In.
  - clear - IH. induction (first_occurrences idx) as [|a l IHl];
      [constructor|].
    inversion IH; subst. cbn [remove].
    destruct (Nat.eq_dec i a); [auto|].
    constructor; [|auto]. intros H. apply in_remove in H as [H _].
    contradiction.
Qed.

(** The loop over the counter is one call of [rvs] for each of its
    entries, when the positions are positions of [draws] and the batches
    have the width of the array. *)
Lemma draw_batches_groups (draws : list mixture_t) (d : nat)
  (idx : list nat) :
  (forall m n g, In m draws ->
                 Forall (fun r => length r = d) (fst (rvs m n g))) ->
  forall ks g samples,
    (forall k, In k ks -> k < length draws) ->
    draw_batches rvs draws
                 (map (fun i => (i, count_occ Nat.eq_dec idx i)) ks)
                 d samples g
    = Ok (samples ++ fst (group_samples rvs draws idx ks g),
          snd (group_samples rvs draws idx ks g)).
Proof.
  intros Hrvs. induction ks as [|i ks IH]; intros g samples Hks.
  - cbn. now rewrite app_nil_r.
  - cbn [map draw_batches group_samples].
    assert (Hi : i < length draws) by (apply Hks; now left).
    destruct (nth_error draws i) as [m|] eqn:Hm;
      [|apply nth_error_None in Hm; lia].
    pose proof (Hrvs m (count_occ Nat.eq_dec idx i) g
                  (nth_error_In _ _ Hm)) as Hw.
    destruct (rvs m (count_occ Nat.eq_dec idx i) g) as [batch g1].
    cbn [fst] in Hw. unfold np_concatenate.
    replace (forallb _ batch) with true.
    + cbn [Py.bind]. rewrite IH by (intros k Hk; apply Hks; now right).
      destruct (group_samples rvs draws idx ks g1) as [rest g2].
      cbn [fst snd]. now rewrite app_assoc.
    + symmetry. apply forallb_forall. intros r Hr.
      rewrite Forall_forall in Hw. rewrite (Hw r Hr). apply Nat.eqb_refl.
Qed.

Lemma group_samples_rows (draws : list mixture_t) (d : nat)
  (idx : list nat) :
  (forall m n g, In m draws ->
                 length (fst (rvs m n g)) = n
                 /\ Forall (fun r => length r = d) (fst (rvs m n g))) ->
  forall ks g,
    (forall k, In k ks -> k < length draws) ->
    length (fst (group_samples rvs draws idx ks g))
    = list_sum (map (count_occ Nat.eq_dec idx) ks)
    /\ Forall (fun r => length r = d)
              (fst (group_samples rvs draws idx ks g)).
Proof.
  intros Hrvs. induction ks as [|i ks IH]; intros g Hks.
  - cbn. auto.
  - cbn [group_samples map].
    assert (Hi : i < length draws) by (apply Hks; now left).
    destruct (nth_error draws i) as [m|] eqn:Hm;
      [|apply nth_error_None in Hm; lia].
    destruct (Hrvs m (count_occ Nat.eq_dec idx i) g (nth_error_In _ _ Hm))
      as [Hl Hw].
    destruct (rvs m (count_occ Nat.eq_dec idx i) g) as [batch g1].
    cbn [fst] in Hl, Hw.
    destruct (IH g1 (fun k Hk => Hks k (or_intror Hk))) as [Hl' Hw'].
    destruct (group_samples rvs draws idx ks g1) as [rest g2].
    cbn [fst] in *. split.
    + rewrite length_app, Hl, Hl'.
      change (list_sum (?a :: ?l)) with (a + list_sum l). reflexivity.
    + apply Forall_app. auto.
Qed.

(** The occurrences of the distinct values add up to the length. *)
Lemma count_occ_total (idx : list nat) :
  list_sum (map (count_occ Nat.eq_dec idx) (first_occurrences idx))
  = length idx.
Proof.
  pose proof (Counter_from_total idx []) as H.
  fold (Counter idx) in H. rewrite Counter_spec, map_map in H.
  cbn [snd map list_sum fold_right] in H. exact H.
Qed.

(** X27: what [rvs_median] returns.  The positions drawn with repetition
    are grouped: each distinct position is taken once, in the order of its
    first occurrence, and the mixture at that position is asked once for
    as many samples as the position occurs, each call starting from the
    generator that the call before left.  The result is these batches one
    after the other: [n_draws] rows of the width of the mixtures; the row
    of uninitialised memory that starts the array is not part of it,
    whatever it holds. *)
Theorem rvs_median_returns_n_draws_rows m0 rest n_draws g :
  (forall g n s, 0 < n -> length (fst (np_random_choice g n s)) = s) ->
  (forall m n g,
      In m (m0 :: rest) ->
      length (fst (rvs m n g)) = n
      /\ Forall (fun r => length r = dim m0) (fst (rvs m n g))) ->
  let draws := m0 :: rest in
  let idx := map (fun i => proj1_sig i)
                 (fst (np_random_choice g (length draws) n_draws)) in
  let g1 := snd (np_random_choice g (length draws) n_draws) in
  let out := group_samples rvs draws idx (first_occurrences idx) g1 in
  length (fst out) = n_draws
  /\ Forall (fun r => length r = dim m0) (fst out)
  /\ NoDup (first_occurrences idx)
  /\ (forall k, In k (first_occurrences idx) <-> In k idx)
  /\ forall np_empty,
      rvs_median dim rvs np_random_choice np_empty draws n_draws g = Ok out.
Proof.
  intros Hchoice Hrvs draws idx g1 out.
  assert (Hkeys : forall k, In k (first_occurrences idx) ->
                            k < length draws).
  { intros k Hk. apply (proj1 (first_occurrences_In _ _)) in Hk.
    unfold idx in Hk.
    apply in_map_iff in Hk as [[i Hi] [<- _]]. exact Hi. }
  destruct (group_samples_rows draws (dim m0) idx Hrvs
              (first_occurrences idx) g1 Hkeys) as [Hlen Hw].
  split; [|split; [exact Hw|split; [apply first_occurrences_NoDup|split]]].
  - unfold out. rewrite Hlen, count_occ_total. unfold idx.
    rewrite length_map. apply Hchoice. cbn. lia.
  - apply first_occurrences_In.
  - intros np_empty. subst out idx g1 draws. unfold rvs_median.
    destruct (np_random_choice g (length (m0 :: rest)) n_draws)
      as [positions g'].
    cbn [fst snd] in *. cbv zeta. rewrite Counter_spec.
    rewrite (draw_batches_groups (m0 :: rest) (dim m0) _
               (fun m n g0 Hm => proj2 (Hrvs m n g0 Hm)) _ _ _ Hkeys).
    cbn [Py.bind app tl].
    now destruct (group_samples rvs (m0 :: rest) _ _ g').
Qed.

End MedianProps.

Section MedianExamples.

Import Median.

Lemma round_positions_size (g n s : nat) :
  (0 < n)%nat -> length (fst (MedianFixtures.round_positions g n s)) = s.
Proof.
  intros Hn. destruct n as [|n]; [lia|].
  unfold MedianFixtures.round_positions. cbn [fst].
  rewrite length_map. apply length_seq.
Qed.

Lemma rvs_median_returns_n_draws_rows_witness :
  exists g',
    forall np_empty,
      rvs_median (fun _ => 2%nat) MedianFixtures.point_rvs
                 MedianFixtures.round_positions np_empty [1; 2]%Q 3 0%nat
      = Ok ([[1; 1]; [1; 1]; [2; 2]]%Q, g').
Proof.
  destruct (rvs_median_returns_n_draws_rows
              (fun _ : Q => 2%nat) MedianFixtures.point_rvs
              MedianFixtures.round_positions 1%Q [2%Q] 3%nat 0%nat)
    as (_ & _ & _ & _ & H).
  - exact round_positions_size.
  - intros m n g _. unfold MedianFixtures.point_rvs. cbn [fst].
    split; [apply repeat_length|].
    apply Forall_forall. intros r Hr. apply repeat_spec in Hr. subst r.
    reflexivity.
  - eexists. intros np_empty. rewrite (H np_empty). reflexivity.
Defined.

End MedianExamples.
